(** * thinkingofyou: bubble layout and incremental rendering

    A shallow embedding of the bubble layout engine ([layoutBubbles]) and
    of the incremental renderer ([renderBubbles]) of the "thinking of you"
    web application, with the properties its specification states; and of
    the code around them: the periods of the day and their colours, the
    sizes, the snapshot listeners, the resize observer and the panel
    divider, with further properties read off the code.

    Numbers.  JavaScript numbers are modelled as exact rationals ([Q]):
    the arithmetic of the source is written out operation by operation,
    in the source's order, without rounding, overflow or NaN.  The
    functions [Math.cos], [Math.sin] and [Math.sqrt], whose results are
    not rational, are parameters of the development (class [MathLib]);
    every theorem holds for every choice of them that respects equality
    of rationals.  Loop counters and the
    results of [Math.ceil] and [Math.round], which are integers in the
    source, are integers ([Z]) here. *)

From Stdlib Require Import QArith Qround ZArith Lia Lqa List Ascii.
From stdpp Require Import gmap strings list fin_maps.

#[local] Set Warnings "-clear-no-such-hyp".

(** ** JavaScript numbers *)

Module Js.

(** [Math.PI]: the binary64 value 3.141592653589793, exactly. *)
Definition Math_PI : Q := 884279719003555 # 281474976710656.

Definition Math_ceil (v : Q) : Z := Qceiling v.

(** [Math.round] rounds half-way cases up: floor (v + 1/2). *)
Definition Math_round (v : Q) : Z := Qfloor (v + (1 # 2)).

Definition Math_max (a b : Z) : Z := Z.max a b.

Definition Math_min (a b : Q) : Q := if Qle_bool a b then a else b.

(** [a < b] and [a <= b] on numbers. *)
Definition ltb (a b : Q) : bool := negb (Qle_bool b a).
Definition leb (a b : Q) : bool := Qle_bool a b.

(** [a || b] on numbers: [a] unless it is falsy (zero). *)
Definition or_else (a b : Q) : Q := if Qeq_bool a 0 then b else a.

(** The transcendental part of the [Math] object.  The square root
    gives equal results on equal numbers, whatever fractions stand for
    them. *)
Class MathLib := {
  Math_cos : Q -> Q;
  Math_sin : Q -> Q;
  Math_sqrt : Q -> Q;
  Math_sqrt_proper : Proper (Qeq ==> Qeq) Math_sqrt
}.

End Js.

Import Js.

(** ** Data model *)

(** A bubble as [initApp] builds it from a stored record:
    [{ id, ts, index, size, gradient }]. *)
Record Bubble := mkBubble {
  b_id : string;
  b_ts : option Z;
  b_index : Z;
  b_size : Q;
  b_gradient : string
}.

(** An entry of the [placed] array of the ring scan: [{ cx, cy, r }]. *)
Record Disc := mkDisc { d_cx : Q; d_cy : Q; d_r : Q }.

(** An element of the result of [layoutBubbles]:
    [{ ...b, x, y, cx, cy }]. *)
Record Placed := mkPlaced {
  p_bubble : Bubble;
  p_x : Q;
  p_y : Q;
  p_cx : Q;
  p_cy : Q
}.

(** The disc a placed bubble occupies: its centre and half its size. *)
Definition disc_of (p : Placed) : Disc :=
  mkDisc (p_cx p) (p_cy p) (b_size (p_bubble p) / 2).

(** The radius and the distance the clearance invariant speaks of; the
    distance is computed as the overlap tests compute it. *)
Definition radius (p : Placed) : Q := (b_size (p_bubble p) / 2)%Q.

Definition distance `{M : MathLib} (a b : Placed) : Q :=
  let dx := (p_cx a - p_cx b)%Q in
  let dy := (p_cy a - p_cy b)%Q in
  Math_sqrt (dx * dx + dy * dy).

(** ** The ring-scan layout engine *)

Module Ring.
Section Engine.
Context `{M : MathLib}.

(** [placed.some(p => Math.sqrt(dx*dx + dy*dy) < r + p.r + 6)] *)
Definition overlaps (placed : list Disc) (px py r : Q) : bool :=
  existsb (fun p =>
    let dx := px - d_cx p in
    let dy := py - d_cy p in
    ltb (Math_sqrt (dx * dx + dy * dy)) (r + d_r p + 6))%Q placed.

(** The inner loop [for (let a = 0; a < angleSteps && !found; a++)];
    [n] counts the iterations that remain, [angleSteps - a]. *)
Fixpoint angle_loop (placed : list Disc) (cx cy r ring : Q)
    (angleSteps : Z) (n : nat) (a : Z) : option (Q * Q) :=
  match n with
  | O => None
  | S n' =>
      let angle := (inject_Z a / inject_Z angleSteps * 2 * Math_PI)%Q in
      let px := (cx + Math_cos angle * ring)%Q in
      let py := (cy + Math_sin angle * ring)%Q in
      if overlaps placed px py r
      then angle_loop placed cx cy r ring angleSteps n' (a + 1)
      else Some (px, py)
  end.

Definition angleSteps_of (ring : Q) : Z :=
  Math_max 36 (Math_ceil (2 * Math_PI * ring / 4)).

(** The outer loop [for (let ring = ...; ring <= 800 && !found; ring += 2)].
    The outer [None] is fuel exhaustion; [Some None] is the loop ending
    with [found === null]. *)
Fixpoint ring_loop (fuel : nat) (placed : list Disc) (cx cy r ring : Q)
    : option (option (Q * Q)) :=
  if leb ring 800 then
    match fuel with
    | O => None
    | S fuel' =>
        let angleSteps := angleSteps_of ring in
        match angle_loop placed cx cy r ring angleSteps
                (Z.to_nat angleSteps) 0 with
        | Some found => Some (Some found)
        | None => ring_loop fuel' placed cx cy r (ring + 2)
        end
    end
  else Some None.

(** The position chosen once the search has ended. *)
Definition position_of (found : option (Q * Q)) (placed : list Disc)
    (cx cy : Q) : Q * Q :=
  match found with
  | Some p => p
  | None => (cx + inject_Z (Z.of_nat (length placed)) * 10,
             cy + inject_Z (Z.of_nat (length placed)) * 10)%Q
  end.

(** One call of the [map] callback: the element returned and the entry
    pushed on [placed]. *)
Definition place (fuel : nat) (cx cy : Q) (placed : list Disc) (b : Bubble)
    : option (Placed * Disc) :=
  let r := (b_size b / 2)%Q in
  if Nat.eqb (length placed) 0 then
    Some (mkPlaced b (cx - r) (cy - r) cx cy, mkDisc cx cy r)
  else
    let minStartRadius := (r + 6)%Q in
    found ← ring_loop fuel placed cx cy r minStartRadius;
    let '(px, py) := position_of found placed cx cy in
    Some (mkPlaced b (px - r) (py - r) px py, mkDisc px py r).

(** [bubbles.map(...)], threading the array [placed]. *)
Fixpoint layout_from (fuel : nat) (cx cy : Q) (placed : list Disc)
    (bubbles : list Bubble) : option (list Placed) :=
  match bubbles with
  | [] => Some []
  | b :: rest =>
      '(p, d) ← place fuel cx cy placed b;
      ps ← layout_from fuel cx cy (placed ++ [d]) rest;
      Some (p :: ps)
  end.

(** [layoutBubbles(bubbles, containerW, containerH, cyOffset = 0)] with
    [fuel] iterations allowed to each ring loop; [None] when one of them
    runs out. *)
Definition layoutBubbles_fuel (fuel : nat) (bubbles : list Bubble)
    (containerW containerH cyOffset : Q) : option (list Placed) :=
  if Nat.eqb (length bubbles) 0 then Some []
  else
    let cx := (containerW / 2)%Q in
    let cy := (containerH / 2 + cyOffset)%Q in
    layout_from fuel cx cy [] bubbles.

(** Rings that remain to be visited from [ring]. *)
Definition rings_left (ring : Q) : nat :=
  Z.to_nat (Qfloor ((800 - ring) / 2) + 1).

(** Enough fuel for every bubble of the input. *)
Definition layout_fuel (bubbles : list Bubble) : nat :=
  list_max (map (fun b => rings_left (b_size b / 2 + 6)) bubbles).

(** [layoutBubbles] itself: with [layout_fuel] no ring loop runs out
    ([layoutBubbles_complete] below), and more fuel changes nothing
    ([layoutBubbles_sound]). *)
Definition layoutBubbles (bubbles : list Bubble)
    (containerW containerH cyOffset : Q) : list Placed :=
  default [] (layoutBubbles_fuel (layout_fuel bubbles) bubbles
                containerW containerH cyOffset).

(** The value of [found] when the search for [b] against [placed] has
    ended: a position, or [None] for [null]. *)
Definition search (cx cy : Q) (placed : list Disc) (b : Bubble)
    : option (Q * Q) :=
  let r := (b_size b / 2)%Q in
  default None
    (ring_loop (rings_left (r + 6)) placed cx cy r (r + 6)).

(** The search budget suffices for an input: every bubble after the
    first finds a position against the bubbles placed before it. *)
Definition budget_suffices (bubbles : list Bubble)
    (containerW containerH cyOffset : Q) : bool :=
  let cx := (containerW / 2)%Q in
  let cy := (containerH / 2 + cyOffset)%Q in
  let out := layoutBubbles bubbles containerW containerH cyOffset in
  forallb (fun j =>
    match bubbles !! j with
    | Some b => bool_decide (is_Some (search cx cy (map disc_of (take j out)) b))
    | None => true
    end) (seq 1 (length bubbles - 1)).

End Engine.
End Ring.

(** The earlier ring-scan engine differs only in its fixed centre:
    [cy = containerH / 2 - 10], and no [cyOffset] parameter. *)
Definition layoutBubbles_fixed `{M : MathLib} (bubbles : list Bubble)
    (containerW containerH : Q) : list Placed :=
  Ring.layoutBubbles bubbles containerW containerH (-10).

(** ** The golden-angle spiral layout engine *)

Module Spiral.
Section Engine.
Context `{M : MathLib}.

Definition GOLDEN_ANGLE : Q := 2.39996.

(** [placed.some(p => Math.sqrt(dx*dx + dy*dy) < r + p.size / 2 + 4)];
    here [placed] holds the elements of the result themselves. *)
Definition overlaps (placed : list Placed) (px py r : Q) : bool :=
  existsb (fun p =>
    let dx := px - p_cx p in
    let dy := py - p_cy p in
    let minDist := r + b_size (p_bubble p) / 2 + 4 in
    ltb (Math_sqrt (dx * dx + dy * dy)) minDist)%Q placed.

(** The loop [for (let step = 1; step <= 300 && !found; step++)];
    [n] counts the iterations that remain, [300 - step + 1]. *)
Fixpoint step_loop (placed : list Placed) (cx cy : Q) (b : Bubble) (i : Z)
    (n : nat) (step : Z) : option (Q * Q) :=
  match n with
  | O => None
  | S n' =>
      let radius := (Math_sqrt (inject_Z i) * b_size b * 0.62
                     + inject_Z (step - 1) * 4)%Q in
      let angle := (inject_Z i * GOLDEN_ANGLE + inject_Z (step - 1) * 0.15)%Q in
      let px := (cx + Math_cos angle * radius)%Q in
      let py := (cy + Math_sin angle * radius)%Q in
      if overlaps placed px py (b_size b / 2)
      then step_loop placed cx cy b i n' (step + 1)
      else Some (px, py)
  end.

(** The fallback of the source, "just place it". *)
Definition fallback (cx cy : Q) (b : Bubble) (i : Z) : Q * Q :=
  let radius := (Math_sqrt (inject_Z i) * b_size b * 0.8)%Q in
  let angle := (inject_Z i * GOLDEN_ANGLE)%Q in
  (cx + Math_cos angle * radius, cy + Math_sin angle * radius)%Q.

(** One call of the [forEach] callback: the element pushed on [placed]. *)
Definition place (cx cy : Q) (placed : list Placed) (b : Bubble) (i : Z)
    : Placed :=
  let r := (b_size b / 2)%Q in
  if Z.eqb i 0 then mkPlaced b (cx - r) (cy - r) cx cy
  else
    let '(px, py) :=
      match step_loop placed cx cy b i 300 1 with
      | Some found => found
      | None => fallback cx cy b i
      end in
    mkPlaced b (px - r) (py - r) px py.

(** [bubbles.forEach((b, i) => ...)] from index [i] on. *)
Fixpoint layout_from (cx cy : Q) (placed : list Placed)
    (bubbles : list Bubble) (i : Z) : list Placed :=
  match bubbles with
  | [] => placed
  | b :: rest =>
      layout_from cx cy (placed ++ [place cx cy placed b i]) rest (i + 1)
  end.

(** The spiral [layoutBubbles(bubbles, containerW, containerH)]; its one
    loop is bounded, so it needs no fuel. *)
Definition layoutBubbles (bubbles : list Bubble) (containerW containerH : Q)
    : list Placed :=
  if Nat.eqb (length bubbles) 0 then []
  else
    let cx := (containerW / 2)%Q in
    let cy := (containerH / 2 - 20)%Q in
    layout_from cx cy [] bubbles 0.

(** The search budget suffices for an input: every bubble after the
    first finds a position within the 300 steps. *)
Definition budget_suffices (bubbles : list Bubble)
    (containerW containerH : Q) : bool :=
  let cx := (containerW / 2)%Q in
  let cy := (containerH / 2 - 20)%Q in
  let out := layoutBubbles bubbles containerW containerH in
  forallb (fun j =>
    match bubbles !! j with
    | Some b =>
        bool_decide (is_Some (step_loop (take j out) cx cy b (Z.of_nat j) 300 1))
    | None => true
    end) (seq 1 (length bubbles - 1)).

End Engine.
End Spiral.

(** ** The incremental renderer *)

Module Render.

(** The inner [.bubble] element of an anchor: its background and its
    [--float-delay].  The time label that [attachTimeLabel] adds below it
    carries no state the renderer reads back and is left out. *)
Record Inner := mkInner { i_background : string; i_float_delay : Q }.

(** A [.bubble-anchor] element: its [data-id] and the style properties
    the renderer writes. *)
Record Anchor := mkAnchor {
  a_id : string;
  a_left : Q;
  a_top : Q;
  a_width : Q;
  a_height : Q;
  a_bubble_size : option Q;
  a_inner : option Inner
}.

(** A container element: what [getBoundingClientRect], [offsetWidth] and
    [offsetHeight] report for it, and its [.bubble-anchor[data-id]]
    descendants in document order. *)
Record Container := mkContainer {
  rect_width : Q;
  rect_height : Q;
  offsetWidth : Q;
  offsetHeight : Q;
  anchors : list Anchor
}.

(** What a pass does to the visual tree, in order. *)
Inductive DomOp :=
  | Removed (id : string)
  | Updated (id : string)
  | Created (id : string).

(** The document and the two module-level tables of the renderer. *)
Record State := mkState {
  document : gmap string Container;
  renderedIds : gmap string (gset string);
  lastData : gmap string (list Bubble)
}.

(** What one pass works on: the anchors of the container, the set
    [known], and the operations performed so far. *)
Record Pass := mkPass {
  nodes : list Anchor;
  known : gset string;
  ops : list DomOp
}.

Definition BASE_SIZES : list Q :=
  [92; 112; 76; 130; 88; 106; 118; 80; 100; 96; 122; 84]%Q.

Definition sizeForIndex (i : nat) (scale : Q) : Q :=
  inject_Z (Math_round (nth (i mod length BASE_SIZES) BASE_SIZES 0%Q * scale)).

(** [el.querySelectorAll('.bubble-anchor[data-id]').forEach(node => ...)]:
    every anchor whose id is not current is removed and its id deleted
    from [known]; the anchors that stay are collected, in document order,
    in front of [nodes s]. *)
Fixpoint remove_stale (currentIds : gset string) (all : list Anchor)
    (s : Pass) : Pass :=
  match all with
  | [] => s
  | node :: rest =>
      if bool_decide (a_id node ∈ currentIds)
      then
        let s' := remove_stale currentIds rest s in
        mkPass (node :: nodes s') (known s') (ops s')
      else
        remove_stale currentIds rest
          (mkPass (nodes s) (known s ∖ {[a_id node]})
                  (ops s ++ [Removed (a_id node)]))
  end.

(** The source builds its selector by pasting the id, as it is, between
    the double quotes of [`.bubble-anchor[data-id="${id}"]`].  Inside a
    quoted string of a selector a backslash starts an escape, a double
    quote ends the string, a line break breaks it and a null character
    is replaced; every other character stands for itself.  An id is
    [css_safe] when all its characters are printable ASCII other than
    the double quote and the backslash: the selector built from it then
    selects exactly the anchors whose [data-id] is that id. *)
Definition css_safe (id : string) : bool :=
  forallb (fun c =>
             let n := nat_of_ascii c in
             Nat.leb 32 n && Nat.ltb n 127 &&
             negb (Nat.eqb n 34) && negb (Nat.eqb n 92))
          (String.list_ascii_of_string id).

Definition css_safe_ids (ids : list string) : bool := forallb css_safe ids.

(** [el.querySelector(`.bubble-anchor[data-id="${id}"]`)] for an id that
    is [css_safe]: the first anchor with that id.  For any other id the
    selector of the source is another selector, or none at all (the call
    throws), and this function does not follow it: an id that holds a
    backslash is not found by the source although its anchor is there.
    The properties of a pass below that depend on the anchor found are
    stated for [css_safe] ids. *)
Fixpoint querySelector (id : string) (l : list Anchor) : option Anchor :=
  match l with
  | [] => None
  | node :: rest =>
      if String.eqb (a_id node) id then Some node else querySelector id rest
  end.

(** Writing through the reference [querySelector] returned. *)
Fixpoint update_first (id : string) (f : Anchor -> Anchor)
    (l : list Anchor) : list Anchor :=
  match l with
  | [] => []
  | node :: rest =>
      if String.eqb (a_id node) id then f node :: rest
      else node :: update_first id f rest
  end.

Section Reconcile.
(** The two renderers differ in the properties they write:
    [reposition] for an existing anchor, [create] for a new one. *)
Variable reposition : Placed -> Anchor -> Anchor.
Variable create : Placed -> Anchor.

(** One call of the [laid.forEach] callback. *)
Definition render_step (s : Pass) (b : Placed) : Pass :=
  let id := b_id (p_bubble b) in
  match querySelector id (nodes s) with
  | Some _ =>
      mkPass (update_first id (reposition b) (nodes s)) (known s)
             (ops s ++ [Updated id])
  | None =>
      mkPass (nodes s ++ [create b]) ({[id]} ∪ known s)
             (ops s ++ [Created id])
  end.

(** What the placement loop writes to one anchor it finds: every
    placement of the anchor's id, in order. *)
Definition reposition_all (laid : list Placed) (node : Anchor) : Anchor :=
  foldl (fun n b =>
           if String.eqb (b_id (p_bubble b)) (a_id n) then reposition b n else n)
        node laid.

(** The removal loop followed by [laid.forEach]. *)
Definition reconcile (currentIds : gset string) (laid : list Placed)
    (all : list Anchor) (known0 : gset string) : Pass :=
  foldl render_step
    (remove_stale currentIds all (mkPass [] known0 [])) laid.

End Reconcile.

Definition floatDelay (b : Placed) : Q :=
  (inject_Z (Z.rem (b_index (p_bubble b)) 7) * 0.65)%Q.

Definition set_background (b : Placed) (inner : option Inner)
    : option Inner :=
  match inner with
  | Some i => Some (mkInner (b_gradient (p_bubble b)) (i_float_delay i))
  | None => None
  end.

(** The [existing] branch of [renderBubbles]. *)
Definition reposition (b : Placed) (existing : Anchor) : Anchor :=
  let size := b_size (p_bubble b) in
  mkAnchor (a_id existing) (p_x b) (p_y b) size size (Some size)
           (set_background b (a_inner existing)).

(** The "brand-new bubble" branch of [renderBubbles]. *)
Definition create (b : Placed) : Anchor :=
  let size := b_size (p_bubble b) in
  mkAnchor (b_id (p_bubble b)) (p_x b) (p_y b) size size (Some size)
           (Some (mkInner (b_gradient (p_bubble b)) (floatDelay b))).

(** The same two branches in the earlier renderer, which does not write
    [--bubble-size]. *)
Definition reposition_fixed (b : Placed) (existing : Anchor) : Anchor :=
  let size := b_size (p_bubble b) in
  mkAnchor (a_id existing) (p_x b) (p_y b) size size (a_bubble_size existing)
           (set_background b (a_inner existing)).

Definition create_fixed (b : Placed) : Anchor :=
  let size := b_size (p_bubble b) in
  mkAnchor (b_id (p_bubble b)) (p_x b) (p_y b) size size None
           (Some (mkInner (b_gradient (p_bubble b)) (floatDelay b))).

Definition with_size (b : Bubble) (size : Q) : Bubble :=
  mkBubble (b_id b) (b_ts b) (b_index b) size (b_gradient b).

Definition known_of (st : State) (containerId : string) : gset string :=
  default ∅ (renderedIds st !! containerId).

(** The state a pass leaves: the anchors of the container and its entry
    of [renderedIds] as the two loops left them. *)
Definition commit (st : State) (containerId : string) (el : Container)
    (s : Pass) (lastData' : gmap string (list Bubble)) : State :=
  mkState
    (<[containerId :=
         mkContainer (rect_width el) (rect_height el)
                     (offsetWidth el) (offsetHeight el) (nodes s)]>
       (document st))
    (<[containerId := known s]> (renderedIds st))
    lastData'.

(** [rect.width || el.offsetWidth || 900] and the like for the height. *)
Definition containerW (el : Container) : Q :=
  or_else (or_else (rect_width el) (offsetWidth el)) 900.

Definition containerH (el : Container) : Q :=
  or_else (or_else (rect_height el) (offsetHeight el)) 680.

Section Renderers.
Context `{M : MathLib}.

(** The offset [renderBubbles] passes to the engine: a tenth of the
    height, upwards, for the main field and nothing for the others. *)
Definition cyOffset (containerId : string) (el : Container) : Q :=
  let isMainField := String.eqb containerId "theirBubbleField" in
  if isMainField then inject_Z (Math_round (- 0.10 * containerH el)) else 0%Q.

(** The measuring, scaling and layout part of [renderBubbles]. *)
Definition layout_in (bubbleData : list Bubble) (containerId : string)
    (el : Container) : list Placed :=
  let scale := (Math_min (containerW el) (containerH el) / 832)%Q in
  let scaledData :=
    imap (fun i b => with_size b (sizeForIndex i scale)) bubbleData in
  Ring.layoutBubbles scaledData (containerW el) (containerH el)
    (cyOffset containerId el).

(** [renderBubbles(bubbleData, containerId)]: the state after the call
    and the operations it performed on the visual tree. *)
Definition renderBubbles (bubbleData : list Bubble) (containerId : string)
    (st : State) : State * list DomOp :=
  match document st !! containerId with
  | None => (st, [])
  | Some el =>
      let lastData' := <[containerId := bubbleData]> (lastData st) in
      let laid := layout_in bubbleData containerId el in
      let known0 := known_of st containerId in
      let currentIds : gset string := list_to_set (map b_id bubbleData) in
      let s := reconcile reposition create currentIds laid (anchors el) known0 in
      (commit st containerId el s lastData', ops s)
  end.

(** The earlier renderer,
    [renderBubbles(bubbleData, containerId, containerW, containerH)]:
    the sizes are the caller's and nothing is cached. *)
Definition renderBubbles_fixed (bubbleData : list Bubble)
    (containerId : string) (containerW containerH : Q) (st : State)
    : State * list DomOp :=
  match document st !! containerId with
  | None => (st, [])
  | Some el =>
      let laid := layoutBubbles_fixed bubbleData containerW containerH in
      let known0 := known_of st containerId in
      let currentIds : gset string := list_to_set (map b_id bubbleData) in
      let s := reconcile reposition_fixed create_fixed currentIds laid
                 (anchors el) known0 in
      (commit st containerId el s (lastData st), ops s)
  end.

End Renderers.

(** The ids a pass removed, and the ids it created, in order. *)
Definition removed_ids (l : list DomOp) : list string :=
  omap (fun op => match op with Removed id => Some id | _ => None end) l.

Definition created_ids (l : list DomOp) : list string :=
  omap (fun op => match op with Created id => Some id | _ => None end) l.

(** The ids of a list of placements. *)
Definition laid_ids (laid : list Placed) : list string :=
  map (fun p => b_id (p_bubble p)) laid.

(** The ids of the anchors of a container, in document order. *)
Definition anchor_ids (st : State) (containerId : string) : list string :=
  match document st !! containerId with
  | Some el => map a_id (anchors el)
  | None => []
  end.

(** The renderer's invariant for a container: the known-set is the set
    of the ids of its anchors, and no two anchors share an id. *)
Definition synced (st : State) (containerId : string) : Prop :=
  known_of st containerId = list_to_set (anchor_ids st containerId).

Definition distinct (st : State) (containerId : string) : Prop :=
  NoDup (anchor_ids st containerId).

(** The state the page starts in: nothing rendered, nothing known. *)
Definition fresh (st : State) : Prop :=
  renderedIds st = ∅ /\
  forall containerId el,
    document st !! containerId = Some el -> anchors el = [].

(** The browser giving a container another size. *)
Definition resize (containerId : string) (w h ow oh : Q) (st : State)
    : State :=
  mkState
    (alter (fun el => mkContainer w h ow oh (anchors el)) containerId
           (document st))
    (renderedIds st) (lastData st).

(** The states the page can be in: passes of either renderer over
    snapshots of [css_safe] ids, and resizes, from a fresh state. *)
Inductive reachable `{M : MathLib} : State -> Prop :=
  | reach_fresh st : fresh st -> reachable st
  | reach_render st bubbleData containerId :
      css_safe_ids (map b_id bubbleData) = true ->
      reachable st ->
      reachable (fst (renderBubbles bubbleData containerId st))
  | reach_render_fixed st bubbleData containerId w h :
      css_safe_ids (map b_id bubbleData) = true ->
      reachable st ->
      reachable (fst (renderBubbles_fixed bubbleData containerId w h st))
  | reach_resize st containerId w h ow oh :
      reachable st ->
      reachable (resize containerId w h ow oh st).

End Render.

(** ** A rational instance of the [Math] parameters

    Fixed-point approximations of cosine, sine and square root, good to
    about six digits on the arguments the engines produce.  They serve to
    run the engines on concrete inputs; no theorem depends on them. *)

Module Approx.

(** One, PI / 2, PI and 2 PI in fixed point, 30 binary digits. *)
Definition one : Z := 1073741824.
Definition half_pi : Z := 1686629713.
Definition pi : Z := 3373259426.
Definition two_pi : Z := 6746518852.

(** [c0 - w (c1 - w (c2 - ...))] in fixed point. *)
Fixpoint horner (w : Z) (coeffs : list Z) : Z :=
  match coeffs with
  | [] => 0
  | c :: rest => (c - Z.shiftr (w * horner w rest) 30)%Z
  end.

(** The Taylor coefficients 1/0!, 1/2!, 1/4!, ... and 1/1!, 1/3!, ... *)
Definition cos_coeffs : list Z :=
  [1073741824; 536870912; 44739243; 1491308; 26631; 296; 2]%Z.

Definition sin_coeffs : list Z :=
  [1073741824; 178956971; 8947849; 213044; 2959; 27]%Z.

(** Cosine and sine on [0, PI / 2]. *)
Definition cos_small (v : Z) : Z := horner (Z.shiftr (v * v) 30) cos_coeffs.

Definition sin_small (v : Z) : Z :=
  Z.shiftr (v * horner (Z.shiftr (v * v) 30) sin_coeffs) 30.

(** The argument in fixed point, brought to [0, 2 PI). *)
Definition reduce (t : Q) : Z := (Qfloor (t * inject_Z one) mod two_pi)%Z.

(** With [u = t - PI]: [cos t = - cos |u|] and [sin t = - sin u], and
    [|u|] is reflected about [PI / 2] when it exceeds it. *)
Definition cos (t : Q) : Q :=
  let v := Z.abs (reduce t - pi) in
  Qmake (if (v <=? half_pi)%Z then - cos_small v else cos_small (pi - v))
        (Z.to_pos one).

Definition sin (t : Q) : Q :=
  let u := (reduce t - pi)%Z in
  let s := sin_small (Z.min (Z.abs u) (pi - Z.abs u)) in
  Qmake (if (0 <=? u)%Z then - s else s) (Z.to_pos one).

(** The square root, to three decimals. *)
Definition sqrt (v : Q) : Q :=
  Qmake (Z.sqrt (Qfloor (v * 1000000))) 1000.

#[export] Instance math : MathLib.
Proof.
  refine {| Math_cos := cos; Math_sin := sin; Math_sqrt := sqrt |}.
  intros v w E. unfold sqrt.
  now rewrite (Qfloor_comp _ _ (Qmult_comp _ _ E _ _ (Qeq_refl 1000000))).
Defined.

End Approx.

(** ** Concrete inputs *)

Module Sample.

Definition bubble (id : string) (i : Z) (size : Q) : Bubble :=
  mkBubble id (Some i) i size "g".

(** One circle of diameter 100, then a second one. *)
Definition one : list Bubble := [bubble "a" 0 100].
Definition two : list Bubble := [bubble "a" 0 100; bubble "b" 1 100].

(** Two small circles, placed within a few rings. *)
Definition small : list Bubble := [bubble "a" 0 10; bubble "b" 1 10].

(** Two circles too large for any ring up to 800. *)
Definition huge : list Bubble := [bubble "a" 0 1600; bubble "b" 1 1600].

(** A 900 by 680 container with nothing in it, and a page with the
    main field and the user's own field. *)
Definition field : Render.Container := Render.mkContainer 900 680 900 680 [].

Definition page : Render.State :=
  Render.mkState
    (<["theirBubbleField" := field]> (<["myBubbleField" := field]> ∅)) ∅ ∅.

End Sample.

(** ** Time of day: periods, colours, labels *)

Module Period.

(** [getPeriod(h)]: the period of the day an hour falls in. *)
Definition getPeriod (h : Z) : string :=
  if (3 <=? h)%Z && (h <? 8)%Z then "early-morning"
  else if (8 <=? h)%Z && (h <? 11)%Z then "morning"
  else if (11 <=? h)%Z && (h <? 14)%Z then "midday"
  else if (14 <=? h)%Z && (h <? 18)%Z then "afternoon"
  else if (18 <=? h)%Z && (h <? 20)%Z then "evening"
  else if (20 <=? h)%Z && (h <? 23)%Z then "dusk"
  else "night".

(** An entry of [PERIOD_META]: [{ gradient, isDark }]. *)
Record Meta := mkMeta { m_gradient : string; m_isDark : bool }.

Definition PERIOD_META : gmap string Meta :=
  list_to_map
    [("early-morning",
      mkMeta "radial-gradient(circle at 38% 30%, #FF7231, #8A3809 85%)" true);
     ("morning",
      mkMeta "radial-gradient(circle at 38% 30%, #FFEF96, #D39D0B 85%)" false);
     ("midday",
      mkMeta "radial-gradient(circle at 38% 30%, #528EFF, #FFDC7D 85%)" true);
     ("afternoon",
      mkMeta "radial-gradient(circle at 38% 30%, #96E3FF, #313F85 85%)" true);
     ("evening",
      mkMeta "radial-gradient(circle at 38% 30%, #1075FA, #1D115D 85%)" true);
     ("dusk",
      mkMeta "radial-gradient(circle at 38% 30%, #3807B4, #FFF1AA 85%)" true);
     ("night",
      mkMeta "radial-gradient(circle at 38% 30%, #FFA071, #FFF788 85%)" false)].

(** The table [skies] of [skyGradientNow]. *)
Definition skies : gmap string string :=
  list_to_map
    [("early-morning",
      "linear-gradient(180deg, #f5ddd0 0%, #f9e8d8 40%, #fce9d4 70%, #fdf0e0 100%)");
     ("morning",
      "linear-gradient(180deg, #e8f4ff 0%, #f4f8ff 35%, #fffbe8 65%, #fff8d0 100%)");
     ("midday",
      "linear-gradient(180deg, #d0e8ff 0%, #daeffe 35%, #eaf5ff 65%, #f5faff 100%)");
     ("afternoon",
      "linear-gradient(180deg, #d8e8f8 0%, #e0eef8 35%, #eef5fc 65%, #f4f8fe 100%)");
     ("evening",
      "linear-gradient(180deg, #d0d8f0 0%, #dae0f5 30%, #e8eeff 55%, #f0f4ff 80%, #f8f8ff 100%)");
     ("dusk",
      "linear-gradient(180deg, #e8d8f0 0%, #f0dff5 30%, #f5e8fa 55%, #faeeff 75%, #fdf5ff 100%)");
     ("night",
      "linear-gradient(180deg, #f0ddd8 0%, #f5e4e0 35%, #faeee8 60%, #fdf3ef 80%, #fff8f5 100%)")].

(** A stored timestamp and the clock are seconds of local time;
    [getHours] is the hour of the [Date] they stand for, 0 to 23. *)
Definition getHours (date : Z) : Z := ((date / 3600) mod 24)%Z.

(** [ts?.toDate ? ts.toDate() : new Date()]: the stored time, or the
    clock for a record whose timestamp is still pending. *)
Definition dateOf (ts : option Z) (now : Z) : Z := default now ts.

(** [PERIOD_META[period].gradient]; [None] stands for the property
    access failing on a missing key. *)
Definition bubbleGradientFromTimestamp (ts : option Z) (now : Z)
    : option string :=
  m_gradient <$> PERIOD_META !! getPeriod (getHours (dateOf ts now)).

Definition bubbleIsDarkNow (now : Z) : option bool :=
  m_isDark <$> PERIOD_META !! getPeriod (getHours now).

(** [skies[period]]; [None] stands for [undefined]. *)
Definition skyGradientNow (now : Z) : option string :=
  skies !! getPeriod (getHours now).

(** [s.replace(c, d)] with a one-character pattern: the first
    occurrence only. *)
Fixpoint replace (c d : Ascii.ascii) (s : string) : string :=
  match s with
  | EmptyString => EmptyString
  | String a rest =>
      if Ascii.eqb a c then String d rest else String a (replace c d rest)
  end.

(** [timeLabel(ts)] of the renderers that show the period in words. *)
Definition timeLabel (ts : option Z) (now : Z) : string :=
  replace "-"%char " "%char (getPeriod (getHours (dateOf ts now))).

(** Whether a character occurs in a string. *)
Fixpoint occurs (c : Ascii.ascii) (s : string) : bool :=
  match s with
  | EmptyString => false
  | String a rest => Ascii.eqb a c || occurs c rest
  end.

(** The first palette: [bubbleGradientFromTimestamp] and [timeLabel]
    decide on the hour directly, each with its own chain of tests. *)
Module Hourly.

Definition gradientOfHour (h : Z) : string :=
  if (6 <=? h)%Z && (h <? 11)%Z
  then "radial-gradient(circle at 38% 30%, #FFEF96, #D39D0B 85%)"
  else if (11 <=? h)%Z && (h <? 14)%Z
  then "radial-gradient(circle at 38% 30%, #FFA071, #FFF788 85%)"
  else if (14 <=? h)%Z && (h <? 18)%Z
  then "radial-gradient(circle at 38% 30%, #FF7231, #8A3809 85%)"
  else if (18 <=? h)%Z && (h <? 21)%Z
  then "radial-gradient(circle at 38% 30%, #FFA071, #FFF788 85%)"
  else if (21 <=? h)%Z && (h <? 23)%Z
  then "radial-gradient(circle at 38% 30%, #3807B4, #FFF1AA 85%)"
  else "radial-gradient(circle at 38% 30%, #1075FA, #1D115D 85%)".

Definition bubbleGradientFromTimestamp (ts : option Z) (now : Z) : string :=
  gradientOfHour (getHours (dateOf ts now)).

Definition labelOfHour (h : Z) : string :=
  if (6 <=? h)%Z && (h <? 11)%Z then "morning"
  else if (11 <=? h)%Z && (h <? 14)%Z then "midday"
  else if (14 <=? h)%Z && (h <? 18)%Z then "afternoon"
  else if (18 <=? h)%Z && (h <? 21)%Z then "sunset"
  else if (21 <=? h)%Z && (h <? 23)%Z then "dusk"
  else "night".

Definition timeLabel (ts : option Z) (now : Z) : string :=
  labelOfHour (getHours (dateOf ts now)).

End Hourly.

End Period.

(** ** The phyllotaxis layout of the first renderers *)

Module Phyllo.

(** An element of the result: [{ ...b, x, y }], without a centre. *)
Record Spot := mkSpot { s_bubble : Bubble; s_x : Q; s_y : Q }.

Definition SIZES : list Q :=
  [92; 112; 76; 130; 88; 106; 118; 80; 100; 96; 122; 84]%Q.

(** [sizeForIndex(i)] without a scale: [SIZES[i % SIZES.length]]. *)
Definition sizeForIndex (i : nat) : Q := nth (i mod length SIZES) SIZES 0%Q.

Section Engine.
Context `{M : MathLib}.

Definition GOLDEN_ANGLE : Q := 2.39996.

(** The callback of [bubbles.map((b, i) => ...)]. *)
Definition place (cx cy : Q) (i : nat) (b : Bubble) : Spot :=
  let r := (b_size b / 2)%Q in
  if Nat.eqb i 0 then mkSpot b (cx - r) (cy - r)
  else
    let radius := (Math_sqrt (inject_Z (Z.of_nat i)) * b_size b * 0.68)%Q in
    let angle := (inject_Z (Z.of_nat i) * GOLDEN_ANGLE)%Q in
    mkSpot b (cx + Math_cos angle * radius - r)%Q
             (cy + Math_sin angle * radius - r)%Q.

(** The phyllotaxis [layoutBubbles(bubbles, containerW, containerH)]. *)
Definition layoutBubbles (bubbles : list Bubble) (containerW containerH : Q)
    : list Spot :=
  if Nat.eqb (length bubbles) 0 then []
  else
    let cx := (containerW / 2)%Q in
    let cy := (containerH / 2 - 30)%Q in
    imap (place cx cy) bubbles.

End Engine.
End Phyllo.

(** ** The draggable panel divider *)

Module Resizer.

(** What [screen2.getBoundingClientRect()] reports. *)
Record Rect := mkRect { r_left : Q; r_top : Q; r_width : Q; r_height : Q }.

(** The inline style of the left panel: [flex-basis] and [height] in
    [dvh], [--left-w] in percent; [None] for a property not set. *)
Record PanelStyle := mkPanelStyle {
  flexBasis : option Q;
  height : option Q;
  left_w : option Q
}.

(** The variable [dragging] of [initResizer] and the panel. *)
Record State := mkState { dragging : bool; panelLeft : PanelStyle }.

(** [Math.max] on numbers. *)
Definition Math_max_num (a b : Q) : Q := if Qle_bool a b then b else a.

(** [Math.min(75, Math.max(25, pct))] *)
Definition clamp (pct : Q) : Q := Math_min 75 (Math_max_num 25 pct).

(** [onMove(clientX, clientY)] with what it reads from the window:
    the rectangle of the second screen and [window.innerWidth].  The
    percentage is a quotient by the width or the height of the
    rectangle; it is the source's for a rectangle that has an extent
    ([measurable] below).  On a width or height of zero the source
    divides by zero (and writes 75, 25 or [NaN]), which the rational
    quotient here does not follow. *)
Definition onMove (containerRect : Rect) (innerWidth : Q)
    (clientX clientY : Q) (s : State) : State :=
  if negb (dragging s) then s
  else
    let isMobile := leb innerWidth 600 in
    if isMobile then
      let mouseOffset := (clientY - r_top containerRect)%Q in
      let pct := (mouseOffset / r_height containerRect * 100)%Q in
      let pct := clamp pct in
      mkState (dragging s)
        (mkPanelStyle (Some pct) (Some pct) (left_w (panelLeft s)))
    else
      let mouseOffset := (clientX - r_left containerRect)%Q in
      let pct := (mouseOffset / r_width containerRect * 100)%Q in
      let pct := clamp pct in
      mkState (dragging s)
        (mkPanelStyle (flexBasis (panelLeft s)) (height (panelLeft s))
                      (Some pct)).

Definition stopDrag (s : State) : State :=
  if negb (dragging s) then s else mkState false (panelLeft s).

(** The events the listeners of [initResizer] are registered for. *)
Inductive Event :=
  | MouseDown
  | TouchStart
  | MouseMove (containerRect : Rect) (innerWidth clientX clientY : Q)
  | TouchMove (containerRect : Rect) (innerWidth clientX clientY : Q)
  | MouseUp
  | MouseLeave
  | TouchEnd.

Definition handle (s : State) (e : Event) : State :=
  match e with
  | MouseDown | TouchStart => mkState true (panelLeft s)
  | MouseMove rect w x y => onMove rect w x y s
  | TouchMove rect w x y => if dragging s then onMove rect w x y s else s
  | MouseUp | MouseLeave | TouchEnd => stopDrag s
  end.

Definition run (s : State) (events : list Event) : State :=
  foldl handle s events.

(** The state [initResizer] sets up: not dragging. *)
Definition initial (style : PanelStyle) : State := mkState false style.

(** The rectangle a move reads has an extent along the axis it divides
    by. *)
Definition measurable (e : Event) : Prop :=
  match e with
  | MouseMove rect _ _ _ | TouchMove rect _ _ _ =>
      (0 < r_width rect)%Q /\ (0 < r_height rect)%Q
  | _ => True
  end.

(** Every property that is set holds a number from 25 to 75. *)
Definition bounded (style : PanelStyle) : Prop :=
  forall v,
    flexBasis style = Some v \/ height style = Some v \/ left_w style = Some v ->
    (25 <= v)%Q /\ (v <= 75)%Q.

Definition is_press (e : Event) : bool :=
  match e with MouseDown | TouchStart => true | _ => false end.

End Resizer.

(** ** Resize observation: one re-layout for each frame *)

Module Observer.

(** The variable [rafId] of [observeField], and what the browser holds:
    the frame requests that are pending, in the order they were made,
    and the handle the next request gets.  Handles are positive, hence
    truthy. *)
Record Timer := mkTimer {
  rafId : option positive;
  pending : list positive;
  next_handle : positive
}.

Definition cancelAnimationFrame (id : positive) (t : Timer) : Timer :=
  mkTimer (rafId t) (filter (fun h => h <> id) (pending t)) (next_handle t).

Definition requestAnimationFrame (t : Timer) : positive * Timer :=
  (next_handle t,
   mkTimer (rafId t) (pending t ++ [next_handle t])
           (Pos.succ (next_handle t))).

(** The callback of the [ResizeObserver]. *)
Definition on_resize (t : Timer) : Timer :=
  let t1 := match rafId t with
            | Some id => cancelAnimationFrame id t
            | None => t
            end in
  let '(id, t2) := requestAnimationFrame t1 in
  mkTimer (Some id) (pending t2) (next_handle t2).

(** The browser painting a frame: every pending request is taken; the
    result is the number of times the frame callback runs. *)
Definition on_frame (t : Timer) : nat * Timer :=
  (length (pending t), mkTimer (rafId t) [] (next_handle t)).

Inductive Tick := Notify | Paint.

Definition tick (t : Timer) (e : Tick) : Timer :=
  match e with
  | Notify => on_resize t
  | Paint => snd (on_frame t)
  end.

(** [let rafId = null], nothing pending. *)
Definition idle (first : positive) : Timer := mkTimer None [] first.

End Observer.

(** ** The page: snapshots, resizes, frames *)

Module Page.
Import Render.

(** A stored record of a snapshot: [d.id] and [d.data().ts]. *)
Record Doc := mkDoc { doc_id : string; doc_ts : option Z }.

(** [snap.docs.map((d, i) => ({ id, ts, index: i, size: sizeForIndex(i),
    gradient: bubbleGradientFromTimestamp(ts) }))] from index [i] on;
    [None] when a gradient lookup fails. *)
Fixpoint bubbles_from (now : Z) (i : nat) (docs : list Doc)
    : option (list Bubble) :=
  match docs with
  | [] => Some []
  | d :: rest =>
      g ← Period.bubbleGradientFromTimestamp (doc_ts d) now;
      bs ← bubbles_from now (S i) rest;
      Some (mkBubble (doc_id d) (doc_ts d) (Z.of_nat i) (sizeForIndex i 1) g
              :: bs)
  end.

Definition bubblesOf (now : Z) (docs : list Doc) : option (list Bubble) :=
  bubbles_from now 0 docs.

Section Handlers.
Context `{M : MathLib}.

(** The listener on the other person's collection: both views of it are
    rendered from the same bubbles.  A failed lookup ends the listener
    before it renders.  [updateCaptionContrast], which the listener
    calls last, writes to the caption of the first screen only and is
    left out. *)
Definition onTheirSnapshot (now : Z) (docs : list Doc) (st : State)
    : State * list DomOp :=
  match bubblesOf now docs with
  | None => (st, [])
  | Some bubbles =>
      let '(st1, ops1) := renderBubbles bubbles "theirBubbleField" st in
      let '(st2, ops2) := renderBubbles bubbles "theirBubbleFieldLeft" st1 in
      (st2, ops1 ++ ops2)
  end.

(** The listener on the user's own collection. *)
Definition onMySnapshot (now : Z) (docs : list Doc) (st : State)
    : State * list DomOp :=
  match bubblesOf now docs with
  | None => (st, [])
  | Some bubbles => renderBubbles bubbles "myBubbleField" st
  end.

(** The frame callback of [observeField(containerId)]:
    [if (data && data.length > 0) renderBubbles(data, containerId)]. *)
Definition on_frame (containerId : string) (st : State)
    : State * list DomOp :=
  match lastData st !! containerId with
  | Some data =>
      if Nat.ltb 0 (length data) then renderBubbles data containerId st
      else (st, [])
  | None => (st, [])
  end.

(** What happens to the page once [initApp] has set it up. *)
Inductive Event :=
  | TheirSnapshot (now : Z) (docs : list Doc)
  | MySnapshot (now : Z) (docs : list Doc)
  | Resized (containerId : string) (w h ow oh : Q)
  | Frame (containerId : string).

Definition step (st : State) (e : Event) : State * list DomOp :=
  match e with
  | TheirSnapshot now docs => onTheirSnapshot now docs st
  | MySnapshot now docs => onMySnapshot now docs st
  | Resized containerId w h ow oh => (resize containerId w h ow oh st, [])
  | Frame containerId => on_frame containerId st
  end.

Definition run (st : State) (events : list Event) : State :=
  foldl (fun st e => fst (step st e)) st events.

End Handlers.

(** A snapshot all of whose record ids are [css_safe]. *)
Definition plain (docs : list Doc) : bool := css_safe_ids (map doc_id docs).

Definition plain_event (e : Event) : bool :=
  match e with
  | TheirSnapshot _ docs | MySnapshot _ docs => plain docs
  | Resized _ _ _ _ _ | Frame _ => true
  end.

(** The page as it is loaded: no anchor anywhere, both tables empty. *)
Definition loaded (st : State) : Prop :=
  fresh st /\ lastData st = ∅.

(** The cache is in step with the container it belongs to: the ids of
    the cached bubbles are the ids of the anchors. *)
Definition cached (st : State) (containerId : string) : Prop :=
  forall data, lastData st !! containerId = Some data ->
    is_Some (document st !! containerId) /\
    forall id, In id (anchor_ids st containerId) <-> In id (map b_id data).

End Page.

(** ** What the layout and the renderer read and write *)

(** The geometry of a placement: its box, its centre and its size. *)
Definition geometry (p : Placed) : Q * Q * Q * Q * Q :=
  (p_x p, p_y p, p_cx p, p_cy p, b_size (p_bubble p)).

(** The candidate position of the ring scan on ring [ring] at angle
    step [a]. *)
Definition candidate `{M : MathLib} (cx cy ring : Q) (a : Z) : Q * Q :=
  let angle := (inject_Z a / inject_Z (Ring.angleSteps_of ring) * 2 * Math_PI)%Q in
  (cx + Math_cos angle * ring, cy + Math_sin angle * ring)%Q.

(** The [k]-th ring the scan visits for a circle of radius [r]. *)
Fixpoint nth_ring (start : Q) (k : nat) : Q :=
  match k with
  | O => start
  | S k' => (nth_ring start k' + 2)%Q
  end.

(** Whether an anchor shows a placement: position, size and, where the
    anchor has an inner element, colour. *)
Definition shows (n : Render.Anchor) (p : Placed) : Prop :=
  Render.a_id n = b_id (p_bubble p) /\
  Render.a_left n = p_x p /\ Render.a_top n = p_y p /\
  Render.a_width n = b_size (p_bubble p) /\
  Render.a_height n = b_size (p_bubble p) /\
  Render.a_bubble_size n = Some (b_size (p_bubble p)) /\
  forall inner, Render.a_inner n = Some inner ->
    Render.i_background inner = b_gradient (p_bubble p).

(** The operations of a pass, read off the ids of the anchors that are
    there and the ids of the snapshot: the anchors whose id the snapshot
    lacks are removed, in document order; then, in the order of the
    snapshot, an id that has an anchor is updated and an id that has
    none is created. *)
Definition pass_trace (before ids : list string) : list Render.DomOp :=
  map Render.Removed (filter (fun id => id ∉ ids) before) ++
  map (fun id => if bool_decide (id ∈ before)
                 then Render.Updated id else Render.Created id) ids.

(** ** More concrete inputs *)

Module Scene.

(** The three fields of the page, empty. *)
Definition page : Render.State :=
  Render.mkState
    (<["theirBubbleField" := Sample.field]>
       (<["theirBubbleFieldLeft" := Sample.field]>
          (<["myBubbleField" := Sample.field]> ∅))) ∅ ∅.

Definition docs : list Page.Doc :=
  [Page.mkDoc "a" (Some 30000%Z); Page.mkDoc "b" None].

End Scene.

(** * Properties *)

(** ** Comparisons *)

Lemma ltb_false_le a b : ltb a b = false -> (b <= a)%Q.
Proof.
  unfold ltb. intros E. apply negb_false_iff in E. now apply Qle_bool_iff.
Qed.

Lemma leb_true_le a b : leb a b = true <-> (a <= b)%Q.
Proof. apply Qle_bool_iff. Qed.

Lemma leb_false_lt a b : leb a b = false -> (b < a)%Q.
Proof.
  intros E. apply Qnot_le_lt. intros L. apply leb_true_le in L. congruence.
Qed.

Lemma Qfloor_unique (v : Q) (n : Z) :
  (inject_Z n <= v)%Q -> (v < inject_Z (n + 1))%Q -> Qfloor v = n.
Proof.
  intros Hlo Hhi.
  assert (n <= Qfloor v)%Z.
  { rewrite <- (Qfloor_Z n). now apply Qfloor_resp_le. }
  assert (Qfloor v < n + 1)%Z; [|lia].
  rewrite Zlt_Qlt. eapply Qle_lt_trans; [apply Qfloor_le|exact Hhi].
Qed.

Lemma Qfloor_shift (v : Q) (k : Z) :
  Qfloor (v + inject_Z k) = (Qfloor v + k)%Z.
Proof.
  pose proof (Qfloor_le v) as Hlo. pose proof (Qlt_floor v) as Hhi.
  apply Qfloor_unique.
  - rewrite inject_Z_plus. lra.
  - rewrite !inject_Z_plus in *. lra.
Qed.

(** ** The ring scan: search, fuel *)

Section RingFacts.
Context `{M : MathLib}.

Lemma ring_overlaps_false placed px py r :
  Ring.overlaps placed px py r = false ->
  forall p, In p placed ->
    (r + d_r p + 6 <=
     Math_sqrt ((px - d_cx p) * (px - d_cx p) + (py - d_cy p) * (py - d_cy p)))%Q.
Proof.
  unfold Ring.overlaps. induction placed as [|q placed IH]; simpl; [tauto|].
  intros E p [<-|Hp]; apply orb_false_iff in E as [E1 E2].
  - now apply ltb_false_le.
  - now apply IH.
Qed.

Lemma angle_loop_found placed cx cy r ring steps n a pos :
  Ring.angle_loop placed cx cy r ring steps n a = Some pos ->
  Ring.overlaps placed (fst pos) (snd pos) r = false.
Proof.
  revert a. induction n as [|n IH]; intros a; simpl; [discriminate|].
  match goal with |- context [if ?c then _ else _] => destruct c eqn:E end.
  - apply IH.
  - intros [= <-]. exact E.
Qed.

Lemma ring_loop_found fuel placed cx cy r ring pos :
  Ring.ring_loop fuel placed cx cy r ring = Some (Some pos) ->
  Ring.overlaps placed (fst pos) (snd pos) r = false.
Proof.
  revert ring. induction fuel as [|fuel IH]; intros ring; simpl.
  - destruct (leb ring 800); discriminate.
  - destruct (leb ring 800); [|discriminate].
    destruct (Ring.angle_loop _ _ _ _ _ _ _ _) as [q|] eqn:E.
    + intros [= <-]. eapply angle_loop_found, E.
    + apply IH.
Qed.

(** More fuel does not change a result. *)
Lemma ring_loop_mono fuel fuel' placed cx cy r ring res :
  (fuel <= fuel')%nat ->
  Ring.ring_loop fuel placed cx cy r ring = Some res ->
  Ring.ring_loop fuel' placed cx cy r ring = Some res.
Proof.
  revert fuel' ring. induction fuel as [|fuel IH]; intros fuel' ring Hle; simpl.
  - destruct fuel'; simpl; destruct (leb ring 800); congruence.
  - destruct fuel' as [|fuel']; [lia|]. simpl.
    destruct (leb ring 800); [|congruence].
    destruct (Ring.angle_loop _ _ _ _ _ _ _ _); [congruence|].
    apply IH. lia.
Qed.

Lemma rings_left_pos ring : (ring <= 800)%Q -> (0 < Ring.rings_left ring)%nat.
Proof.
  intros H. unfold Ring.rings_left.
  assert (0 <= Qfloor ((800 - ring) / 2))%Z; [|lia].
  change 0%Z with (Qfloor 0). apply Qfloor_resp_le.
  apply Qle_shift_div_l; [reflexivity|]. lra.
Qed.

Lemma rings_left_step ring :
  (ring <= 800)%Q -> (S (Ring.rings_left (ring + 2)) <= Ring.rings_left ring)%nat.
Proof.
  intros H. pose proof (rings_left_pos ring H) as Hpos.
  unfold Ring.rings_left in *.
  assert (E : Qfloor ((800 - (ring + 2)) / 2) = (Qfloor ((800 - ring) / 2) - 1)%Z).
  { transitivity (Qfloor ((800 - ring) / 2 + inject_Z (-1))).
    - apply Qfloor_comp. field.
    - rewrite Qfloor_shift. lia. }
  rewrite E. lia.
Qed.

(** The ring loop ends within [rings_left] iterations. *)
Lemma ring_loop_total fuel placed cx cy r ring :
  (Ring.rings_left ring <= fuel)%nat ->
  is_Some (Ring.ring_loop fuel placed cx cy r ring).
Proof.
  revert ring. induction fuel as [|fuel IH]; intros ring Hle; simpl.
  - destruct (leb ring 800) eqn:E; [|eauto].
    apply leb_true_le, rings_left_pos in E. lia.
  - destruct (leb ring 800) eqn:E; [|eauto].
    destruct (Ring.angle_loop _ _ _ _ _ _ _ _); [eauto|].
    apply IH. apply leb_true_le, rings_left_step in E. lia.
Qed.

End RingFacts.

(** ** The ring scan: one placement, the whole layout *)

Section RingLayoutFacts.
Context `{M : MathLib}.

Lemma place_mono fuel fuel' cx cy placed b res :
  (fuel <= fuel')%nat ->
  Ring.place fuel cx cy placed b = Some res ->
  Ring.place fuel' cx cy placed b = Some res.
Proof.
  unfold Ring.place. intros Hle.
  destruct (Nat.eqb (length placed) 0); [congruence|].
  destruct (Ring.ring_loop fuel _ _ _ _ _) as [found|] eqn:E; [|discriminate].
  now rewrite (ring_loop_mono _ _ _ _ _ _ _ _ Hle E).
Qed.

Lemma place_total fuel cx cy placed b :
  (Ring.rings_left (b_size b / 2 + 6) <= fuel)%nat ->
  is_Some (Ring.place fuel cx cy placed b).
Proof.
  unfold Ring.place. intros Hle.
  destruct (Nat.eqb (length placed) 0); [eauto|].
  destruct (ring_loop_total fuel placed cx cy (b_size b / 2) _ Hle) as [found ->].
  simpl. destruct (Ring.position_of found placed cx cy). eauto.
Qed.

(** What [place] returns: the input bubble with a position, its
    bounding box derived from its centre, and the disc pushed. *)
Lemma place_shape fuel cx cy placed b p d :
  Ring.place fuel cx cy placed b = Some (p, d) ->
  p_bubble p = b /\ d = disc_of p /\
  p_x p = (p_cx p - b_size b / 2)%Q /\ p_y p = (p_cy p - b_size b / 2)%Q.
Proof.
  unfold Ring.place.
  destruct (Nat.eqb (length placed) 0).
  - intros [= <- <-]. repeat split.
  - destruct (Ring.ring_loop fuel _ _ _ _ _) as [found|]; [|discriminate].
    simpl. destruct (Ring.position_of found placed cx cy).
    intros [= <- <-]. repeat split.
Qed.

Lemma layout_from_mono fuel fuel' cx cy placed bubbles out :
  (fuel <= fuel')%nat ->
  Ring.layout_from fuel cx cy placed bubbles = Some out ->
  Ring.layout_from fuel' cx cy placed bubbles = Some out.
Proof.
  intros Hle. revert placed out.
  induction bubbles as [|b rest IH]; intros placed out; simpl; [congruence|].
  destruct (Ring.place fuel cx cy placed b) as [[p d]|] eqn:E; [|discriminate].
  rewrite (place_mono _ _ _ _ _ _ _ Hle E). simpl.
  destruct (Ring.layout_from fuel cx cy (placed ++ [d]) rest) as [ps|] eqn:E';
    [|discriminate].
  now rewrite (IH _ _ E').
Qed.

Lemma layout_fuel_cons b rest :
  Ring.layout_fuel (b :: rest) =
  Nat.max (Ring.rings_left (b_size b / 2 + 6)) (Ring.layout_fuel rest).
Proof. reflexivity. Qed.

Lemma layout_from_total fuel cx cy placed bubbles :
  (Ring.layout_fuel bubbles <= fuel)%nat ->
  is_Some (Ring.layout_from fuel cx cy placed bubbles).
Proof.
  revert placed. induction bubbles as [|b rest IH]; intros placed Hle.
  - simpl. eauto.
  - rewrite layout_fuel_cons in Hle. simpl.
    destruct (place_total fuel cx cy placed b) as [[p d] ->]; [lia|]. simpl.
    destruct (IH (placed ++ [d])) as [ps ->]; [lia|]. simpl. eauto.
Qed.

(** The layout of a concatenation: the second part is laid out against
    the discs of the first. *)
Lemma layout_from_app fuel cx cy placed l1 l2 :
  Ring.layout_from fuel cx cy placed (l1 ++ l2) =
  out1 ← Ring.layout_from fuel cx cy placed l1;
  out2 ← Ring.layout_from fuel cx cy (placed ++ map disc_of out1) l2;
  Some (out1 ++ out2).
Proof.
  revert placed. induction l1 as [|b l1 IH]; intros placed; simpl.
  - rewrite app_nil_r. now destruct (Ring.layout_from fuel cx cy placed l2).
  - destruct (Ring.place fuel cx cy placed b) as [[p d]|] eqn:E; [|reflexivity].
    simpl. rewrite IH.
    destruct (Ring.layout_from fuel cx cy (placed ++ [d]) l1) as [out1|];
      [|reflexivity].
    simpl. apply place_shape in E as (_ & -> & _).
    rewrite <- app_assoc. simpl.
    now destruct (Ring.layout_from fuel cx cy _ l2).
Qed.

(** The result keeps the input, element by element. *)
Lemma layout_from_bubbles fuel cx cy placed bubbles out :
  Ring.layout_from fuel cx cy placed bubbles = Some out ->
  map p_bubble out = bubbles.
Proof.
  revert placed out.
  induction bubbles as [|b rest IH]; intros placed out; simpl.
  - now intros [= <-].
  - destruct (Ring.place fuel cx cy placed b) as [[p d]|] eqn:E; [|discriminate].
    simpl.
    destruct (Ring.layout_from fuel cx cy (placed ++ [d]) rest) as [ps|] eqn:E';
      [|discriminate].
    intros [= <-]. simpl. apply place_shape in E as (-> & _).
    f_equal. eapply IH, E'.
Qed.

Lemma layoutBubbles_fuel_mono fuel fuel' bubbles W H off out :
  (fuel <= fuel')%nat ->
  Ring.layoutBubbles_fuel fuel bubbles W H off = Some out ->
  Ring.layoutBubbles_fuel fuel' bubbles W H off = Some out.
Proof.
  unfold Ring.layoutBubbles_fuel. intros Hle.
  destruct (Nat.eqb (length bubbles) 0); [congruence|].
  now apply layout_from_mono.
Qed.

(** With the fuel [layoutBubbles] gives it, the engine returns. *)
Lemma layoutBubbles_complete bubbles W H off :
  Ring.layoutBubbles_fuel (Ring.layout_fuel bubbles) bubbles W H off =
  Some (Ring.layoutBubbles bubbles W H off).
Proof.
  unfold Ring.layoutBubbles.
  destruct (Ring.layoutBubbles_fuel _ _ _ _ _) as [out|] eqn:E; [reflexivity|].
  exfalso. revert E. unfold Ring.layoutBubbles_fuel.
  destruct (Nat.eqb (length bubbles) 0); [discriminate|].
  destruct (layout_from_total (Ring.layout_fuel bubbles) (W / 2) (H / 2 + off)
              [] bubbles) as [out ->]; [lia|discriminate].
Qed.

(** Whatever the fuel, a result is the result of [layoutBubbles]. *)
Lemma layoutBubbles_sound fuel bubbles W H off out :
  Ring.layoutBubbles_fuel fuel bubbles W H off = Some out ->
  out = Ring.layoutBubbles bubbles W H off.
Proof.
  intros E. pose proof (layoutBubbles_complete bubbles W H off) as C.
  apply (layoutBubbles_fuel_mono _ (Nat.max fuel (Ring.layout_fuel bubbles))) in E;
    [|lia].
  apply (layoutBubbles_fuel_mono _ (Nat.max fuel (Ring.layout_fuel bubbles))) in C;
    [|lia].
  congruence.
Qed.

Lemma layoutBubbles_from bubbles W H off :
  Ring.layout_from (Ring.layout_fuel bubbles) (W / 2) (H / 2 + off) [] bubbles =
  Some (Ring.layoutBubbles bubbles W H off).
Proof.
  rewrite <- layoutBubbles_complete. unfold Ring.layoutBubbles_fuel.
  destruct bubbles; reflexivity.
Qed.

Lemma layoutBubbles_bubbles bubbles W H off :
  map p_bubble (Ring.layoutBubbles bubbles W H off) = bubbles.
Proof. eapply layout_from_bubbles, layoutBubbles_from. Qed.

End RingLayoutFacts.

(** ** The ring scan: each placement against the ones before it *)

Section RingPlacementFacts.
Context `{M : MathLib}.

(** The element at index [j] is placed against the discs of the
    elements before it. *)
Lemma layout_from_lookup fuel cx cy placed bubbles out j b :
  Ring.layout_from fuel cx cy placed bubbles = Some out ->
  bubbles !! j = Some b ->
  exists p d,
    out !! j = Some p /\
    Ring.place fuel cx cy (placed ++ map disc_of (take j out)) b = Some (p, d).
Proof.
  revert placed out j.
  induction bubbles as [|b0 rest IH]; intros placed out j; simpl; [discriminate|].
  destruct (Ring.place fuel cx cy placed b0) as [[p0 d0]|] eqn:E; [|discriminate].
  simpl.
  destruct (Ring.layout_from fuel cx cy (placed ++ [d0]) rest) as [ps|] eqn:E';
    [|discriminate].
  intros [= <-]. destruct j as [|j]; simpl.
  - intros [= <-]. exists p0, d0. now rewrite app_nil_r.
  - intros Hb. destruct (IH _ _ _ E' Hb) as (p & d & Hp & Hplace).
    exists p, d. split; [exact Hp|].
    apply place_shape in E as (_ & -> & _).
    now rewrite <- app_assoc in Hplace.
Qed.

Lemma search_agrees fuel cx cy placed b found :
  Ring.ring_loop fuel placed cx cy (b_size b / 2) (b_size b / 2 + 6) = Some found ->
  Ring.search cx cy placed b = found.
Proof.
  intros E. unfold Ring.search.
  destruct (ring_loop_total (Ring.rings_left (b_size b / 2 + 6)) placed cx cy
              (b_size b / 2) (b_size b / 2 + 6)) as [found' E']; [lia|].
  rewrite E'. simpl.
  apply (ring_loop_mono _ (Nat.max fuel (Ring.rings_left (b_size b / 2 + 6)))) in E;
    [|lia].
  apply (ring_loop_mono _ (Nat.max fuel (Ring.rings_left (b_size b / 2 + 6)))) in E';
    [|lia].
  congruence.
Qed.

(** A placement after the first is where the search ended, or at the
    fallback position. *)
Lemma place_position fuel cx cy placed b p d :
  placed <> [] ->
  Ring.place fuel cx cy placed b = Some (p, d) ->
  (p_cx p, p_cy p) =
  Ring.position_of (Ring.search cx cy placed b) placed cx cy.
Proof.
  unfold Ring.place. intros Hne.
  destruct placed as [|q placed]; [congruence|]. simpl length. simpl Nat.eqb.
  destruct (Ring.ring_loop fuel _ _ _ _ _) as [found|] eqn:E; [|discriminate].
  simpl. rewrite (search_agrees _ _ _ _ _ _ E).
  destruct (Ring.position_of found (q :: placed) cx cy).
  now intros [= <- <-].
Qed.

Lemma search_clear cx cy placed b pos :
  Ring.search cx cy placed b = Some pos ->
  Ring.overlaps placed (fst pos) (snd pos) (b_size b / 2) = false.
Proof.
  unfold Ring.search.
  destruct (Ring.ring_loop _ _ _ _ _ _) as [found|] eqn:E; simpl; [|discriminate].
  intros ->. eapply ring_loop_found, E.
Qed.

Lemma layoutBubbles_lookup bubbles W H off j b :
  bubbles !! j = Some b ->
  exists p d,
    Ring.layoutBubbles bubbles W H off !! j = Some p /\
    Ring.place (Ring.layout_fuel bubbles) (W / 2) (H / 2 + off)
      (map disc_of (take j (Ring.layoutBubbles bubbles W H off))) b = Some (p, d).
Proof.
  intros Hb.
  apply (layout_from_lookup _ _ _ [] _ _ _ _
           (layoutBubbles_from bubbles W H off) Hb).
Qed.

Lemma layoutBubbles_length bubbles W H off :
  length (Ring.layoutBubbles bubbles W H off) = length bubbles.
Proof.
  rewrite <- (layoutBubbles_bubbles bubbles W H off) at 2.
  now rewrite length_map.
Qed.

Lemma budget_suffices_at bubbles W H off j b :
  Ring.budget_suffices bubbles W H off = true ->
  (0 < j)%nat -> bubbles !! j = Some b ->
  is_Some (Ring.search (W / 2) (H / 2 + off)
             (map disc_of (take j (Ring.layoutBubbles bubbles W H off))) b).
Proof.
  unfold Ring.budget_suffices. intros Hall Hj Hb.
  rewrite forallb_forall in Hall. specialize (Hall j).
  rewrite Hb in Hall. eapply bool_decide_eq_true_1, Hall.
  apply in_seq. apply lookup_lt_Some in Hb. lia.
Qed.

(** The clearance of two placements, the later one found by the search. *)
Lemma ring_clearance bubbles W H off i j pi pj b :
  (i < j)%nat ->
  bubbles !! j = Some b ->
  is_Some (Ring.search (W / 2) (H / 2 + off)
             (map disc_of (take j (Ring.layoutBubbles bubbles W H off))) b) ->
  Ring.layoutBubbles bubbles W H off !! i = Some pi ->
  Ring.layoutBubbles bubbles W H off !! j = Some pj ->
  (radius pj + radius pi + 6 <= distance pj pi)%Q.
Proof.
  intros Hij Hb [pos Hpos] Hi Hj.
  destruct (layoutBubbles_lookup bubbles W H off j b Hb) as (p & d & Hp & Hplace).
  assert (p = pj) by congruence. subst p.
  set (out := Ring.layoutBubbles bubbles W H off) in *.
  assert (Hin : In (disc_of pi) (map disc_of (take j out))).
  { apply in_map, list_elem_of_In, list_elem_of_lookup. exists i.
    rewrite lookup_take_lt; [exact Hi|lia]. }
  assert (Hne : map disc_of (take j out) <> []).
  { intros E. rewrite E in Hin. destruct Hin. }
  pose proof (place_position _ _ _ _ _ _ _ Hne Hplace) as Hxy.
  rewrite Hpos in Hxy. simpl in Hxy.
  apply search_clear in Hpos. rewrite <- Hxy in Hpos. simpl in Hpos.
  pose proof (ring_overlaps_false _ _ _ _ Hpos _ Hin) as Hclear.
  apply place_shape in Hplace as (Hpb & _).
  unfold radius, distance. rewrite Hpb. exact Hclear.
Qed.

End RingPlacementFacts.

(** ** The spiral: search, placements *)

Section SpiralFacts.
Context `{M : MathLib}.

Lemma spiral_overlaps_false placed px py r :
  Spiral.overlaps placed px py r = false ->
  forall p, In p placed ->
    (r + b_size (p_bubble p) / 2 + 4 <=
     Math_sqrt ((px - p_cx p) * (px - p_cx p) + (py - p_cy p) * (py - p_cy p)))%Q.
Proof.
  unfold Spiral.overlaps. induction placed as [|q placed IH]; simpl; [tauto|].
  intros E p [<-|Hp]; apply orb_false_iff in E as [E1 E2].
  - now apply ltb_false_le.
  - now apply IH.
Qed.

Lemma step_loop_found placed cx cy b i n step pos :
  Spiral.step_loop placed cx cy b i n step = Some pos ->
  Spiral.overlaps placed (fst pos) (snd pos) (b_size b / 2) = false.
Proof.
  revert step. induction n as [|n IH]; intros step; simpl; [discriminate|].
  match goal with |- context [if ?c then _ else _] => destruct c eqn:E end.
  - apply IH.
  - intros [= <-]. exact E.
Qed.

Lemma spiral_place_bubble cx cy placed b i :
  p_bubble (Spiral.place cx cy placed b i) = b.
Proof.
  unfold Spiral.place. destruct (Z.eqb i 0); [reflexivity|].
  destruct (Spiral.step_loop placed cx cy b i 300 1) as [[px py]|];
    [reflexivity|].
  now destruct (Spiral.fallback cx cy b i).
Qed.

(** [forEach] only pushes: the array it starts from is kept, and one
    element is added for each bubble. *)
Lemma spiral_layout_from_grows cx cy placed bubbles i :
  exists added,
    Spiral.layout_from cx cy placed bubbles i = placed ++ added /\
    map p_bubble added = bubbles.
Proof.
  revert placed i. induction bubbles as [|b rest IH]; intros placed i; simpl.
  - exists []. now rewrite app_nil_r.
  - destruct (IH (placed ++ [Spiral.place cx cy placed b i]) (i + 1)%Z)
      as (added & -> & Hadded).
    exists (Spiral.place cx cy placed b i :: added). split.
    + now rewrite <- app_assoc.
    + simpl. now rewrite spiral_place_bubble, Hadded.
Qed.

(** The element pushed for the bubble at offset [j] is placed against
    everything pushed before it. *)
Lemma spiral_layout_from_lookup cx cy placed bubbles i j b :
  bubbles !! j = Some b ->
  let out := Spiral.layout_from cx cy placed bubbles i in
  out !! (length placed + j)%nat =
  Some (Spiral.place cx cy (take (length placed + j) out) b (i + Z.of_nat j)).
Proof.
  revert placed i j. induction bubbles as [|b0 rest IH]; intros placed i j;
    [discriminate|].
  destruct j as [|j]; simpl.
  - intros [= <-].
    destruct (spiral_layout_from_grows cx cy
                (placed ++ [Spiral.place cx cy placed b0 i]) rest (i + 1)%Z)
      as (added & -> & _).
    rewrite <- app_assoc, Nat.add_0_r, Z.add_0_r.
    rewrite lookup_app_r, Nat.sub_diag by lia. simpl.
    now rewrite take_app_length.
  - intros Hb. specialize (IH (placed ++ [Spiral.place cx cy placed b0 i])
                             (i + 1)%Z j Hb).
    simpl in IH. rewrite length_app in IH. simpl in IH.
    replace (length placed + 1 + j)%nat with (length placed + S j)%nat in IH by lia.
    replace (i + 1 + Z.of_nat j)%Z with (i + Z.pos (Pos.of_succ_nat j))%Z in IH
      by lia.
    exact IH.
Qed.

Lemma spiral_layoutBubbles_lookup bubbles W H j b :
  bubbles !! j = Some b ->
  Spiral.layoutBubbles bubbles W H !! j =
  Some (Spiral.place (W / 2) (H / 2 - 20)
          (take j (Spiral.layoutBubbles bubbles W H)) b (Z.of_nat j)).
Proof.
  intros Hb. unfold Spiral.layoutBubbles.
  destruct bubbles as [|b0 rest]; [discriminate|].
  change (Nat.eqb (length (b0 :: rest)) 0) with false. cbv iota.
  apply (spiral_layout_from_lookup (W / 2) (H / 2 - 20) [] (b0 :: rest) 0 j b Hb).
Qed.

Lemma spiral_layoutBubbles_bubbles bubbles W H :
  map p_bubble (Spiral.layoutBubbles bubbles W H) = bubbles.
Proof.
  unfold Spiral.layoutBubbles. destruct bubbles as [|b0 rest]; [reflexivity|].
  change (Nat.eqb (length (b0 :: rest)) 0) with false. cbv iota.
  destruct (spiral_layout_from_grows (W / 2) (H / 2 - 20) [] (b0 :: rest) 0)
    as (added & -> & Hadded).
  exact Hadded.
Qed.

Lemma spiral_budget_suffices_at bubbles W H j b :
  Spiral.budget_suffices bubbles W H = true ->
  (0 < j)%nat -> bubbles !! j = Some b ->
  is_Some (Spiral.step_loop (take j (Spiral.layoutBubbles bubbles W H))
             (W / 2) (H / 2 - 20) b (Z.of_nat j) 300 1).
Proof.
  unfold Spiral.budget_suffices. intros Hall Hj Hb.
  rewrite forallb_forall in Hall. specialize (Hall j).
  rewrite Hb in Hall. eapply bool_decide_eq_true_1, Hall.
  apply in_seq. apply lookup_lt_Some in Hb. lia.
Qed.

(** The clearance of two placements, the later one found by the search. *)
Lemma spiral_clearance bubbles W H i j pi pj b :
  (i < j)%nat ->
  bubbles !! j = Some b ->
  is_Some (Spiral.step_loop (take j (Spiral.layoutBubbles bubbles W H))
             (W / 2) (H / 2 - 20) b (Z.of_nat j) 300 1) ->
  Spiral.layoutBubbles bubbles W H !! i = Some pi ->
  Spiral.layoutBubbles bubbles W H !! j = Some pj ->
  (radius pj + radius pi + 4 <= distance pj pi)%Q.
Proof.
  intros Hij Hb [[px py] Hpos] Hi Hj.
  rewrite (spiral_layoutBubbles_lookup bubbles W H j b Hb) in Hj.
  set (out := Spiral.layoutBubbles bubbles W H) in *.
  assert (Hin : In pi (take j out)).
  { apply list_elem_of_In, list_elem_of_lookup. exists i.
    rewrite lookup_take_lt; [exact Hi|lia]. }
  unfold Spiral.place in Hj. rewrite Hpos in Hj.
  destruct (Z.eqb_spec (Z.of_nat j) 0) as [E|_]; [lia|].
  injection Hj as <-.
  apply step_loop_found in Hpos. simpl in Hpos.
  exact (spiral_overlaps_false _ _ _ _ Hpos _ Hin).
Qed.

End SpiralFacts.

(** ** The renderer: queries, removal *)

Section QueryFacts.
Import Render.

Lemma querySelector_None id l :
  querySelector id l = None <-> ~ In id (map a_id l).
Proof.
  induction l as [|node rest IH]; simpl; [tauto|].
  destruct (String.eqb_spec (a_id node) id) as [E|E].
  - split; [discriminate|]. intros H. destruct H. now left.
  - rewrite IH. tauto.
Qed.

Lemma querySelector_Some id l :
  is_Some (querySelector id l) <-> In id (map a_id l).
Proof.
  destruct (querySelector id l) eqn:E.
  - split; [|eauto]. intros _.
    destruct (in_dec String.string_dec id (map a_id l)) as [H|H]; [exact H|].
    apply querySelector_None in H. congruence.
  - split; [intros [? [=]]|]. intros H. now apply querySelector_None in E.
Qed.

Lemma update_first_ids id f l :
  (forall n, a_id (f n) = a_id n) ->
  map a_id (update_first id f l) = map a_id l.
Proof.
  intros Hf. induction l as [|node rest IH]; simpl; [reflexivity|].
  destruct (String.eqb (a_id node) id); simpl; [now rewrite Hf|now rewrite IH].
Qed.

(** The removal loop keeps the anchors whose id is current, in document
    order. *)
Lemma remove_stale_nodes cur all s :
  nodes (remove_stale cur all s) =
  filter (fun n => a_id n ∈ cur) all ++ nodes s.
Proof.
  revert s. induction all as [|node rest IH]; intros s; simpl; [reflexivity|].
  rewrite filter_cons. destruct (decide (a_id node ∈ cur)) as [E|E].
  - rewrite bool_decide_eq_true_2 by exact E. simpl. now rewrite IH.
  - rewrite bool_decide_eq_false_2 by exact E. now rewrite IH.
Qed.

Lemma remove_stale_known cur all s :
  known (remove_stale cur all s) =
  known s ∖ list_to_set (map a_id (filter (fun n => a_id n ∉ cur) all)).
Proof.
  revert s. induction all as [|node rest IH]; intros s; simpl.
  - set_solver.
  - rewrite filter_cons. destruct (decide (a_id node ∈ cur)) as [E|E].
    + rewrite bool_decide_eq_true_2 by exact E. simpl.
      rewrite decide_False by tauto. apply IH.
    + rewrite bool_decide_eq_false_2 by exact E.
      rewrite decide_True by exact E. rewrite IH. simpl. set_solver.
Qed.

Lemma remove_stale_ops cur all s :
  ops (remove_stale cur all s) =
  ops s ++ map Removed (map a_id (filter (fun n => a_id n ∉ cur) all)).
Proof.
  revert s. induction all as [|node rest IH]; intros s; simpl.
  - now rewrite app_nil_r.
  - rewrite filter_cons. destruct (decide (a_id node ∈ cur)) as [E|E].
    + rewrite bool_decide_eq_true_2 by exact E. simpl.
      rewrite decide_False by tauto. apply IH.
    + rewrite bool_decide_eq_false_2 by exact E.
      rewrite decide_True by exact E. rewrite IH. simpl.
      now rewrite <- app_assoc.
Qed.

End QueryFacts.

(** ** The renderer: the placement loop *)

Section ReconcileFacts.
Import Render.
Variable reposition : Placed -> Anchor -> Anchor.
Variable create : Placed -> Anchor.
Hypothesis reposition_id : forall b n, a_id (reposition b n) = a_id n.
Hypothesis create_id : forall b, a_id (create b) = b_id (p_bubble b).

Lemma render_step_found s b :
  In (b_id (p_bubble b)) (map a_id (nodes s)) ->
  map a_id (nodes (render_step reposition create s b)) = map a_id (nodes s) /\
  known (render_step reposition create s b) = known s /\
  ops (render_step reposition create s b) =
    ops s ++ [Updated (b_id (p_bubble b))].
Proof.
  intros Hin. apply querySelector_Some in Hin as [n Hn].
  unfold render_step. rewrite Hn. simpl.
  split; [|split; reflexivity]. apply update_first_ids, reposition_id.
Qed.

Lemma render_step_new s b :
  ~ In (b_id (p_bubble b)) (map a_id (nodes s)) ->
  map a_id (nodes (render_step reposition create s b)) =
    map a_id (nodes s) ++ [b_id (p_bubble b)] /\
  known (render_step reposition create s b) = {[b_id (p_bubble b)]} ∪ known s /\
  ops (render_step reposition create s b) =
    ops s ++ [Created (b_id (p_bubble b))].
Proof.
  intros Hin. apply querySelector_None in Hin.
  unfold render_step. rewrite Hin. simpl.
  split; [|split; reflexivity]. rewrite map_app. simpl. now rewrite create_id.
Qed.

(** When every id already has an anchor, the loop only updates. *)
Lemma render_all_found laid s :
  (forall id, In id (laid_ids laid) -> In id (map a_id (nodes s))) ->
  map a_id (nodes (foldl (render_step reposition create) s laid)) =
    map a_id (nodes s) /\
  known (foldl (render_step reposition create) s laid) = known s /\
  ops (foldl (render_step reposition create) s laid) =
    ops s ++ map Updated (laid_ids laid).
Proof.
  revert s. induction laid as [|b rest IH]; intros s Hall; simpl.
  - now rewrite app_nil_r.
  - destruct (render_step_found s b) as (Hn & Hk & Ho).
    { apply Hall. now left. }
    destruct (IH (render_step reposition create s b)) as (Hn' & Hk' & Ho').
    { intros id Hid. rewrite Hn. apply Hall. now right. }
    rewrite Hn', Hk', Ho', Hn, Hk, Ho, <- app_assoc. auto.
Qed.

(** The anchors after the loop: those before it and one for each id. *)
Lemma render_ids laid s id :
  In id (map a_id (nodes (foldl (render_step reposition create) s laid))) <->
  In id (map a_id (nodes s)) \/ In id (laid_ids laid).
Proof.
  revert s. induction laid as [|b rest IH]; intros s; simpl; [tauto|].
  rewrite IH.
  destruct (in_dec String.string_dec (b_id (p_bubble b)) (map a_id (nodes s)))
    as [Hin|Hin].
  - destruct (render_step_found s b Hin) as (-> & _).
    split; [tauto|]. intros [H|[<-|H]]; tauto.
  - destruct (render_step_new s b Hin) as (-> & _).
    rewrite in_app_iff. simpl. tauto.
Qed.

(** The loop keeps the known-set equal to the set of anchor ids. *)
Lemma render_synced laid s :
  known s = list_to_set (map a_id (nodes s)) ->
  known (foldl (render_step reposition create) s laid) =
  list_to_set (map a_id (nodes (foldl (render_step reposition create) s laid))).
Proof.
  revert s. induction laid as [|b rest IH]; intros s Hs; simpl; [exact Hs|].
  apply IH.
  destruct (in_dec String.string_dec (b_id (p_bubble b)) (map a_id (nodes s)))
    as [Hin|Hin].
  - destruct (render_step_found s b Hin) as (-> & -> & _). exact Hs.
  - destruct (render_step_new s b Hin) as (-> & -> & _).
    rewrite Hs, list_to_set_app_L. simpl. set_solver.
Qed.

(** The loop keeps the anchor ids pairwise distinct. *)
Lemma render_NoDup laid s :
  NoDup (map a_id (nodes s)) ->
  NoDup (map a_id (nodes (foldl (render_step reposition create) s laid))).
Proof.
  revert s. induction laid as [|b rest IH]; intros s Hs; simpl; [exact Hs|].
  apply IH.
  destruct (in_dec String.string_dec (b_id (p_bubble b)) (map a_id (nodes s)))
    as [Hin|Hin].
  - destruct (render_step_found s b Hin) as (-> & _). exact Hs.
  - destruct (render_step_new s b Hin) as (-> & _).
    apply NoDup_app. split; [exact Hs|]. split; [|apply NoDup_singleton].
    intros x Hx Hx'. apply list_elem_of_In in Hx. apply list_elem_of_In in Hx'.
    destruct Hx' as [<-|[]]. tauto.
Qed.

(** The loop removes nothing, and adds to the known-set only ids it
    lays out. *)
Lemma render_removed laid s :
  removed_ids (ops (foldl (render_step reposition create) s laid)) =
  removed_ids (ops s).
Proof.
  revert s. induction laid as [|b rest IH]; intros s; simpl; [reflexivity|].
  rewrite IH. unfold render_step.
  destruct (querySelector _ _); simpl; unfold removed_ids;
    rewrite omap_app; simpl; now rewrite app_nil_r.
Qed.

Lemma render_known laid s id :
  id ∈ known (foldl (render_step reposition create) s laid) ->
  id ∈ known s \/ In id (laid_ids laid).
Proof.
  revert s. induction laid as [|b rest IH]; intros s; simpl; [tauto|].
  intros H. apply IH in H as [H|H]; [|tauto].
  unfold render_step in H. destruct (querySelector _ _); simpl in H; [tauto|].
  apply elem_of_union in H as [H|H]; [|tauto].
  apply elem_of_singleton in H. subst. tauto.
Qed.

End ReconcileFacts.

(** ** The renderer: one whole pass over a container *)

Section PassFacts.
Import Render.
Variable reposition : Placed -> Anchor -> Anchor.
Variable create : Placed -> Anchor.
Hypothesis reposition_id : forall b n, a_id (reposition b n) = a_id n.
Hypothesis create_id : forall b, a_id (create b) = b_id (p_bubble b).

Lemma removed_ids_Removed l : removed_ids (map Removed l) = l.
Proof.
  induction l as [|x l IH]; simpl; [reflexivity|]. now rewrite <- IH at 2.
Qed.

Lemma kept_ids (cur : gset string) (all : list Anchor) id :
  In id (map a_id (filter (fun n => a_id n ∈ cur) all)) <->
  In id (map a_id all) /\ id ∈ cur.
Proof.
  rewrite !in_map_iff. split.
  - intros (n & <- & Hn). apply list_elem_of_In, list_elem_of_filter in Hn as [Hc Hn].
    split; [|exact Hc]. exists n. split; [reflexivity|]. now apply list_elem_of_In.
  - intros [(n & <- & Hn) Hc]. exists n. split; [reflexivity|].
    apply list_elem_of_In, list_elem_of_filter. split; [exact Hc|].
    now apply list_elem_of_In.
Qed.

Lemma stale_ids (cur : gset string) (all : list Anchor) id :
  In id (map a_id (filter (fun n => a_id n ∉ cur) all)) <->
  In id (map a_id all) /\ id ∉ cur.
Proof.
  rewrite !in_map_iff. split.
  - intros (n & <- & Hn). apply list_elem_of_In, list_elem_of_filter in Hn as [Hc Hn].
    split; [|exact Hc]. exists n. split; [reflexivity|]. now apply list_elem_of_In.
  - intros [(n & <- & Hn) Hc]. exists n. split; [reflexivity|].
    apply list_elem_of_In, list_elem_of_filter. split; [exact Hc|].
    now apply list_elem_of_In.
Qed.

Lemma filter_ids_NoDup (P : Anchor -> Prop) `{!forall n, Decision (P n)}
    (all : list Anchor) :
  NoDup (map a_id all) -> NoDup (map a_id (filter P all)).
Proof.
  induction all as [|n rest IH]; simpl; [intros; constructor|].
  intros Hnd. apply NoDup_cons in Hnd as [Hn Hrest].
  rewrite filter_cons. destruct (decide (P n)); simpl; [|now apply IH].
  apply NoDup_cons. split; [|now apply IH].
  intros Hin. apply Hn. apply list_elem_of_In in Hin. apply list_elem_of_In.
  apply in_map_iff in Hin as (m & Hm & Hin). apply in_map_iff. exists m.
  split; [exact Hm|].
  apply list_elem_of_In, list_elem_of_filter in Hin as [_ Hin].
  now apply list_elem_of_In.
Qed.

Lemma filter_all (P : Anchor -> Prop) `{!forall n, Decision (P n)}
    (l : list Anchor) :
  (forall n, In n l -> P n) -> filter P l = l.
Proof.
  induction l as [|n rest IH]; intros Hall; [reflexivity|].
  rewrite filter_cons_True by (apply Hall; now left).
  f_equal. apply IH. intros m Hm. apply Hall. now right.
Qed.

Lemma filter_none (P : Anchor -> Prop) `{!forall n, Decision (P n)}
    (l : list Anchor) :
  (forall n, In n l -> ~ P n) -> filter P l = [].
Proof.
  induction l as [|n rest IH]; intros Hall; [reflexivity|].
  rewrite filter_cons_False by (apply Hall; now left).
  apply IH. intros m Hm. apply Hall. now right.
Qed.

(** After a pass the anchors are exactly those of the current ids. *)
Lemma pass_anchor_ids laid all known0 id :
  let cur : gset string := list_to_set (laid_ids laid) in
  In id (map a_id (nodes (reconcile reposition create cur laid all known0))) <->
  In id (laid_ids laid).
Proof.
  intros cur. unfold reconcile.
  rewrite (render_ids _ _ reposition_id create_id), remove_stale_nodes.
  simpl. rewrite app_nil_r, kept_ids. split; [|tauto].
  intros [[_ H]|H]; [|exact H].
  now apply elem_of_list_to_set, list_elem_of_In in H.
Qed.

(** A pass keeps the known-set equal to the set of anchor ids. *)
Lemma pass_synced cur laid all known0 :
  known0 = list_to_set (map a_id all) ->
  let s := reconcile reposition create cur laid all known0 in
  known s = list_to_set (map a_id (nodes s)).
Proof.
  intros Hs. unfold reconcile.
  apply (render_synced _ _ reposition_id create_id).
  rewrite remove_stale_known, remove_stale_nodes. simpl. rewrite app_nil_r, Hs.
  apply set_eq. intros id.
  rewrite elem_of_difference, !elem_of_list_to_set, !list_elem_of_In.
  rewrite kept_ids, stale_ids.
  destruct (decide (id ∈ cur)); tauto.
Qed.

Lemma pass_NoDup cur laid all known0 :
  NoDup (map a_id all) ->
  NoDup (map a_id (nodes (reconcile reposition create cur laid all known0))).
Proof.
  intros Hnd. unfold reconcile.
  apply (render_NoDup _ _ reposition_id create_id).
  rewrite remove_stale_nodes. simpl. rewrite app_nil_r.
  now apply filter_ids_NoDup.
Qed.

(** What a pass removes: the anchors whose id is not current. *)
Lemma pass_removed cur laid all known0 :
  removed_ids (ops (reconcile reposition create cur laid all known0)) =
  map a_id (filter (fun n => a_id n ∉ cur) all).
Proof.
  unfold reconcile. rewrite render_removed, remove_stale_ops. simpl.
  apply removed_ids_Removed.
Qed.

(** A second pass with the same placements finds every anchor. *)
Lemma pass_again laid all known0 :
  let cur : gset string := list_to_set (laid_ids laid) in
  let s1 := reconcile reposition create cur laid all known0 in
  let s2 := reconcile reposition create cur laid (nodes s1) (known s1) in
  ops s2 = map Updated (laid_ids laid) /\
  map a_id (nodes s2) = map a_id (nodes s1) /\
  known s2 = known s1.
Proof.
  intros cur s1 s2.
  assert (Hkeep : filter (fun n => a_id n ∈ cur) (nodes s1) = nodes s1).
  { apply filter_all. intros n Hn.
    apply elem_of_list_to_set, list_elem_of_In.
    apply (pass_anchor_ids laid all known0). apply in_map. exact Hn. }
  assert (Hnone : filter (fun n => a_id n ∉ cur) (nodes s1) = []).
  { apply filter_none. intros n Hn Hc. apply Hc.
    apply elem_of_list_to_set, list_elem_of_In.
    apply (pass_anchor_ids laid all known0). apply in_map. exact Hn. }
  set (r := remove_stale cur (nodes s1) (mkPass [] (known s1) [])).
  assert (Hr : nodes r = nodes s1 /\ known r = known s1 /\ ops r = []).
  { unfold r. rewrite remove_stale_nodes, remove_stale_known, remove_stale_ops.
    rewrite Hkeep, Hnone. simpl. rewrite app_nil_r. split; [reflexivity|].
    split; [set_solver|reflexivity]. }
  destruct Hr as (Hrn & Hrk & Hro).
  destruct (render_all_found _ create reposition_id laid r) as (Hn & Hk & Ho).
  { intros id Hid. rewrite Hrn. now apply (pass_anchor_ids laid all known0). }
  unfold s2, reconcile. fold r. rewrite Hn, Hk, Ho, Hrn, Hrk, Hro. auto.
Qed.

(** An id the pass does not lay out is not known after it, once its
    anchors were there to be removed. *)
Lemma pass_forgets (cur : gset string) laid all known0 id :
  In id (map a_id all) -> id ∉ cur -> ~ In id (laid_ids laid) ->
  id ∉ known (reconcile reposition create cur laid all known0).
Proof.
  intros Hin Hcur Hlaid Hk. unfold reconcile in Hk.
  apply (render_known reposition create) in Hk as [Hk|Hk]; [|tauto].
  rewrite remove_stale_known in Hk. simpl in Hk.
  apply elem_of_difference in Hk as [_ Hk]. apply Hk.
  apply elem_of_list_to_set, list_elem_of_In, stale_ids. tauto.
Qed.

End PassFacts.

(** ** The renderer: a pass settles the anchors *)

Section SettleFacts.
Import Render.
Variable reposition : Placed -> Anchor -> Anchor.
Variable create : Placed -> Anchor.
Hypothesis reposition_id : forall b n, a_id (reposition b n) = a_id n.
Hypothesis create_id : forall b, a_id (create b) = b_id (p_bubble b).
(** A write overwrites what an earlier write wrote, and leaves a fresh
    anchor of the same placement as it is. *)
Hypothesis reposition_absorbs :
  forall b b' n, reposition b (reposition b' n) = reposition b n.
Hypothesis reposition_create : forall b, reposition b (create b) = create b.

Lemma reposition_all_id laid n : a_id (reposition_all reposition laid n) = a_id n.
Proof.
  revert n. induction laid as [|b rest IH]; intros n; simpl; [reflexivity|].
  rewrite IH. destruct (String.eqb _ _); [apply reposition_id|reflexivity].
Qed.

Lemma reposition_all_snoc laid b n :
  reposition_all reposition (laid ++ [b]) n =
  if String.eqb (b_id (p_bubble b)) (a_id n)
  then reposition b (reposition_all reposition laid n)
  else reposition_all reposition laid n.
Proof.
  unfold reposition_all. rewrite foldl_snoc.
  fold (reposition_all reposition laid n). now rewrite reposition_all_id.
Qed.

Lemma reposition_after_all b laid n :
  reposition b (reposition_all reposition laid n) = reposition b n.
Proof.
  revert n. induction laid as [|b' rest IH]; intros n; simpl; [reflexivity|].
  rewrite IH. destruct (String.eqb _ _); [apply reposition_absorbs|reflexivity].
Qed.

(** With distinct ids, writing through the first anchor of an id is
    writing to every anchor of that id. *)
Lemma update_first_map id f (l : list Anchor) :
  NoDup (map a_id l) ->
  update_first id f l =
  map (fun n => if String.eqb id (a_id n) then f n else n) l.
Proof.
  induction l as [|n rest IH]; simpl; [reflexivity|].
  intros Hnd. apply NoDup_cons in Hnd as [Hn Hrest].
  rewrite (String.eqb_sym id). destruct (String.eqb_spec (a_id n) id) as [E|E].
  - f_equal. symmetry. etransitivity; [|apply map_id].
    apply map_ext_in. intros m Hm.
    destruct (String.eqb_spec id (a_id m)) as [E'|_]; [|reflexivity].
    exfalso. apply Hn. rewrite E, E'. apply list_elem_of_In. now apply in_map.
  - f_equal. now apply IH.
Qed.

(** A loop that finds every id writes [reposition_all] to each anchor. *)
Lemma render_all_found_nodes laid s :
  NoDup (map a_id (nodes s)) ->
  (forall id, In id (laid_ids laid) -> In id (map a_id (nodes s))) ->
  nodes (foldl (render_step reposition create) s laid) =
  map (reposition_all reposition laid) (nodes s).
Proof.
  revert s. induction laid as [|b rest IH]; intros s Hnd Hall; simpl.
  - now rewrite map_id.
  - assert (Hin : In (b_id (p_bubble b)) (map a_id (nodes s)))
      by (apply Hall; now left).
    destruct (render_step_found reposition create reposition_id s b Hin)
      as (Hn & _ & _).
    rewrite IH.
    + apply querySelector_Some in Hin as [n Hq].
      unfold render_step. rewrite Hq. simpl.
      rewrite (update_first_map _ _ _ Hnd), map_map. reflexivity.
    + now rewrite Hn.
    + intros id Hid. rewrite Hn. apply Hall. now right.
Qed.

(** The loop leaves every anchor as a second writing of the placements
    gone over would leave it. *)
Lemma render_settles done s :
  NoDup (map a_id (nodes s)) ->
  forall n, In n (nodes (foldl (render_step reposition create) s done)) ->
    reposition_all reposition done n = n.
Proof.
  induction done as [|b done IH] using rev_ind; intros Hnd n; [reflexivity|].
  rewrite foldl_snoc.
  set (s' := foldl (render_step reposition create) s done) in *.
  assert (Hnd' : NoDup (map a_id (nodes s')))
    by now apply (render_NoDup reposition create reposition_id create_id).
  unfold render_step.
  destruct (querySelector (b_id (p_bubble b)) (nodes s')) as [m|] eqn:Hq; simpl.
  - rewrite (update_first_map _ _ _ Hnd'). intros Hn.
    apply in_map_iff in Hn as (n0 & <- & Hn0).
    pose proof (IH Hnd n0 Hn0) as Hfix. rewrite reposition_all_snoc.
    destruct (String.eqb_spec (b_id (p_bubble b)) (a_id n0)) as [E|E].
    + rewrite reposition_id, E, String.eqb_refl.
      now rewrite reposition_after_all, reposition_absorbs.
    + apply String.eqb_neq in E. now rewrite E.
  - intros Hn. apply in_app_iff in Hn as [Hn|[<-|[]]].
    + rewrite reposition_all_snoc, (IH Hnd n Hn).
      destruct (String.eqb_spec (b_id (p_bubble b)) (a_id n)) as [E|_];
        [|reflexivity].
      exfalso. apply querySelector_None in Hq. apply Hq. rewrite E.
      now apply in_map.
    + rewrite reposition_all_snoc, create_id, String.eqb_refl.
      now rewrite reposition_after_all, reposition_create.
Qed.

(** A second pass with the same placements leaves the anchors as the
    first left them, when their ids were distinct. *)
Lemma pass_again_nodes laid all known0 :
  NoDup (map a_id all) ->
  let cur : gset string := list_to_set (laid_ids laid) in
  let s1 := reconcile reposition create cur laid all known0 in
  nodes (reconcile reposition create cur laid (nodes s1) (known s1)) = nodes s1.
Proof.
  intros Hnd cur s1.
  assert (Hin1 : forall id, In id (map a_id (nodes s1)) <-> In id (laid_ids laid))
    by (intros id; apply (pass_anchor_ids _ _ reposition_id create_id)).
  assert (Hnd1 : NoDup (map a_id (nodes s1)))
    by now apply (pass_NoDup _ _ reposition_id create_id).
  assert (Hkeep : filter (fun n => a_id n ∈ cur) (nodes s1) = nodes s1).
  { apply filter_all. intros n Hn.
    apply elem_of_list_to_set, list_elem_of_In, Hin1. now apply in_map. }
  unfold reconcile at 1.
  rewrite render_all_found_nodes; rewrite remove_stale_nodes, Hkeep; simpl;
    rewrite app_nil_r.
  - etransitivity; [|apply map_id]. apply map_ext_in. intros n Hn.
    unfold s1, reconcile in Hn.
    apply (render_settles laid) in Hn; [exact Hn|].
    rewrite remove_stale_nodes. simpl. rewrite app_nil_r.
    now apply filter_ids_NoDup.
  - exact Hnd1.
  - intros id Hid. now apply Hin1.
Qed.

End SettleFacts.

(** ** The renderer: the state a pass leaves *)

Section StateFacts.
Import Render.
Context `{M : MathLib}.

Lemma commit_anchor_ids st cid el s ld :
  anchor_ids (commit st cid el s ld) cid = map a_id (nodes s).
Proof. unfold anchor_ids, commit. simpl. now rewrite lookup_insert_eq. Qed.

Lemma commit_known st cid el s ld :
  known_of (commit st cid el s ld) cid = known s.
Proof. unfold known_of, commit. simpl. now rewrite lookup_insert_eq. Qed.

Lemma commit_other st cid el s ld cid' :
  cid <> cid' ->
  anchor_ids (commit st cid el s ld) cid' = anchor_ids st cid' /\
  known_of (commit st cid el s ld) cid' = known_of st cid'.
Proof.
  intros Hne. unfold anchor_ids, known_of, commit. simpl.
  now rewrite !lookup_insert_ne.
Qed.

Lemma imap_ids (f : nat -> Q) (l : list Bubble) :
  map b_id (imap (fun i b => with_size b (f i)) l) = map b_id l.
Proof.
  revert f. induction l as [|b rest IH]; intros f; simpl; [reflexivity|].
  f_equal. apply (IH (fun i => f (S i))).
Qed.

(** The placements of a pass carry the ids of the snapshot, in order. *)
Lemma layout_in_ids data cid el :
  laid_ids (layout_in data cid el) = map b_id data.
Proof.
  unfold laid_ids, layout_in.
  rewrite <- (map_map p_bubble b_id), layoutBubbles_bubbles.
  apply imap_ids.
Qed.

Lemma layoutBubbles_fixed_ids data W H :
  laid_ids (layoutBubbles_fixed data W H) = map b_id data.
Proof.
  unfold laid_ids, layoutBubbles_fixed.
  now rewrite <- (map_map p_bubble b_id), layoutBubbles_bubbles.
Qed.

Lemma reposition_keeps_id b n : a_id (reposition b n) = a_id n.
Proof. reflexivity. Qed.

Lemma create_gives_id b : a_id (create b) = b_id (p_bubble b).
Proof. reflexivity. Qed.

Lemma reposition_fixed_keeps_id b n : a_id (reposition_fixed b n) = a_id n.
Proof. reflexivity. Qed.

Lemma create_fixed_gives_id b : a_id (create_fixed b) = b_id (p_bubble b).
Proof. reflexivity. Qed.

Lemma reposition_absorbs b b' n : reposition b (reposition b' n) = reposition b n.
Proof. unfold reposition. simpl. now destruct (a_inner n). Qed.

Lemma reposition_create b : reposition b (create b) = create b.
Proof. reflexivity. Qed.

Lemma reposition_fixed_absorbs b b' n :
  reposition_fixed b (reposition_fixed b' n) = reposition_fixed b n.
Proof. unfold reposition_fixed. simpl. now destruct (a_inner n). Qed.

Lemma reposition_fixed_create b : reposition_fixed b (create_fixed b) = create_fixed b.
Proof. reflexivity. Qed.

(** What a pass of [renderBubbles] on an existing container amounts to. *)
Lemma renderBubbles_pass data cid st el :
  document st !! cid = Some el ->
  let laid := layout_in data cid el in
  let s := reconcile reposition create (list_to_set (laid_ids laid)) laid
             (anchors el) (known_of st cid) in
  renderBubbles data cid st =
  (commit st cid el s (<[cid := data]> (lastData st)), ops s).
Proof.
  intros Hel. unfold renderBubbles. rewrite Hel. simpl.
  now rewrite layout_in_ids.
Qed.

Lemma renderBubbles_fixed_pass data cid W H st el :
  document st !! cid = Some el ->
  let laid := layoutBubbles_fixed data W H in
  let s := reconcile reposition_fixed create_fixed
             (list_to_set (laid_ids laid)) laid
             (anchors el) (known_of st cid) in
  renderBubbles_fixed data cid W H st = (commit st cid el s (lastData st), ops s).
Proof.
  intros Hel. unfold renderBubbles_fixed. rewrite Hel. simpl.
  now rewrite layoutBubbles_fixed_ids.
Qed.

Lemma anchor_ids_of st cid el :
  document st !! cid = Some el -> anchor_ids st cid = map a_id (anchors el).
Proof. unfold anchor_ids. now intros ->. Qed.

(** A pass leaves the container in place, with the size it had. *)
Lemma commit_container st cid el s ld :
  document (commit st cid el s ld) !! cid =
  Some (mkContainer (rect_width el) (rect_height el)
                    (offsetWidth el) (offsetHeight el) (nodes s)).
Proof. unfold commit. simpl. now rewrite lookup_insert_eq. Qed.

(** Both renderers keep each half of the invariant; so does a resize. *)
Lemma renderBubbles_synced data cid st cid' :
  synced st cid' -> synced (fst (renderBubbles data cid st)) cid'.
Proof.
  intros Hs. destruct (document st !! cid) as [el|] eqn:Hel.
  - rewrite (renderBubbles_pass data cid st el Hel). simpl.
    unfold synced in *. destruct (decide (cid = cid')) as [<-|Hne].
    + rewrite commit_anchor_ids, commit_known.
      rewrite (anchor_ids_of _ _ _ Hel) in Hs.
      now apply (pass_synced _ _ reposition_keeps_id create_gives_id).
    + destruct (commit_other st cid el
                  (reconcile reposition create
                     (list_to_set (laid_ids (layout_in data cid el)))
                     (layout_in data cid el) (anchors el) (known_of st cid))
                  (<[cid := data]> (lastData st)) cid' Hne) as [-> ->].
      exact Hs.
  - unfold renderBubbles. rewrite Hel. exact Hs.
Qed.

Lemma renderBubbles_distinct data cid st cid' :
  distinct st cid' -> distinct (fst (renderBubbles data cid st)) cid'.
Proof.
  intros Hd. destruct (document st !! cid) as [el|] eqn:Hel.
  - rewrite (renderBubbles_pass data cid st el Hel). simpl.
    unfold distinct in *. destruct (decide (cid = cid')) as [<-|Hne].
    + rewrite commit_anchor_ids. rewrite (anchor_ids_of _ _ _ Hel) in Hd.
      now apply (pass_NoDup _ _ reposition_keeps_id create_gives_id).
    + destruct (commit_other st cid el
                  (reconcile reposition create
                     (list_to_set (laid_ids (layout_in data cid el)))
                     (layout_in data cid el) (anchors el) (known_of st cid))
                  (<[cid := data]> (lastData st)) cid' Hne) as [-> _].
      exact Hd.
  - unfold renderBubbles. rewrite Hel. exact Hd.
Qed.

Lemma renderBubbles_fixed_synced data cid W H st cid' :
  synced st cid' -> synced (fst (renderBubbles_fixed data cid W H st)) cid'.
Proof.
  intros Hs. destruct (document st !! cid) as [el|] eqn:Hel.
  - rewrite (renderBubbles_fixed_pass data cid W H st el Hel). simpl.
    unfold synced in *. destruct (decide (cid = cid')) as [<-|Hne].
    + rewrite commit_anchor_ids, commit_known.
      rewrite (anchor_ids_of _ _ _ Hel) in Hs.
      now apply (pass_synced _ _ reposition_fixed_keeps_id
                   create_fixed_gives_id).
    + destruct (commit_other st cid el
                  (reconcile reposition_fixed create_fixed
                     (list_to_set (laid_ids (layoutBubbles_fixed data W H)))
                     (layoutBubbles_fixed data W H) (anchors el)
                     (known_of st cid))
                  (lastData st) cid' Hne) as [-> ->].
      exact Hs.
  - unfold renderBubbles_fixed. rewrite Hel. exact Hs.
Qed.

Lemma renderBubbles_fixed_distinct data cid W H st cid' :
  distinct st cid' -> distinct (fst (renderBubbles_fixed data cid W H st)) cid'.
Proof.
  intros Hd. destruct (document st !! cid) as [el|] eqn:Hel.
  - rewrite (renderBubbles_fixed_pass data cid W H st el Hel). simpl.
    unfold distinct in *. destruct (decide (cid = cid')) as [<-|Hne].
    + rewrite commit_anchor_ids. rewrite (anchor_ids_of _ _ _ Hel) in Hd.
      now apply (pass_NoDup _ _ reposition_fixed_keeps_id
                   create_fixed_gives_id).
    + destruct (commit_other st cid el
                  (reconcile reposition_fixed create_fixed
                     (list_to_set (laid_ids (layoutBubbles_fixed data W H)))
                     (layoutBubbles_fixed data W H) (anchors el)
                     (known_of st cid))
                  (lastData st) cid' Hne) as [-> _].
      exact Hd.
  - unfold renderBubbles_fixed. rewrite Hel. exact Hd.
Qed.

Lemma resize_keeps cid w h ow oh st cid' :
  anchor_ids (resize cid w h ow oh st) cid' = anchor_ids st cid' /\
  known_of (resize cid w h ow oh st) cid' = known_of st cid'.
Proof.
  split; [|reflexivity]. unfold anchor_ids, resize. simpl.
  rewrite lookup_alter. case_decide as E; [subst cid'|reflexivity].
  now destruct (document st !! cid).
Qed.

(** Every state the page can be in satisfies the invariant. *)
Lemma reachable_invariant st cid :
  reachable st -> synced st cid /\ distinct st cid.
Proof.
  intros Hr. revert cid.
  induction Hr as [st [Hk Ha]|st data c _ Hr IHHr|st data c w h _ Hr IHHr
                  |st containerId w h ow oh Hr IHHr]; intros cid.
  - unfold synced, distinct, known_of, anchor_ids. rewrite Hk, lookup_empty.
    destruct (document st !! cid) as [el|] eqn:Hel.
    + rewrite (Ha _ _ Hel). simpl. split; [reflexivity|constructor].
    + split; [reflexivity|constructor].
  - destruct (IHHr cid).
    split; [now apply renderBubbles_synced|now apply renderBubbles_distinct].
  - destruct (IHHr cid).
    split; [now apply renderBubbles_fixed_synced
           |now apply renderBubbles_fixed_distinct].
  - unfold synced, distinct.
    destruct (resize_keeps containerId w h ow oh st cid) as [-> ->].
    apply IHHr.
Qed.

End StateFacts.

(** * The layout engine: the stated properties *)

Section LayoutClaims.
Context `{M : MathLib}.

Lemma distance_sym a b : (distance a b == distance b a)%Q.
Proof. unfold distance. apply Math_sqrt_proper. ring. Qed.

(** C1 (no-overlap invariant).  When the search budget suffices for an
    input, that is when every circle after the first finds a position
    within the rings up to 800 (within the 300 steps, for the spiral),
    any two circles of the result are at least the sum of their radii
    plus the gap apart: 6 for the ring scan, 4 for the spiral. *)
Theorem no_overlap_invariant :
  (forall bubbles W H off,
     Ring.budget_suffices bubbles W H off = true ->
     forall i j a b, i <> j ->
       Ring.layoutBubbles bubbles W H off !! i = Some a ->
       Ring.layoutBubbles bubbles W H off !! j = Some b ->
       (radius a + radius b + 6 <= distance a b)%Q) /\
  (forall bubbles W H,
     Spiral.budget_suffices bubbles W H = true ->
     forall i j a b, i <> j ->
       Spiral.layoutBubbles bubbles W H !! i = Some a ->
       Spiral.layoutBubbles bubbles W H !! j = Some b ->
       (radius a + radius b + 4 <= distance a b)%Q).
Proof.
  split.
  - intros bubbles W H off Hbudget.
    assert (Hlt : forall i j a b, (i < j)%nat ->
              Ring.layoutBubbles bubbles W H off !! i = Some a ->
              Ring.layoutBubbles bubbles W H off !! j = Some b ->
              (radius b + radius a + 6 <= distance b a)%Q).
    { intros i j a b Hij Ha Hb.
      assert (Hbj : bubbles !! j = Some (p_bubble b)).
      { rewrite <- (layoutBubbles_bubbles bubbles W H off).
        change (map p_bubble ?l) with (p_bubble <$> l).
        now rewrite list_lookup_fmap, Hb. }
      eapply (ring_clearance bubbles W H off i j); eauto.
      apply budget_suffices_at; [exact Hbudget|lia|exact Hbj]. }
    intros i j a b Hne Ha Hb.
    destruct (Nat.lt_total i j) as [Hij|[Hij|Hij]]; [|congruence|].
    + pose proof (Hlt i j a b Hij Ha Hb). pose proof (distance_sym a b). lra.
    + pose proof (Hlt j i b a Hij Hb Ha). lra.
  - intros bubbles W H Hbudget.
    assert (Hlt : forall i j a b, (i < j)%nat ->
              Spiral.layoutBubbles bubbles W H !! i = Some a ->
              Spiral.layoutBubbles bubbles W H !! j = Some b ->
              (radius b + radius a + 4 <= distance b a)%Q).
    { intros i j a b Hij Ha Hb.
      assert (Hbj : bubbles !! j = Some (p_bubble b)).
      { rewrite <- (spiral_layoutBubbles_bubbles bubbles W H).
        change (map p_bubble ?l) with (p_bubble <$> l).
        now rewrite list_lookup_fmap, Hb. }
      eapply (spiral_clearance bubbles W H i j); eauto.
      apply spiral_budget_suffices_at; [exact Hbudget|lia|exact Hbj]. }
    intros i j a b Hne Ha Hb.
    destruct (Nat.lt_total i j) as [Hij|[Hij|Hij]]; [|congruence|].
    + pose proof (Hlt i j a b Hij Ha Hb). pose proof (distance_sym a b). lra.
    + pose proof (Hlt j i b a Hij Hb Ha). lra.
Qed.

(** C3 (order preservation).  The result of [layoutBubbles] has the
    length of its input, and its element at each index is the input
    element at that index, id and all, with a position added. *)
Theorem layout_preserves_order (bubbles : list Bubble) (W H off : Q) :
  length (Ring.layoutBubbles bubbles W H off) = length bubbles /\
  (forall i, p_bubble <$> (Ring.layoutBubbles bubbles W H off !! i) = bubbles !! i) /\
  (forall i p, Ring.layoutBubbles bubbles W H off !! i = Some p ->
     b_id <$> (bubbles !! i) = Some (b_id (p_bubble p))).
Proof.
  assert (Hi : forall i,
            p_bubble <$> (Ring.layoutBubbles bubbles W H off !! i) = bubbles !! i).
  { intros i. rewrite <- list_lookup_fmap.
    change (p_bubble <$> ?l) with (map p_bubble l).
    now rewrite layoutBubbles_bubbles. }
  split; [apply layoutBubbles_length|]. split; [exact Hi|].
  intros i p Hp. rewrite <- Hi, Hp. reflexivity.
Qed.

Lemma layout_prefix (l ext : list Bubble) (W H off : Q) :
  take (length l) (Ring.layoutBubbles (l ++ ext) W H off) =
  Ring.layoutBubbles l W H off.
Proof.
  pose proof (layoutBubbles_from (l ++ ext) W H off) as E.
  rewrite layout_from_app in E.
  destruct (Ring.layout_from _ _ _ [] l) as [out1|] eqn:E1; [|discriminate].
  simpl in E.
  destruct (Ring.layout_from _ _ _ _ ext) as [out2|]; [|discriminate].
  injection E as <-.
  assert (Hlen : length out1 = length l).
  { rewrite <- (layout_from_bubbles _ _ _ _ _ _ E1). now rewrite length_map. }
  rewrite <- Hlen, take_app_length.
  apply (layoutBubbles_sound (Ring.layout_fuel (l ++ ext))).
  unfold Ring.layoutBubbles_fuel. destruct l as [|b l]; [|exact E1].
  simpl in E1. simpl. congruence.
Qed.

(** C5 (stability under append).  Laying out a sequence with one more
    circle appended places the circles of the original sequence exactly
    where laying out the original sequence places them; the same holds
    for any number of appended circles. *)
Theorem layout_stable_under_append (l : list Bubble) (W H off : Q) :
  (forall c,
     take (length l) (Ring.layoutBubbles (l ++ [c]) W H off) =
     Ring.layoutBubbles l W H off) /\
  (forall ext i, (i < length l)%nat ->
     Ring.layoutBubbles (l ++ ext) W H off !! i =
     Ring.layoutBubbles l W H off !! i).
Proof.
  split.
  - intros c. apply layout_prefix.
  - intros ext i Hi. rewrite <- (layout_prefix l ext W H off).
    now rewrite lookup_take_lt.
Qed.

End LayoutClaims.

Section LayoutTotality.
Context `{M : MathLib}.

(** C2 (best effort, never fails).  [layoutBubbles] returns on every
    input, with one placement for each circle: the ring scan returns on
    any fuel from [layout_fuel] on, and the spiral is a bounded loop.
    A circle for which the search finds nothing (no ring up to 800, none
    of the 300 steps) is still placed, at the fallback position. *)
Theorem layout_never_fails (bubbles : list Bubble) (W H off : Q) :
  (forall fuel, (Ring.layout_fuel bubbles <= fuel)%nat ->
     Ring.layoutBubbles_fuel fuel bubbles W H off =
     Some (Ring.layoutBubbles bubbles W H off)) /\
  length (Ring.layoutBubbles bubbles W H off) = length bubbles /\
  (forall j b, (0 < j)%nat -> bubbles !! j = Some b ->
     Ring.search (W / 2) (H / 2 + off)
       (map disc_of (take j (Ring.layoutBubbles bubbles W H off))) b = None ->
     exists p,
       Ring.layoutBubbles bubbles W H off !! j = Some p /\ p_bubble p = b /\
       p_cx p = (W / 2 + inject_Z (Z.of_nat j) * 10)%Q /\
       p_cy p = (H / 2 + off + inject_Z (Z.of_nat j) * 10)%Q) /\
  length (Spiral.layoutBubbles bubbles W H) = length bubbles /\
  (forall j b, (0 < j)%nat -> bubbles !! j = Some b ->
     Spiral.step_loop (take j (Spiral.layoutBubbles bubbles W H))
       (W / 2) (H / 2 - 20) b (Z.of_nat j) 300 1 = None ->
     exists p,
       Spiral.layoutBubbles bubbles W H !! j = Some p /\ p_bubble p = b /\
       (p_cx p, p_cy p) = Spiral.fallback (W / 2) (H / 2 - 20) b (Z.of_nat j)).
Proof.
  split; [|split; [|split; [|split]]].
  - intros fuel Hle.
    apply (layoutBubbles_fuel_mono (Ring.layout_fuel bubbles)); [exact Hle|].
    apply layoutBubbles_complete.
  - apply layoutBubbles_length.
  - intros j b Hj Hb Hnone.
    destruct (layoutBubbles_lookup bubbles W H off j b Hb) as (p & d & Hp & Hplace).
    exists p. split; [exact Hp|].
    set (out := Ring.layoutBubbles bubbles W H off) in *.
    assert (Hlen : length (map disc_of (take j out)) = j).
    { rewrite length_map, length_take. apply lookup_lt_Some in Hp. lia. }
    assert (Hne : map disc_of (take j out) <> []).
    { intros E. rewrite E in Hlen. simpl in Hlen. lia. }
    pose proof (place_position _ _ _ _ _ _ _ Hne Hplace) as Hxy.
    rewrite Hnone in Hxy. simpl in Hxy. rewrite Hlen in Hxy.
    injection Hxy as Hx Hy.
    apply place_shape in Hplace as (Hpb & _). auto.
  - rewrite <- (spiral_layoutBubbles_bubbles bubbles W H) at 2.
    now rewrite length_map.
  - intros j b Hj Hb Hnone.
    rewrite (spiral_layoutBubbles_lookup bubbles W H j b Hb).
    eexists. split; [reflexivity|]. split; [apply spiral_place_bubble|].
    unfold Spiral.place. rewrite Hnone.
    destruct (Z.eqb_spec (Z.of_nat j) 0) as [E|_]; [lia|].
    now destruct (Spiral.fallback _ _ b _).
Qed.

(** C6, as the code has it.  The first circle is centred at half the
    width and at half the height plus the offset the caller passes;
    [x], [y] are the centre less the radius.  The renderer passes a tenth
    of the container height, rounded, upwards (negative once the height
    exceeds 5) for the main field, and no offset for the other fields.
    One circle of diameter 100 in a 900 by 680 canvas with the main
    field's offset, -68, is centred at (450, 272), its box at (400, 222).
    The earlier engines shift by a constant: 10 up for the earlier ring
    scan, 20 up for the spiral. *)
Theorem first_circle_center :
  (forall b rest W H off,
     exists p ps,
       Ring.layoutBubbles (b :: rest) W H off = p :: ps /\ p_bubble p = b /\
       p_cx p = (W / 2)%Q /\ p_cy p = (H / 2 + off)%Q /\
       p_x p = (p_cx p - b_size b / 2)%Q /\ p_y p = (p_cy p - b_size b / 2)%Q) /\
  (forall b rest cid el,
     exists p ps,
       Render.layout_in (b :: rest) cid el = p :: ps /\
       p_cx p = (Render.containerW el / 2)%Q /\
       p_cy p = (Render.containerH el / 2 + Render.cyOffset cid el)%Q) /\
  (forall cid el,
     Render.cyOffset cid el =
     if String.eqb cid "theirBubbleField"
     then inject_Z (Math_round (- 0.10 * Render.containerH el)) else 0%Q) /\
  (forall h : Q, (5 < h)%Q -> (inject_Z (Math_round (- 0.10 * h)) < 0)%Q) /\
  (forall b, b_size b = 100%Q ->
     Math_round (- 0.10 * 680) = (-68)%Z /\
     exists p,
       Ring.layoutBubbles [b] 900 680 (-68) = [p] /\
       (p_cx p == 450)%Q /\ (p_cy p == 272)%Q /\
       (p_x p == 400)%Q /\ (p_y p == 222)%Q) /\
  (forall b rest W H,
     exists p ps,
       layoutBubbles_fixed (b :: rest) W H = p :: ps /\
       p_cx p = (W / 2)%Q /\ p_cy p = (H / 2 - 10)%Q) /\
  (forall b rest W H,
     exists p ps,
       Spiral.layoutBubbles (b :: rest) W H = p :: ps /\
       p_cx p = (W / 2)%Q /\ p_cy p = (H / 2 - 20)%Q).
Proof.
  assert (Hfirst : forall b rest W H off,
            exists p ps,
              Ring.layoutBubbles (b :: rest) W H off = p :: ps /\ p_bubble p = b /\
              p_cx p = (W / 2)%Q /\ p_cy p = (H / 2 + off)%Q /\
              p_x p = (p_cx p - b_size b / 2)%Q /\
              p_y p = (p_cy p - b_size b / 2)%Q).
  { intros b rest W H off.
    pose proof (layoutBubbles_from (b :: rest) W H off) as E. simpl in E.
    destruct (Ring.layout_from _ _ _ _ rest) as [ps|]; [|discriminate].
    injection E as <-. eexists _, ps. repeat split. }
  split; [exact Hfirst|]. split; [|split; [|split; [|split; [|split]]]].
  - intros b rest cid el. unfold Render.layout_in. simpl imap.
    destruct (Hfirst (Render.with_size b
                        (Render.sizeForIndex 0
                           (Math_min (Render.containerW el)
                              (Render.containerH el) / 832)))
                (imap ((fun i b0 => Render.with_size b0
                         (Render.sizeForIndex i
                            (Math_min (Render.containerW el)
                               (Render.containerH el) / 832)))
                       ∘ S) rest)
                (Render.containerW el) (Render.containerH el)
                (Render.cyOffset cid el))
      as (p & ps & E & _ & Hx & Hy & _).
    exists p, ps. auto.
  - reflexivity.
  - intros h Hh. unfold Math_round.
    pose proof (Qfloor_le (- 0.10 * h + (1 # 2))) as Hfl. lra.
  - intros b Hb. split; [reflexivity|].
    destruct (Hfirst b [] 900%Q 680%Q (-68)%Q)
      as (p & ps & E & Hpb & Hcx & Hcy & Hx & Hy).
    assert (ps = []) as ->.
    { pose proof (layoutBubbles_length [b] 900 680 (-68)) as Hlen.
      rewrite E in Hlen. simpl in Hlen. destruct ps; [reflexivity|discriminate]. }
    exists p. split; [exact E|].
    rewrite Hx, Hy, Hcx, Hcy, Hb. repeat split; reflexivity.
  - intros b rest W H. unfold layoutBubbles_fixed.
    destruct (Hfirst b rest W H (-10)%Q) as (p & ps & E & _ & Hx & Hy & _).
    exists p, ps. auto.
  - intros b rest W H.
    pose proof (spiral_layoutBubbles_lookup (b :: rest) W H 0 b eq_refl) as E.
    destruct (Spiral.layoutBubbles (b :: rest) W H) as [|p ps]; [discriminate|].
    injection E as ->. eexists _, ps. repeat split.
Qed.

End LayoutTotality.

(** * The renderer: the stated properties *)

Section RenderClaims.
Import Render.
Context `{M : MathLib}.

Lemma created_ids_Updated l : created_ids (map Updated l) = [].
Proof. induction l as [|x l IH]; simpl; [reflexivity|exact IH]. Qed.

Lemma removed_ids_Updated l : removed_ids (map Updated l) = [].
Proof. induction l as [|x l IH]; simpl; [reflexivity|exact IH]. Qed.

(** The container a pass leaves has the size it had, so a second pass
    over the same snapshot lays out the same placements. *)
Lemma renderBubbles_twice data cid st el :
  document st !! cid = Some el ->
  let laid := layout_in data cid el in
  let cur : gset string := list_to_set (laid_ids laid) in
  let s1 := reconcile reposition create cur laid (anchors el) (known_of st cid) in
  let st1 := fst (renderBubbles data cid st) in
  let s2 := reconcile reposition create cur laid (nodes s1) (known s1) in
  anchor_ids st1 cid = map a_id (nodes s1) /\
  known_of st1 cid = known s1 /\
  snd (renderBubbles data cid st1) = ops s2 /\
  anchor_ids (fst (renderBubbles data cid st1)) cid = map a_id (nodes s2) /\
  known_of (fst (renderBubbles data cid st1)) cid = known s2.
Proof.
  intros Hel laid cur s1 st1 s2.
  assert (E1 : st1 = commit st cid el s1 (<[cid := data]> (lastData st))).
  { unfold st1. now rewrite (renderBubbles_pass data cid st el Hel). }
  rewrite E1. rewrite commit_anchor_ids, commit_known.
  rewrite (renderBubbles_pass data cid _ _ (commit_container st cid el s1 _)).
  simpl fst. simpl snd. rewrite commit_anchor_ids, !commit_known.
  repeat split.
Qed.

Lemma renderBubbles_fixed_twice data cid W H st el :
  document st !! cid = Some el ->
  let laid := layoutBubbles_fixed data W H in
  let cur : gset string := list_to_set (laid_ids laid) in
  let s1 := reconcile reposition_fixed create_fixed cur laid (anchors el)
              (known_of st cid) in
  let st1 := fst (renderBubbles_fixed data cid W H st) in
  let s2 := reconcile reposition_fixed create_fixed cur laid (nodes s1) (known s1) in
  anchor_ids st1 cid = map a_id (nodes s1) /\
  known_of st1 cid = known s1 /\
  snd (renderBubbles_fixed data cid W H st1) = ops s2 /\
  anchor_ids (fst (renderBubbles_fixed data cid W H st1)) cid = map a_id (nodes s2) /\
  known_of (fst (renderBubbles_fixed data cid W H st1)) cid = known s2.
Proof.
  intros Hel laid cur s1 st1 s2.
  assert (E1 : st1 = commit st cid el s1 (lastData st)).
  { unfold st1. now rewrite (renderBubbles_fixed_pass data cid W H st el Hel). }
  rewrite E1. rewrite commit_anchor_ids, commit_known.
  rewrite (renderBubbles_fixed_pass data cid W H _ _
             (commit_container st cid el s1 _)).
  simpl fst. simpl snd. rewrite commit_anchor_ids, !commit_known.
  repeat split.
Qed.

(** After a pass the container has an anchor for an id exactly when the
    snapshot has a bubble of that id, whatever the state before. *)
Lemma renderBubbles_anchor_ids data cid st id :
  is_Some (document st !! cid) ->
  In id (anchor_ids (fst (renderBubbles data cid st)) cid) <->
  In id (map b_id data).
Proof.
  intros [el Hel]. rewrite (renderBubbles_pass data cid st el Hel). simpl fst.
  rewrite commit_anchor_ids.
  rewrite (pass_anchor_ids _ _ reposition_keeps_id create_gives_id).
  now rewrite layout_in_ids.
Qed.

Lemma renderBubbles_fixed_anchor_ids data cid W H st id :
  is_Some (document st !! cid) ->
  In id (anchor_ids (fst (renderBubbles_fixed data cid W H st)) cid) <->
  In id (map b_id data).
Proof.
  intros [el Hel]. rewrite (renderBubbles_fixed_pass data cid W H st el Hel).
  simpl fst. rewrite commit_anchor_ids.
  rewrite (pass_anchor_ids _ _ reposition_fixed_keeps_id create_fixed_gives_id).
  now rewrite layoutBubbles_fixed_ids.
Qed.

Lemma ids_set_eq (l k : list string) :
  (forall id, In id l <-> In id k) ->
  list_to_set l =@{gset string} list_to_set k.
Proof.
  intros H. apply set_eq. intros id.
  rewrite !elem_of_list_to_set, !list_elem_of_In. apply H.
Qed.

(** From a state in step, a pass leaves the known-set equal to the set
    of the ids of the snapshot. *)
Lemma renderBubbles_known data cid st :
  is_Some (document st !! cid) -> synced st cid ->
  known_of (fst (renderBubbles data cid st)) cid = list_to_set (map b_id data).
Proof.
  intros Hel Hs.
  pose proof (renderBubbles_synced data cid st cid Hs) as Hs'.
  unfold synced in Hs'. rewrite Hs'.
  apply ids_set_eq. intros id. now apply renderBubbles_anchor_ids.
Qed.

Lemma renderBubbles_fixed_known data cid W H st :
  is_Some (document st !! cid) -> synced st cid ->
  known_of (fst (renderBubbles_fixed data cid W H st)) cid =
  list_to_set (map b_id data).
Proof.
  intros Hel Hs.
  pose proof (renderBubbles_fixed_synced data cid W H st cid Hs) as Hs'.
  unfold synced in Hs'. rewrite Hs'.
  apply ids_set_eq. intros id. now apply renderBubbles_fixed_anchor_ids.
Qed.

(** With distinct anchor ids, a second pass over the same snapshot
    leaves the whole state as the first left it. *)
Lemma renderBubbles_again data cid st :
  is_Some (document st !! cid) -> distinct st cid ->
  fst (renderBubbles data cid (fst (renderBubbles data cid st))) =
  fst (renderBubbles data cid st).
Proof.
  intros [el Hel] Hd. unfold distinct in Hd.
  rewrite (anchor_ids_of _ _ _ Hel) in Hd.
  rewrite (renderBubbles_pass data cid st el Hel). simpl fst.
  rewrite (renderBubbles_pass data cid _ _ (commit_container st cid el _ _)).
  simpl fst. rewrite commit_known. cbn [anchors rect_width rect_height
    offsetWidth offsetHeight].
  change (layout_in data cid (mkContainer ?w ?h ?ow ?oh ?ns))
    with (layout_in data cid el).
  unfold commit.
  cbn [document renderedIds lastData rect_width rect_height offsetWidth
       offsetHeight anchors].
  rewrite (pass_again_nodes _ _ reposition_keeps_id create_gives_id
             reposition_absorbs reposition_create _ _ _ Hd).
  destruct (pass_again _ _ reposition_keeps_id create_gives_id
              (layout_in data cid el) (anchors el) (known_of st cid))
    as (_ & _ & ->).
  now rewrite !insert_insert_eq.
Qed.

Lemma renderBubbles_fixed_again data cid W H st :
  is_Some (document st !! cid) -> distinct st cid ->
  fst (renderBubbles_fixed data cid W H
         (fst (renderBubbles_fixed data cid W H st))) =
  fst (renderBubbles_fixed data cid W H st).
Proof.
  intros [el Hel] Hd. unfold distinct in Hd.
  rewrite (anchor_ids_of _ _ _ Hel) in Hd.
  rewrite (renderBubbles_fixed_pass data cid W H st el Hel). simpl fst.
  rewrite (renderBubbles_fixed_pass data cid W H _ _
             (commit_container st cid el _ _)).
  simpl fst. rewrite commit_known. cbn [anchors rect_width rect_height
    offsetWidth offsetHeight].
  unfold commit.
  cbn [document renderedIds lastData rect_width rect_height offsetWidth
       offsetHeight anchors].
  rewrite (pass_again_nodes _ _ reposition_fixed_keeps_id create_fixed_gives_id
             reposition_fixed_absorbs reposition_fixed_create _ _ _ Hd).
  destruct (pass_again _ _ reposition_fixed_keeps_id create_fixed_gives_id
              (layoutBubbles_fixed data W H) (anchors el) (known_of st cid))
    as (_ & _ & ->).
  now rewrite !insert_insert_eq.
Qed.

(** X28 (idempotence of a repeated render, ids that need no escaping).
    On an existing container, rendering a snapshot of [css_safe] ids a
    second time in a row creates no element and removes none: the second
    pass only updates, one update for each bubble in order, and it leaves
    the anchors' ids and the known-set as they were.  In any state the
    page can be in, every id of the snapshot is in the known-set after
    the first pass, and the second pass leaves the whole state as the
    first left it.  Both renderers. *)
Theorem repeated_render_idempotent (data : list Bubble) (cid : string)
    (st : State) :
  is_Some (document st !! cid) ->
  css_safe_ids (map b_id data) = true ->
  (let st1 := fst (renderBubbles data cid st) in
   let st2 := fst (renderBubbles data cid st1) in
   let ops2 := snd (renderBubbles data cid st1) in
   ops2 = map Updated (map b_id data) /\
   created_ids ops2 = [] /\ removed_ids ops2 = [] /\
   anchor_ids st2 cid = anchor_ids st1 cid /\
   known_of st2 cid = known_of st1 cid /\
   (distinct st cid -> st2 = st1) /\
   (synced st cid ->
    forall id, In id (map b_id data) -> id ∈ known_of st1 cid) /\
   (reachable st ->
    st2 = st1 /\
    forall id, In id (map b_id data) -> id ∈ known_of st1 cid)) /\
  (forall W H,
   let st1 := fst (renderBubbles_fixed data cid W H st) in
   let st2 := fst (renderBubbles_fixed data cid W H st1) in
   let ops2 := snd (renderBubbles_fixed data cid W H st1) in
   ops2 = map Updated (map b_id data) /\
   created_ids ops2 = [] /\ removed_ids ops2 = [] /\
   anchor_ids st2 cid = anchor_ids st1 cid /\
   known_of st2 cid = known_of st1 cid /\
   (distinct st cid -> st2 = st1) /\
   (synced st cid ->
    forall id, In id (map b_id data) -> id ∈ known_of st1 cid) /\
   (reachable st ->
    st2 = st1 /\
    forall id, In id (map b_id data) -> id ∈ known_of st1 cid)).
Proof.
  intros Hsome _. destruct Hsome as [el Hel].
  assert (Hsome : is_Some (document st !! cid)) by eauto.
  split.
  - cbv zeta.
    assert (Hknown : synced st cid ->
              forall id, In id (map b_id data) ->
                id ∈ known_of (fst (renderBubbles data cid st)) cid).
    { intros Hs id Hid. rewrite (renderBubbles_known data cid st Hsome Hs).
      now apply elem_of_list_to_set, list_elem_of_In. }
    pose proof (renderBubbles_again data cid st Hsome) as Hagain.
    destruct (renderBubbles_twice data cid st el Hel)
      as (Ha1 & Hk1 & Ho2 & Ha2 & Hk2).
    destruct (pass_again _ _ reposition_keeps_id create_gives_id
                (layout_in data cid el) (anchors el) (known_of st cid))
      as (Ho & Hn & Hk).
    rewrite Ho2, Ha2, Hk2, Ho, Hn, Hk, <- Ha1, <- Hk1, layout_in_ids.
    rewrite created_ids_Updated, removed_ids_Updated.
    do 5 (split; [reflexivity|]). split; [exact Hagain|].
    split; [exact Hknown|]. intros Hr.
    destruct (reachable_invariant st cid Hr) as [Hs Hd]. auto.
  - intros W H. cbv zeta.
    assert (Hknown : synced st cid ->
              forall id, In id (map b_id data) ->
                id ∈ known_of (fst (renderBubbles_fixed data cid W H st)) cid).
    { intros Hs id Hid.
      rewrite (renderBubbles_fixed_known data cid W H st Hsome Hs).
      now apply elem_of_list_to_set, list_elem_of_In. }
    pose proof (renderBubbles_fixed_again data cid W H st Hsome) as Hagain.
    destruct (renderBubbles_fixed_twice data cid W H st el Hel)
      as (Ha1 & Hk1 & Ho2 & Ha2 & Hk2).
    destruct (pass_again _ _ reposition_fixed_keeps_id create_fixed_gives_id
                (layoutBubbles_fixed data W H) (anchors el) (known_of st cid))
      as (Ho & Hn & Hk).
    rewrite Ho2, Ha2, Hk2, Ho, Hn, Hk, <- Ha1, <- Hk1, layoutBubbles_fixed_ids.
    rewrite created_ids_Updated, removed_ids_Updated.
    do 5 (split; [reflexivity|]). split; [exact Hagain|].
    split; [exact Hknown|]. intros Hr.
    destruct (reachable_invariant st cid Hr) as [Hs Hd]. auto.
Qed.

(** C9 (missing container).  When the container does not exist, a pass
    returns at once: no operation on the visual tree, and the state,
    with [renderedIds] and [lastData], is the state before the call. *)
Theorem missing_container_noop (data : list Bubble) (cid : string)
    (st : State) :
  document st !! cid = None ->
  renderBubbles data cid st = (st, []) /\
  renderedIds (fst (renderBubbles data cid st)) = renderedIds st /\
  lastData (fst (renderBubbles data cid st)) = lastData st /\
  document (fst (renderBubbles data cid st)) = document st.
Proof.
  intros Hel. unfold renderBubbles. rewrite Hel. repeat split.
Qed.

(** X30 (known-set and visual tree in step, ids that need no escaping).
    After a pass over a snapshot of [css_safe] ids on an existing
    container, the set of the ids of the anchors in the container is
    exactly the set of the ids of the snapshot, whatever the state
    before; and so is the known-set of the container, in any state the
    page can be in (any state in which the known-set is the set of the
    anchors' ids).  Both renderers; the ids of the snapshot need not even
    be distinct. *)
Theorem known_set_synchronized (data : list Bubble) (cid : string)
    (st : State) :
  is_Some (document st !! cid) ->
  css_safe_ids (map b_id data) = true ->
  (let st' := fst (renderBubbles data cid st) in
   list_to_set (anchor_ids st' cid) =@{gset string}
     list_to_set (map b_id data) /\
   (synced st cid -> known_of st' cid = list_to_set (map b_id data)) /\
   (reachable st -> known_of st' cid = list_to_set (map b_id data))) /\
  (forall W H,
   let st' := fst (renderBubbles_fixed data cid W H st) in
   list_to_set (anchor_ids st' cid) =@{gset string}
     list_to_set (map b_id data) /\
   (synced st cid -> known_of st' cid = list_to_set (map b_id data)) /\
   (reachable st -> known_of st' cid = list_to_set (map b_id data))).
Proof.
  intros Hsome _. split.
  - cbv zeta. split; [|split].
    + apply ids_set_eq. intros id. now apply renderBubbles_anchor_ids.
    + now apply renderBubbles_known.
    + intros Hr. apply renderBubbles_known; [exact Hsome|].
      now apply reachable_invariant.
  - intros W H. cbv zeta. split; [|split].
    + apply ids_set_eq. intros id. now apply renderBubbles_fixed_anchor_ids.
    + now apply renderBubbles_fixed_known.
    + intros Hr. apply renderBubbles_fixed_known; [exact Hsome|].
      now apply reachable_invariant.
Qed.

End RenderClaims.

Section RemovalClaim.
Import Render.
Context `{M : MathLib}.

Lemma renderBubbles_container data cid st :
  is_Some (document st !! cid) ->
  is_Some (document (fst (renderBubbles data cid st)) !! cid).
Proof.
  intros [el Hel]. rewrite (renderBubbles_pass data cid st el Hel). simpl fst.
  rewrite commit_container. eauto.
Qed.

Lemma count_occ_NoDup (l : list string) id :
  NoDup l -> In id l -> count_occ String.string_dec l id = 1%nat.
Proof.
  intros Hnd Hin. apply NoDup_ListNoDup in Hnd.
  now apply NoDup_count_occ'.
Qed.

(** X29 (removal, ids that need no escaping).  In any state the page
    can be in, with snapshots of [css_safe] ids: when an id rendered by
    the previous pass is absent from the new snapshot, the container
    holds exactly one anchor of that id, the new pass removes it, once,
    and deletes the id from the known-set; no anchor whose id is in the
    new snapshot is removed. *)
Theorem removal_correct (data1 data2 : list Bubble) (cid : string)
    (st : State) (id : string) :
  reachable st -> is_Some (document st !! cid) ->
  css_safe_ids (map b_id data1) = true ->
  css_safe_ids (map b_id data2) = true ->
  In id (map b_id data1) -> ~ In id (map b_id data2) ->
  let st1 := fst (renderBubbles data1 cid st) in
  let st2 := fst (renderBubbles data2 cid st1) in
  let ops2 := snd (renderBubbles data2 cid st1) in
  count_occ String.string_dec (anchor_ids st1 cid) id = 1%nat /\
  (id ∈ known_of st1 cid) /\
  count_occ String.string_dec (removed_ids ops2) id = 1%nat /\
  ~ In id (anchor_ids st2 cid) /\
  (id ∉ known_of st2 cid) /\
  (forall id', In id' (map b_id data2) ->
     ~ In id' (removed_ids ops2) /\ In id' (anchor_ids st2 cid)).
Proof.
  intros Hr Hel Hsafe1 _ Hin1 Hin2 st1 st2 ops2.
  assert (Hr1 : reachable st1) by now apply reach_render.
  destruct (reachable_invariant st1 cid Hr1) as [Hs1 Hd1].
  assert (Hid1 : In id (anchor_ids st1 cid)).
  { now apply renderBubbles_anchor_ids. }
  destruct (renderBubbles_container data1 cid st Hel) as [el1 Hel1].
  fold st1 in Hel1.
  assert (Hcur : id ∉@{gset string}
                   list_to_set (laid_ids (layout_in data2 cid el1))).
  { rewrite layout_in_ids, elem_of_list_to_set, list_elem_of_In. exact Hin2. }
  assert (Hops : removed_ids ops2 =
                 map a_id (filter (fun n => a_id n ∉@{gset string}
                             list_to_set (laid_ids (layout_in data2 cid el1)))
                           (anchors el1))).
  { unfold ops2. rewrite (renderBubbles_pass data2 cid st1 el1 Hel1). simpl snd.
    apply pass_removed. }
  unfold distinct, synced in *. rewrite (anchor_ids_of _ _ _ Hel1) in *.
  split; [now apply count_occ_NoDup|].
  split; [rewrite Hs1; apply elem_of_list_to_set, list_elem_of_In; exact Hid1|].
  split; [|split; [|split]].
  - rewrite Hops. apply count_occ_NoDup.
    + now apply filter_ids_NoDup.
    + apply stale_ids. split; [exact Hid1|exact Hcur].
  - unfold st2. rewrite renderBubbles_anchor_ids; [exact Hin2|eauto].
  - unfold st2. rewrite (renderBubbles_pass data2 cid st1 el1 Hel1). simpl fst.
    rewrite commit_known. apply pass_forgets; [exact Hid1|exact Hcur|].
    now rewrite layout_in_ids.
  - intros id' Hid'. split.
    + rewrite Hops. intros Hrem. apply stale_ids in Hrem as [_ Hrem].
      apply Hrem. rewrite layout_in_ids.
      now apply elem_of_list_to_set, list_elem_of_In.
    + unfold st2. rewrite renderBubbles_anchor_ids; [exact Hid'|eauto].
Qed.

End RemovalClaim.

(** * Concrete runs *)

Section Runs.
Import Render.
#[local] Existing Instance Approx.math.

(** Two circles in a 900 by 680 canvas, of diameter 10 for the ring scan
    and of diameter 100 for the spiral: the engines find a place for the
    second, and the two circles are clear of each other. *)
Lemma no_overlap_invariant_witness :
  Ring.budget_suffices Sample.small 900 680 0 = true /\
  Spiral.budget_suffices Sample.two 900 680 = true /\
  (forall i j a b, i <> j ->
     Ring.layoutBubbles Sample.small 900 680 0 !! i = Some a ->
     Ring.layoutBubbles Sample.small 900 680 0 !! j = Some b ->
     (radius a + radius b + 6 <= distance a b)%Q) /\
  (forall i j a b, i <> j ->
     Spiral.layoutBubbles Sample.two 900 680 !! i = Some a ->
     Spiral.layoutBubbles Sample.two 900 680 !! j = Some b ->
     (radius a + radius b + 4 <= distance a b)%Q).
Proof.
  assert (HR : Ring.budget_suffices Sample.small 900 680 0 = true)
    by (vm_compute; reflexivity).
  assert (HS : Spiral.budget_suffices Sample.two 900 680 = true)
    by (vm_compute; reflexivity).
  split; [exact HR|]. split; [exact HS|]. split.
  - exact (proj1 no_overlap_invariant Sample.small 900%Q 680%Q 0%Q HR).
  - exact (proj2 no_overlap_invariant Sample.two 900%Q 680%Q HS).
Defined.

(** Two circles of diameter 1600: no ring up to 800 is even tried for
    the second, which lands on the fallback position, ten units right
    of and below the centre. *)
Lemma layout_never_fails_witness :
  Ring.search (900 / 2) (680 / 2 + 0)
    (map disc_of (take 1 (Ring.layoutBubbles Sample.huge 900 680 0)))
    (Sample.bubble "b" 1 1600) = None /\
  exists p,
    Ring.layoutBubbles Sample.huge 900 680 0 !! 1%nat = Some p /\
    p_cx p = (900 / 2 + inject_Z 1 * 10)%Q /\
    p_cy p = (680 / 2 + 0 + inject_Z 1 * 10)%Q.
Proof.
  assert (Hnone : Ring.search (900 / 2) (680 / 2 + 0)
            (map disc_of (take 1 (Ring.layoutBubbles Sample.huge 900 680 0)))
            (Sample.bubble "b" 1 1600) = None)
    by (vm_compute; reflexivity).
  split; [exact Hnone|].
  destruct (layout_never_fails Sample.huge 900 680 0) as (_ & _ & F & _).
  destruct (F 1%nat (Sample.bubble "b" 1 1600)) as (p & Hp & _ & Hx & Hy).
  - lia.
  - reflexivity.
  - exact Hnone.
  - exists p. auto.
Defined.

Lemma layout_preserves_order_witness :
  length (Ring.layoutBubbles Sample.two 900 680 0) = 2%nat /\
  p_bubble <$> (Ring.layoutBubbles Sample.two 900 680 0 !! 1%nat) =
  Some (Sample.bubble "b" 1 100).
Proof.
  destruct (layout_preserves_order Sample.two 900 680 0) as (Hlen & Hi & _).
  split; [exact Hlen|exact (Hi 1%nat)].
Defined.

Lemma layout_stable_under_append_witness :
  take 1 (Ring.layoutBubbles (Sample.one ++ [Sample.bubble "b" 1 100]) 900 680 0) =
  Ring.layoutBubbles Sample.one 900 680 0.
Proof.
  exact (proj1 (layout_stable_under_append Sample.one 900 680 0)
           (Sample.bubble "b" 1 100)).
Defined.

(** The scenario of the specification: one circle of diameter 100 in the
    main field, 900 by 680. *)
Lemma first_circle_center_witness :
  (5 < 680)%Q /\ b_size (Sample.bubble "a" 0 100) = 100%Q /\
  (inject_Z (Math_round (- 0.10 * 680)) < 0)%Q /\
  exists p,
    Ring.layoutBubbles Sample.one 900 680 (-68) = [p] /\
    (p_cx p == 450)%Q /\ (p_cy p == 272)%Q /\
    (p_x p == 400)%Q /\ (p_y p == 222)%Q.
Proof.
  destruct first_circle_center as (_ & _ & _ & Hneg & Hscene & _).
  assert (H5 : (5 < 680)%Q) by reflexivity.
  split; [exact H5|]. split; [reflexivity|]. split.
  - apply Hneg, H5.
  - destruct (Hscene (Sample.bubble "a" 0 100) eq_refl) as (_ & p & Hp).
    exists p. exact Hp.
Defined.

(** In the user's own field the renderer passes no offset: the first
    circle sits at half the height, not above it. *)
Lemma first_circle_not_shifted_up :
  exists p,
    layout_in Sample.one "myBubbleField" Sample.field = [p] /\
    (p_cy p == 680 / 2)%Q /\ ~ (p_cy p < 680 / 2)%Q.
Proof.
  eexists. split; [vm_compute; reflexivity|]. simpl. split.
  - reflexivity.
  - intros H. vm_compute in H. discriminate.
Qed.

Lemma sample_page_fresh : fresh Sample.page.
Proof.
  split; [reflexivity|]. intros cid el H. unfold Sample.page in H. simpl in H.
  apply lookup_insert_Some in H as [[_ <-]|[_ H]]; [reflexivity|].
  apply lookup_insert_Some in H as [[_ <-]|[_ H]]; [reflexivity|].
  rewrite lookup_empty in H. discriminate.
Qed.

Lemma sample_page_field :
  document Sample.page !! "myBubbleField" = Some Sample.field.
Proof. vm_compute. reflexivity. Qed.

(** Rendering the two small circles twice into the user's own field of
    a fresh page: the second pass only updates. *)
Lemma repeated_render_idempotent_witness :
  reachable Sample.page /\
  is_Some (document Sample.page !! "myBubbleField") /\
  css_safe_ids (map b_id Sample.small) = true /\
  let st1 := fst (renderBubbles Sample.small "myBubbleField" Sample.page) in
  snd (renderBubbles Sample.small "myBubbleField" st1) =
    [Updated "a"; Updated "b"] /\
  fst (renderBubbles Sample.small "myBubbleField" st1) = st1 /\
  "b" ∈ known_of st1 "myBubbleField".
Proof.
  assert (Hr : reachable Sample.page) by apply reach_fresh, sample_page_fresh.
  assert (Hel : is_Some (document Sample.page !! "myBubbleField"))
    by (rewrite sample_page_field; eauto).
  split; [exact Hr|]. split; [exact Hel|]. split; [reflexivity|].
  destruct (repeated_render_idempotent Sample.small "myBubbleField" Sample.page
              Hel eq_refl) as [(Hops & _ & _ & _ & Hk & _ & _ & Hreach) _].
  destruct (Hreach Hr) as [Hsame Hknown].
  split; [exact Hops|]. split; [exact Hsame|].
  apply Hknown. right. left. reflexivity.
Defined.

(** After the two small circles, only the first: the anchor of the
    second is removed, once, and its id forgotten. *)
Lemma removal_correct_witness :
  reachable Sample.page /\
  is_Some (document Sample.page !! "myBubbleField") /\
  css_safe_ids (map b_id Sample.small) = true /\
  css_safe_ids (map b_id Sample.one) = true /\
  In "b" (map b_id Sample.small) /\ ~ In "b" (map b_id Sample.one) /\
  let st1 := fst (renderBubbles Sample.small "myBubbleField" Sample.page) in
  count_occ String.string_dec
    (removed_ids (snd (renderBubbles Sample.one "myBubbleField" st1))) "b" =
    1%nat /\
  "b" ∉ known_of (fst (renderBubbles Sample.one "myBubbleField" st1))
          "myBubbleField".
Proof.
  assert (Hr : reachable Sample.page) by apply reach_fresh, sample_page_fresh.
  assert (Hel : is_Some (document Sample.page !! "myBubbleField"))
    by (rewrite sample_page_field; eauto).
  assert (Hin : In "b" (map b_id Sample.small)) by (simpl; tauto).
  assert (Hout : ~ In "b" (map b_id Sample.one))
    by (simpl; intros [H|[]]; discriminate).
  split; [exact Hr|]. split; [exact Hel|]. split; [reflexivity|].
  split; [reflexivity|]. split; [exact Hin|]. split; [exact Hout|].
  destruct (removal_correct Sample.small Sample.one "myBubbleField" Sample.page
              "b" Hr Hel eq_refl eq_refl Hin Hout) as (_ & _ & Hrem & _ & Hk & _).
  split; [exact Hrem|exact Hk].
Defined.

Lemma missing_container_noop_witness :
  document Sample.page !! "nowhere" = None /\
  renderBubbles Sample.small "nowhere" Sample.page = (Sample.page, []).
Proof.
  assert (Hnone : document Sample.page !! "nowhere" = None)
    by (vm_compute; reflexivity).
  split; [exact Hnone|].
  apply (missing_container_noop Sample.small "nowhere" Sample.page Hnone).
Defined.

Lemma known_set_synchronized_witness :
  reachable Sample.page /\
  is_Some (document Sample.page !! "myBubbleField") /\
  css_safe_ids (map b_id Sample.small) = true /\
  known_of (fst (renderBubbles Sample.small "myBubbleField" Sample.page))
    "myBubbleField" = list_to_set ["a"; "b"] /\
  list_to_set
    (anchor_ids (fst (renderBubbles Sample.small "myBubbleField" Sample.page))
       "myBubbleField") =@{gset string} list_to_set ["a"; "b"].
Proof.
  assert (Hr : reachable Sample.page) by apply reach_fresh, sample_page_fresh.
  assert (Hel : is_Some (document Sample.page !! "myBubbleField"))
    by (rewrite sample_page_field; eauto).
  split; [exact Hr|]. split; [exact Hel|]. split; [reflexivity|].
  destruct (known_set_synchronized Sample.small "myBubbleField" Sample.page
              Hel eq_refl) as [(Hdom & _ & Hk) _].
  split; [exact (Hk Hr)|exact Hdom].
Defined.

End Runs.

(** * The layout engines: what else the code shows *)

Section LayoutShape.
Context `{M : MathLib}.

Lemma ring_layout_from_boxes fuel cx cy placed bubbles out :
  Ring.layout_from fuel cx cy placed bubbles = Some out ->
  forall p, In p out ->
    p_x p = (p_cx p - radius p)%Q /\ p_y p = (p_cy p - radius p)%Q.
Proof.
  revert placed out.
  induction bubbles as [|b rest IH]; intros placed out Hout p Hp; simpl in Hout.
  - injection Hout as <-. destruct Hp.
  - destruct (Ring.place fuel cx cy placed b) as [[q d]|] eqn:Hq;
      simpl in Hout; [|discriminate].
    destruct (Ring.layout_from fuel cx cy (placed ++ [d]) rest) as [ps|] eqn:Hps;
      simpl in Hout; [|discriminate].
    injection Hout as <-. destruct Hp as [<-|Hp].
    + destruct (place_shape _ _ _ _ _ _ _ Hq) as (Hb & _ & Hx & Hy).
      unfold radius. rewrite Hb. split; assumption.
    + eapply IH; eassumption.
Qed.

Lemma spiral_place_box cx cy placed b i :
  let p := Spiral.place cx cy placed b i in
  p_x p = (p_cx p - radius p)%Q /\ p_y p = (p_cy p - radius p)%Q.
Proof.
  unfold Spiral.place, radius. destruct (Z.eqb i 0); [split; reflexivity|].
  destruct (match Spiral.step_loop placed cx cy b i 300 1 with
            | Some found => found
            | None => Spiral.fallback cx cy b i
            end) as [px py].
  split; reflexivity.
Qed.

Lemma spiral_layout_from_boxes cx cy placed bubbles i :
  (forall p, In p placed ->
     p_x p = (p_cx p - radius p)%Q /\ p_y p = (p_cy p - radius p)%Q) ->
  forall p, In p (Spiral.layout_from cx cy placed bubbles i) ->
    p_x p = (p_cx p - radius p)%Q /\ p_y p = (p_cy p - radius p)%Q.
Proof.
  revert placed i.
  induction bubbles as [|b rest IH]; intros placed i Hplaced p Hp; simpl in Hp.
  - apply Hplaced, Hp.
  - eapply IH; [|exact Hp]. intros q Hq.
    apply in_app_or in Hq as [Hq|[<-|[]]]; [apply Hplaced, Hq|].
    apply spiral_place_box.
Qed.

(** X1 (boxes).  Every placement of either engine is the box of its
    circle: [x] and [y] are the centre less the radius, for the first
    circle, for a circle the search placed and for one placed by the
    fallback. *)
Theorem placements_are_boxes (bubbles : list Bubble) (W H off : Q) :
  (forall p, In p (Ring.layoutBubbles bubbles W H off) ->
     p_x p = (p_cx p - radius p)%Q /\ p_y p = (p_cy p - radius p)%Q) /\
  (forall p, In p (Spiral.layoutBubbles bubbles W H) ->
     p_x p = (p_cx p - radius p)%Q /\ p_y p = (p_cy p - radius p)%Q).
Proof.
  split.
  - intros p Hp. eapply ring_layout_from_boxes; [|exact Hp].
    apply layoutBubbles_from.
  - intros p Hp. unfold Spiral.layoutBubbles in Hp.
    destruct (Nat.eqb (length bubbles) 0); [destruct Hp|].
    eapply spiral_layout_from_boxes; [|exact Hp]. intros q [].
Qed.

End LayoutShape.

Section FirstFit.
Context `{M : MathLib}.

(** The position the inner loop tries at step [a] of [steps]. *)
Lemma angle_loop_first placed cx cy r ring steps n a0 :
  let cand a :=
    let angle := (inject_Z a / inject_Z steps * 2 * Math_PI)%Q in
    (cx + Math_cos angle * ring, cy + Math_sin angle * ring)%Q in
  match Ring.angle_loop placed cx cy r ring steps n a0 with
  | Some pos =>
      exists a, (a0 <= a < a0 + Z.of_nat n)%Z /\ pos = cand a /\
        forall a', (a0 <= a' < a)%Z ->
          Ring.overlaps placed (fst (cand a')) (snd (cand a')) r = true
  | None =>
      forall a', (a0 <= a' < a0 + Z.of_nat n)%Z ->
        Ring.overlaps placed (fst (cand a')) (snd (cand a')) r = true
  end.
Proof.
  intros cand. revert a0. induction n as [|n IH]; intros a0; simpl.
  - intros a' Ha'. lia.
  - match goal with |- context [if ?c then _ else _] => destruct c eqn:E end.
    + specialize (IH (a0 + 1)%Z).
      destruct (Ring.angle_loop placed cx cy r ring steps n (a0 + 1)) as [pos|].
      * destruct IH as (a & Ha & Hpos & Hbefore). exists a.
        split; [lia|]. split; [exact Hpos|]. intros a' Ha'.
        destruct (Z.eq_dec a' a0) as [->|Hne]; [exact E|]. apply Hbefore. lia.
      * intros a' Ha'.
        destruct (Z.eq_dec a' a0) as [->|Hne]; [exact E|]. apply IH. lia.
    + exists a0. split; [lia|]. split; [reflexivity|]. intros a' Ha'. lia.
Qed.

Lemma nth_ring_shift start k :
  nth_ring (start + 2) k = nth_ring start (S k).
Proof. induction k as [|k IH]; simpl; [reflexivity|]. now rewrite IH. Qed.

Lemma angleSteps_pos ring : (0 < Ring.angleSteps_of ring)%Z.
Proof. unfold Ring.angleSteps_of, Math_max. lia. Qed.

Lemma ring_loop_first fuel placed cx cy r ring pos :
  Ring.ring_loop fuel placed cx cy r ring = Some (Some pos) ->
  exists (k : nat) (a : Z),
    (nth_ring ring k <= 800)%Q /\
    (0 <= a < Ring.angleSteps_of (nth_ring ring k))%Z /\
    pos = candidate cx cy (nth_ring ring k) a /\
    (forall a', (0 <= a' < a)%Z ->
       Ring.overlaps placed (fst (candidate cx cy (nth_ring ring k) a'))
         (snd (candidate cx cy (nth_ring ring k) a')) r = true) /\
    (forall k' a', (k' < k)%nat ->
       (0 <= a' < Ring.angleSteps_of (nth_ring ring k'))%Z ->
       Ring.overlaps placed (fst (candidate cx cy (nth_ring ring k') a'))
         (snd (candidate cx cy (nth_ring ring k') a')) r = true).
Proof.
  revert ring. induction fuel as [|fuel IH]; intros ring Hloop; simpl in Hloop.
  - destruct (leb ring 800); discriminate.
  - destruct (leb ring 800) eqn:Hle; [|discriminate].
    apply leb_true_le in Hle.
    pose proof (angle_loop_first placed cx cy r ring (Ring.angleSteps_of ring)
                  (Z.to_nat (Ring.angleSteps_of ring)) 0) as Hangle.
    pose proof (angleSteps_pos ring) as Hpos.
    cbv zeta in Hangle.
    destruct (Ring.angle_loop placed cx cy r ring (Ring.angleSteps_of ring)
                (Z.to_nat (Ring.angleSteps_of ring)) 0) as [found|].
    + injection Hloop as ->.
      destruct Hangle as (a & Ha & Hfound & Hbefore).
      exists 0%nat, a. simpl. split; [exact Hle|]. split; [lia|].
      split; [exact Hfound|]. split; [exact Hbefore|].
      intros k' a' Hk'. lia.
    + destruct (IH _ Hloop) as (k & a & Hk & Ha & Hfound & Hbefore & Hrings).
      rewrite nth_ring_shift in Hk, Ha, Hfound, Hbefore.
      exists (S k), a. split; [exact Hk|]. split; [exact Ha|].
      split; [exact Hfound|]. split; [exact Hbefore|].
      intros k' a' Hk' Ha'. destruct k' as [|k'].
      * simpl in Ha' |- *. apply Hangle. lia.
      * rewrite <- nth_ring_shift. apply Hrings; [lia|].
        now rewrite nth_ring_shift.
Qed.

(** X2 (first fit).  When the search of the ring scan ends with a
    position, the position is a candidate of the scan (some ring from
    [r + 6] in steps of 2 up to 800, some angle step of that ring), it is
    clear of the circles placed, and every candidate the scan visits
    before it (the earlier angle steps of its ring and all the steps of
    the rings inside it) overlaps one of them. *)
Theorem ring_scan_first_fit (cx cy : Q) (placed : list Disc) (b : Bubble)
    (pos : Q * Q) :
  Ring.search cx cy placed b = Some pos ->
  let r := (b_size b / 2)%Q in
  exists (k : nat) (a : Z),
    (nth_ring (r + 6) k <= 800)%Q /\
    (0 <= a < Ring.angleSteps_of (nth_ring (r + 6) k))%Z /\
    pos = candidate cx cy (nth_ring (r + 6) k) a /\
    Ring.overlaps placed (fst pos) (snd pos) r = false /\
    (forall a', (0 <= a' < a)%Z ->
       Ring.overlaps placed (fst (candidate cx cy (nth_ring (r + 6) k) a'))
         (snd (candidate cx cy (nth_ring (r + 6) k) a')) r = true) /\
    (forall k' a', (k' < k)%nat ->
       (0 <= a' < Ring.angleSteps_of (nth_ring (r + 6) k'))%Z ->
       Ring.overlaps placed (fst (candidate cx cy (nth_ring (r + 6) k') a'))
         (snd (candidate cx cy (nth_ring (r + 6) k') a')) r = true).
Proof.
  intros Hsearch r. pose proof (search_clear _ _ _ _ _ Hsearch) as Hclear.
  unfold Ring.search in Hsearch. fold r in Hsearch.
  destruct (Ring.ring_loop (Ring.rings_left (r + 6)) placed cx cy r (r + 6))
    as [[found|]|] eqn:Hloop; simpl in Hsearch; try discriminate.
  injection Hsearch as ->.
  destruct (ring_loop_first _ _ _ _ _ _ _ Hloop)
    as (k & a & Hk & Ha & Hfound & Hbefore & Hrings).
  exists k, a. repeat split; try assumption; lia.
Qed.

(** X3 (clearance of a searched circle).  A circle the search placed is
    clear of every circle placed before it, whether the search or the
    fallback placed those: by 6 in the ring scan and by 4 in the spiral.
    Nothing is assumed of the budget of the other circles. *)
Theorem searched_circle_is_clear (bubbles : list Bubble) (W H off : Q) :
  (forall i j b pi pj, (i < j)%nat ->
     bubbles !! j = Some b ->
     is_Some (Ring.search (W / 2) (H / 2 + off)
                (map disc_of (take j (Ring.layoutBubbles bubbles W H off))) b) ->
     Ring.layoutBubbles bubbles W H off !! i = Some pi ->
     Ring.layoutBubbles bubbles W H off !! j = Some pj ->
     (radius pj + radius pi + 6 <= distance pj pi)%Q) /\
  (forall i j b pi pj, (i < j)%nat ->
     bubbles !! j = Some b ->
     is_Some (Spiral.step_loop (take j (Spiral.layoutBubbles bubbles W H))
                (W / 2) (H / 2 - 20) b (Z.of_nat j) 300 1) ->
     Spiral.layoutBubbles bubbles W H !! i = Some pi ->
     Spiral.layoutBubbles bubbles W H !! j = Some pj ->
     (radius pj + radius pi + 4 <= distance pj pi)%Q).
Proof.
  split.
  - intros i j b pi pj. apply ring_clearance.
  - intros i j b pi pj. apply spiral_clearance.
Qed.

End FirstFit.

Section OnlySizes.
Context `{M : MathLib}.

Lemma ring_place_sizes fuel cx cy placed b1 b2 :
  b_size b1 = b_size b2 ->
  match Ring.place fuel cx cy placed b1, Ring.place fuel cx cy placed b2 with
  | Some (p1, d1), Some (p2, d2) => geometry p1 = geometry p2 /\ d1 = d2
  | None, None => True
  | _, _ => False
  end.
Proof.
  intros Hs. unfold Ring.place. rewrite Hs.
  destruct (Nat.eqb (length placed) 0).
  - unfold geometry. simpl. now rewrite Hs.
  - destruct (Ring.ring_loop fuel placed cx cy (b_size b2 / 2)
                (b_size b2 / 2 + 6)) as [found|]; simpl; [|exact I].
    destruct (Ring.position_of found placed cx cy) as [px py].
    unfold geometry. simpl. now rewrite Hs.
Qed.

Lemma ring_layout_from_sizes fuel cx cy placed l1 l2 :
  map b_size l1 = map b_size l2 ->
  map geometry <$> Ring.layout_from fuel cx cy placed l1 =
  map geometry <$> Ring.layout_from fuel cx cy placed l2.
Proof.
  revert placed l2. induction l1 as [|b1 l1 IH]; intros placed [|b2 l2] Hs;
    simpl in Hs; try discriminate; [reflexivity|].
  injection Hs as Hb Hs. simpl.
  pose proof (ring_place_sizes fuel cx cy placed b1 b2 Hb) as Hplace.
  destruct (Ring.place fuel cx cy placed b1) as [[p1 d1]|],
           (Ring.place fuel cx cy placed b2) as [[p2 d2]|];
    try contradiction; [|reflexivity].
  destruct Hplace as [Hg ->]. simpl.
  specialize (IH (placed ++ [d2]) l2 Hs).
  destruct (Ring.layout_from fuel cx cy (placed ++ [d2]) l1) as [o1|],
           (Ring.layout_from fuel cx cy (placed ++ [d2]) l2) as [o2|];
    simpl in IH |- *; try discriminate; [|reflexivity].
  injection IH as IH. now rewrite Hg, IH.
Qed.

Lemma layout_fuel_sizes l1 l2 :
  map b_size l1 = map b_size l2 -> Ring.layout_fuel l1 = Ring.layout_fuel l2.
Proof.
  intros Hs. unfold Ring.layout_fuel.
  change (map (fun b => Ring.rings_left (b_size b / 2 + 6)) l1)
    with (map (fun b => (fun s => Ring.rings_left (s / 2 + 6)) (b_size b)) l1).
  change (map (fun b => Ring.rings_left (b_size b / 2 + 6)) l2)
    with (map (fun b => (fun s => Ring.rings_left (s / 2 + 6)) (b_size b)) l2).
  rewrite <- !(map_map b_size (fun s => Ring.rings_left (s / 2 + 6))).
  now rewrite Hs.
Qed.

Lemma ring_layout_sizes l1 l2 W H off :
  map b_size l1 = map b_size l2 ->
  map geometry (Ring.layoutBubbles l1 W H off) =
  map geometry (Ring.layoutBubbles l2 W H off).
Proof.
  intros Hs.
  pose proof (layoutBubbles_from l1 W H off) as H1.
  pose proof (layoutBubbles_from l2 W H off) as H2.
  pose proof (ring_layout_from_sizes (Ring.layout_fuel l1) (W / 2) (H / 2 + off)
                [] l1 l2 Hs) as Heq.
  rewrite (layout_fuel_sizes _ _ Hs) in H1, Heq.
  rewrite H1, H2 in Heq. simpl in Heq. now injection Heq.
Qed.

Lemma spiral_overlaps_sizes placed1 placed2 px py r :
  map geometry placed1 = map geometry placed2 ->
  Spiral.overlaps placed1 px py r = Spiral.overlaps placed2 px py r.
Proof.
  revert placed2. induction placed1 as [|p1 l1 IH]; intros [|p2 l2] Hg;
    simpl in Hg; try discriminate; [reflexivity|].
  assert (Hp : geometry p1 = geometry p2) by congruence.
  assert (Hl : map geometry l1 = map geometry l2) by congruence.
  unfold Spiral.overlaps in *. simpl. rewrite (IH _ Hl).
  unfold geometry in Hp. injection Hp as _ _ Hcx Hcy Hsize.
  now rewrite Hcx, Hcy, Hsize.
Qed.

Lemma spiral_step_loop_sizes placed1 placed2 cx cy b1 b2 i n step :
  map geometry placed1 = map geometry placed2 -> b_size b1 = b_size b2 ->
  Spiral.step_loop placed1 cx cy b1 i n step =
  Spiral.step_loop placed2 cx cy b2 i n step.
Proof.
  intros Hg Hs. revert step. induction n as [|n IH]; intros step; simpl;
    [reflexivity|].
  rewrite Hs, (spiral_overlaps_sizes _ _ _ _ _ Hg), IH. reflexivity.
Qed.

Lemma spiral_place_sizes placed1 placed2 cx cy b1 b2 i :
  map geometry placed1 = map geometry placed2 -> b_size b1 = b_size b2 ->
  geometry (Spiral.place cx cy placed1 b1 i) =
  geometry (Spiral.place cx cy placed2 b2 i).
Proof.
  intros Hg Hs. unfold Spiral.place.
  rewrite (spiral_step_loop_sizes _ _ cx cy _ _ i 300 1 Hg Hs).
  unfold Spiral.fallback. rewrite Hs.
  destruct (Z.eqb i 0).
  - unfold geometry. simpl. now rewrite Hs.
  - destruct (match Spiral.step_loop placed2 cx cy b2 i 300 1 with
              | Some found => found
              | None => _
              end) as [px py].
    unfold geometry. simpl. now rewrite Hs.
Qed.

Lemma spiral_layout_from_sizes cx cy placed1 placed2 l1 l2 i :
  map geometry placed1 = map geometry placed2 ->
  map b_size l1 = map b_size l2 ->
  map geometry (Spiral.layout_from cx cy placed1 l1 i) =
  map geometry (Spiral.layout_from cx cy placed2 l2 i).
Proof.
  revert placed1 placed2 l2 i.
  induction l1 as [|b1 l1 IH]; intros placed1 placed2 [|b2 l2] i Hg Hs;
    simpl in Hs; try discriminate; [exact Hg|].
  injection Hs as Hb Hs. simpl. apply IH; [|exact Hs].
  rewrite !map_app. simpl.
  now rewrite Hg, (spiral_place_sizes _ _ cx cy _ _ i Hg Hb).
Qed.

(** X4 (only sizes are read).  The engines read nothing of a circle but
    its size.  Two inputs with the same sizes in the same order are laid
    out alike, box, centre and size, whatever their ids, timestamps,
    indices and colours. *)
Theorem layout_reads_only_sizes (l1 l2 : list Bubble) (W H off : Q) :
  map b_size l1 = map b_size l2 ->
  map geometry (Ring.layoutBubbles l1 W H off) =
    map geometry (Ring.layoutBubbles l2 W H off) /\
  map geometry (Spiral.layoutBubbles l1 W H) =
    map geometry (Spiral.layoutBubbles l2 W H).
Proof.
  intros Hs. split; [now apply ring_layout_sizes|].
  unfold Spiral.layoutBubbles.
  assert (Hlen : length l1 = length l2)
    by (rewrite <- (length_map b_size l1), Hs; apply length_map).
  rewrite Hlen. destruct (Nat.eqb (length l2) 0); [reflexivity|].
  now apply spiral_layout_from_sizes.
Qed.

End OnlySizes.

(** * The phyllotaxis layout *)

Section PhylloFacts.
Context `{M : MathLib}.

(** X5 (phyllotaxis).  In the phyllotaxis layout a circle's place is a
    matter of its own position in the input and its own size: the result
    has one element for each input circle, in order; the circles that
    come before or after have no part in where a circle lands, so
    appending circles moves none; and the first circle is centred 30
    above the middle. *)
Theorem phyllotaxis_by_position (bubbles : list Bubble) (W H : Q) :
  length (Phyllo.layoutBubbles bubbles W H) = length bubbles /\
  (forall i, Phyllo.layoutBubbles bubbles W H !! i =
             Phyllo.place (W / 2) (H / 2 - 30) i <$> bubbles !! i) /\
  (forall ext, take (length bubbles) (Phyllo.layoutBubbles (bubbles ++ ext) W H) =
               Phyllo.layoutBubbles bubbles W H) /\
  (forall b rest, bubbles = b :: rest ->
     exists s, Phyllo.layoutBubbles bubbles W H !! 0%nat = Some s /\
       Phyllo.s_bubble s = b /\
       Phyllo.s_x s = (W / 2 - b_size b / 2)%Q /\
       Phyllo.s_y s = (H / 2 - 30 - b_size b / 2)%Q).
Proof.
  assert (Hat : forall l i, Phyllo.layoutBubbles l W H !! i =
                  Phyllo.place (W / 2) (H / 2 - 30) i <$> l !! i).
  { intros l i. unfold Phyllo.layoutBubbles. destruct l as [|b l].
    - simpl. now rewrite lookup_nil.
    - cbn [length Nat.eqb]. apply list_lookup_imap. }
  assert (Hlen : forall l, length (Phyllo.layoutBubbles l W H) = length l).
  { intros l. unfold Phyllo.layoutBubbles. destruct l as [|b l]; [reflexivity|].
    cbn [length Nat.eqb]. now rewrite length_imap. }
  split; [apply Hlen|]. split; [apply Hat|]. split.
  - intros ext. apply list_eq. intros i. rewrite Hat.
    destruct (decide (i < length bubbles)%nat) as [Hlt|Hge].
    + rewrite lookup_take_lt by exact Hlt.
      now rewrite Hat, lookup_app_l.
    + rewrite lookup_take_ge by lia.
      now rewrite (lookup_ge_None_2 bubbles i) by lia.
  - intros b rest ->. rewrite Hat. simpl. eexists. split; [reflexivity|].
    simpl. auto.
Qed.

End PhylloFacts.

(** * The renderer: what else the code shows *)

Section MorePassFacts.
Import Render.
Variable reposition : Placed -> Anchor -> Anchor.
Variable create : Placed -> Anchor.
Hypothesis reposition_id : forall b n, a_id (reposition b n) = a_id n.
Hypothesis create_id : forall b, a_id (create b) = b_id (p_bubble b).

(** The removal loop over anchors that are all current. *)
Lemma remove_stale_keeps_all (cur : gset string) all known0 :
  (forall n, In n all -> a_id n ∈ cur) ->
  remove_stale cur all (mkPass [] known0 []) = mkPass all known0 [].
Proof.
  induction all as [|n rest IH]; intros Hall; simpl; [reflexivity|].
  rewrite bool_decide_eq_true_2 by (apply Hall; now left).
  rewrite IH by (intros m Hm; apply Hall; now right). reflexivity.
Qed.

(** The placement loop over placements none of which has an anchor. *)
Lemma render_all_new laid s :
  NoDup (laid_ids laid) ->
  (forall id, In id (laid_ids laid) -> ~ In id (map a_id (nodes s))) ->
  nodes (foldl (render_step reposition create) s laid) =
    nodes s ++ map create laid /\
  known (foldl (render_step reposition create) s laid) =
    list_to_set (laid_ids laid) ∪ known s /\
  ops (foldl (render_step reposition create) s laid) =
    ops s ++ map Created (laid_ids laid).
Proof.
  revert s. induction laid as [|b laid IH]; intros s Hnd Hnew.
  - simpl. rewrite !app_nil_r. split; [reflexivity|]. split; [|reflexivity].
    apply set_eq. set_solver.
  - simpl in Hnd. apply NoDup_cons in Hnd as [Hb Hnd].
    assert (Hq : querySelector (b_id (p_bubble b)) (nodes s) = None).
    { apply querySelector_None, Hnew. now left. }
    assert (Hstep : render_step reposition create s b =
                    mkPass (nodes s ++ [create b])
                           ({[b_id (p_bubble b)]} ∪ known s)
                           (ops s ++ [Created (b_id (p_bubble b))]))
      by (unfold render_step; now rewrite Hq).
    cbn [foldl]. rewrite Hstep.
    destruct (IH (mkPass (nodes s ++ [create b])
                         ({[b_id (p_bubble b)]} ∪ known s)
                         (ops s ++ [Created (b_id (p_bubble b))])) Hnd)
      as (Hn & Hk & Ho).
    { intros id Hid. simpl. rewrite map_app. simpl. rewrite create_id.
      intros Hin. apply in_app_or in Hin as [Hin|[<-|[]]].
      - apply (Hnew id); [now right|exact Hin].
      - apply Hb, list_elem_of_In, Hid. }
    rewrite Hn, Hk, Ho. simpl. rewrite <- !app_assoc. simpl.
    split; [reflexivity|]. split; [|reflexivity].
    apply set_eq. set_solver.
Qed.

(** A pass over anchors that are all current and cover the placements
    only updates; it needs no distinctness of the anchors. *)
Lemma pass_refresh (cur : gset string) laid all known0 :
  (forall n, In n all -> a_id n ∈ cur) ->
  (forall id, In id (laid_ids laid) -> In id (map a_id all)) ->
  let s := reconcile reposition create cur laid all known0 in
  ops s = map Updated (laid_ids laid) /\
  map a_id (nodes s) = map a_id all /\
  known s = known0.
Proof.
  intros Hcur Hcover s. unfold s, reconcile.
  rewrite (remove_stale_keeps_all _ _ _ Hcur).
  destruct (render_all_found _ create reposition_id laid (mkPass all known0 []))
    as (Hn & Hk & Ho); [exact Hcover|].
  rewrite Hn, Hk, Ho. auto.
Qed.

End MorePassFacts.

Section RenderShape.
Import Render.
Context `{M : MathLib}.

Lemma imap_sizes (f : nat -> Q) (l : list Bubble) :
  map b_size (imap (fun i b => with_size b (f i)) l) =
  map f (seq 0 (length l)).
Proof.
  revert f. induction l as [|b rest IH]; intros f; simpl; [reflexivity|].
  f_equal. etransitivity; [apply (IH (fun i => f (S i)))|].
  now rewrite <- seq_shift, map_map.
Qed.

Lemma layout_in_resized (g : Bubble -> Q) data cid el :
  layout_in (map (fun b => with_size b (g b)) data) cid el =
  layout_in data cid el.
Proof.
  unfold layout_in. f_equal.
  change (map (fun b => with_size b (g b)) data)
    with ((fun b => with_size b (g b)) <$> data).
  rewrite imap_fmap. apply imap_ext. intros i b _. reflexivity.
Qed.

(** X6 (sizes set by the renderer).  Whatever sizes the caller's bubbles
    carry, the placements, the operations on the visual tree, the
    document and the known-sets that a pass leaves are the same: a size
    comes from the bubble's position in the snapshot and from the
    container. *)
Theorem render_ignores_incoming_sizes (g : Bubble -> Q) (data : list Bubble)
    (cid : string) (st : State) :
  let data' := map (fun b => with_size b (g b)) data in
  (forall el, layout_in data' cid el = layout_in data cid el) /\
  snd (renderBubbles data' cid st) = snd (renderBubbles data cid st) /\
  document (fst (renderBubbles data' cid st)) =
    document (fst (renderBubbles data cid st)) /\
  renderedIds (fst (renderBubbles data' cid st)) =
    renderedIds (fst (renderBubbles data cid st)).
Proof.
  intros data'. split; [intros el; apply layout_in_resized|].
  destruct (document st !! cid) as [el|] eqn:Hel.
  - rewrite (renderBubbles_pass data' cid st el Hel),
            (renderBubbles_pass data cid st el Hel).
    unfold data'. rewrite layout_in_resized. simpl. auto.
  - unfold renderBubbles. rewrite Hel. auto.
Qed.

(** X7 (geometry by count).  In a container, the geometry of a pass is a
    matter of how many bubbles the snapshot has: two snapshots of the
    same length are laid out alike, box, centre and size. *)
Theorem render_layout_by_count (data1 data2 : list Bubble) (cid : string)
    (el : Container) :
  length data1 = length data2 ->
  map geometry (layout_in data1 cid el) = map geometry (layout_in data2 cid el).
Proof.
  intros Hlen. unfold layout_in. apply ring_layout_sizes.
  now rewrite !imap_sizes, Hlen.
Qed.

Lemma BASE_SIZES_from_76 i :
  (76 <= nth (i mod length BASE_SIZES) BASE_SIZES 0)%Q.
Proof.
  assert (Hall : Forall (fun s => 76 <= s)%Q BASE_SIZES).
  { unfold BASE_SIZES. repeat constructor; discriminate. }
  rewrite Forall_forall in Hall. apply Hall, list_elem_of_In, nth_In.
  apply Nat.mod_upper_bound. discriminate.
Qed.

Lemma Math_min_ge a b c : (c <= a)%Q -> (c <= b)%Q -> (c <= Math_min a b)%Q.
Proof. intros Ha Hb. unfold Math_min. now destruct (Qle_bool a b). Qed.

Lemma sizeForIndex_from_1 i scale :
  (6 <= 832 * scale)%Q -> (1 <= sizeForIndex i scale)%Q.
Proof.
  intros Hs. unfold sizeForIndex, Math_round.
  pose proof (BASE_SIZES_from_76 i) as Hb.
  set (base := nth (i mod length BASE_SIZES) BASE_SIZES 0%Q) in *.
  change 1%Q with (inject_Z 1). rewrite <- Zle_Qle.
  change (Qfloor 1 <= Qfloor (base * scale + (1 # 2)))%Z.
  apply Qfloor_resp_le.
  assert (H0 : (0 <= scale)%Q) by lra.
  assert (H1 : (76 * scale <= base * scale)%Q)
    by (apply Qmult_le_compat_r; assumption).
  lra.
Qed.

(** X8 (positive sizes).  In a container at least 6 wide and 6 high,
    every circle a pass lays out has a whole, positive diameter. *)
Theorem rendered_sizes_positive (data : list Bubble) (cid : string)
    (el : Container) :
  (6 <= containerW el)%Q -> (6 <= containerH el)%Q ->
  forall p, In p (layout_in data cid el) ->
    (1 <= b_size (p_bubble p))%Q /\
    exists z : Z, b_size (p_bubble p) = inject_Z z.
Proof.
  intros HW HH p Hp.
  assert (Hb : In (p_bubble p)
                 (imap (fun i b => with_size b
                    (sizeForIndex i (Math_min (containerW el) (containerH el) / 832)))
                    data)).
  { unfold layout_in in Hp. apply (in_map p_bubble) in Hp.
    now rewrite layoutBubbles_bubbles in Hp. }
  apply list_elem_of_In, elem_of_lookup_imap in Hb as (i & b & -> & _).
  simpl. split.
  - apply sizeForIndex_from_1.
    pose proof (Math_min_ge _ _ 6 HW HH) as Hmin.
    now rewrite Qmult_div_r.
  - eexists. reflexivity.
Qed.

(** What a pass of [renderBubbles] leaves in its container. *)
Lemma renderBubbles_result data cid st el :
  document st !! cid = Some el ->
  let laid := layout_in data cid el in
  let s := reconcile reposition create (list_to_set (laid_ids laid)) laid
             (anchors el) (known_of st cid) in
  snd (renderBubbles data cid st) = ops s /\
  document (fst (renderBubbles data cid st)) !! cid =
    Some (mkContainer (rect_width el) (rect_height el)
                      (offsetWidth el) (offsetHeight el) (nodes s)) /\
  known_of (fst (renderBubbles data cid st)) cid = known s.
Proof.
  intros Hel laid s. rewrite (renderBubbles_pass data cid st el Hel).
  cbn [fst snd].
  split; [reflexivity|]. split; [apply commit_container|apply commit_known].
Qed.

(** X9 (first pass).  The first pass into an empty container, over a
    snapshot of distinct [css_safe] ids, creates one anchor for each
    bubble, in the order of the snapshot, and nothing else happens. *)
Theorem first_pass_creates_all (data : list Bubble) (cid : string)
    (st : State) (el : Container) :
  document st !! cid = Some el -> anchors el = [] ->
  NoDup (map b_id data) -> css_safe_ids (map b_id data) = true ->
  let st' := fst (renderBubbles data cid st) in
  snd (renderBubbles data cid st) = map Created (map b_id data) /\
  anchor_ids st' cid = map b_id data /\
  (exists el', document st' !! cid = Some el' /\
     anchors el' = map create (layout_in data cid el)) /\
  known_of st' cid = list_to_set (map b_id data) ∪ known_of st cid.
Proof.
  intros Hel Hempty Hnd _ st'.
  destruct (renderBubbles_result data cid st el Hel) as (Hops & Hdoc & Hknown).
  fold st' in Hdoc, Hknown. rewrite Hempty in Hops, Hdoc, Hknown.
  unfold reconcile in Hops, Hdoc, Hknown. simpl in Hops, Hdoc, Hknown.
  destruct (render_all_new reposition create reposition_keeps_id create_gives_id
              (layout_in data cid el) (mkPass [] (known_of st cid) []))
    as (Hn & Hk & Ho).
  { now rewrite layout_in_ids. }
  { intros id _ []. }
  rewrite layout_in_ids in Hk, Ho. simpl in Hn, Hk, Ho.
  rewrite Hn in Hdoc. rewrite Hk in Hknown. rewrite Ho in Hops.
  split; [exact Hops|]. split.
  - rewrite (anchor_ids_of _ _ _ Hdoc). simpl. rewrite map_map.
    rewrite <- (layout_in_ids data cid el). reflexivity.
  - split; [|exact Hknown]. eexists. split; [exact Hdoc|reflexivity].
Qed.

Lemma reposition_shows b n :
  a_id n = b_id (p_bubble b) -> shows (reposition b n) b.
Proof.
  intros Hid. unfold shows, reposition. simpl.
  repeat (split; [first [exact Hid|reflexivity]|]).
  intros inner. unfold set_background. destruct (a_inner n); [|discriminate].
  intros [= <-]. reflexivity.
Qed.

(** With distinct ids among the placements, what the loop writes to an
    anchor is the placement of the anchor's id. *)
Lemma reposition_all_shows laid p n :
  NoDup (laid_ids laid) -> In p laid -> a_id n = b_id (p_bubble p) ->
  shows (reposition_all reposition laid n) p.
Proof.
  induction laid as [|b laid IH] using rev_ind; intros Hnd Hp Hid;
    [destruct Hp|].
  rewrite (reposition_all_snoc _ reposition_keeps_id).
  unfold laid_ids in Hnd. rewrite map_app in Hnd. simpl in Hnd.
  apply NoDup_app in Hnd as (Hnd & Hsep & _).
  apply in_app_or in Hp as [Hp|[<-|[]]].
  - destruct (String.eqb_spec (b_id (p_bubble b)) (a_id n)) as [E|_];
      [|now apply IH].
    exfalso. apply (Hsep (b_id (p_bubble p))).
    + apply list_elem_of_In. now apply (in_map (fun q => b_id (p_bubble q))).
    + rewrite <- Hid, <- E. now left.
  - rewrite Hid, String.eqb_refl. apply reposition_shows.
    now rewrite (reposition_all_id _ reposition_keeps_id).
Qed.

(** X10 (anchors show the layout).  With distinct [css_safe] ids in the
    snapshot and distinct ids among the anchors that were there, after a
    pass the container holds as many anchors as the snapshot has
    bubbles; every placement has its anchor, and every anchor its
    placement: the anchor's id, position and size are the placement's,
    and so is the colour of its inner element. *)
Theorem anchors_show_layout (data : list Bubble) (cid : string) (st : State)
    (el : Container) :
  document st !! cid = Some el -> distinct st cid ->
  NoDup (map b_id data) -> css_safe_ids (map b_id data) = true ->
  exists el',
    document (fst (renderBubbles data cid st)) !! cid = Some el' /\
    length (anchors el') = length data /\
    (forall p, In p (layout_in data cid el) ->
       exists n, In n (anchors el') /\ shows n p) /\
    (forall n, In n (anchors el') ->
       exists p, In p (layout_in data cid el) /\ shows n p).
Proof.
  intros Hel Hdist Hnd _.
  destruct (renderBubbles_result data cid st el Hel) as (_ & Hdoc & _).
  set (laid := layout_in data cid el) in *.
  set (cur := list_to_set (laid_ids laid) : gset string) in *.
  set (s := reconcile reposition create cur laid (anchors el) (known_of st cid))
    in *.
  assert (Hlaid : NoDup (laid_ids laid))
    by (unfold laid; now rewrite layout_in_ids).
  assert (Hall : NoDup (map a_id (anchors el))).
  { unfold distinct in Hdist. now rewrite (anchor_ids_of _ _ _ Hel) in Hdist. }
  assert (Hs0 : NoDup (map a_id (nodes
                 (remove_stale cur (anchors el) (mkPass [] (known_of st cid) []))))).
  { rewrite remove_stale_nodes. simpl. rewrite app_nil_r.
    now apply filter_ids_NoDup. }
  assert (Hfix : forall n, In n (nodes s) -> reposition_all reposition laid n = n).
  { intros n Hn. unfold s, reconcile in Hn.
    exact (render_settles _ _ reposition_keeps_id create_gives_id
             reposition_absorbs reposition_create laid _ Hs0 n Hn). }
  assert (Hids : forall id, In id (map a_id (nodes s)) <-> In id (laid_ids laid))
    by (intros id; apply (pass_anchor_ids _ _ reposition_keeps_id create_gives_id)).
  eexists. split; [exact Hdoc|]. simpl. split; [|split].
  - rewrite <- (length_map a_id (nodes s)).
    rewrite <- (length_map b_id data), <- (layout_in_ids data cid el).
    fold laid. apply Permutation_length, NoDup_Permutation.
    + now apply (pass_NoDup _ _ reposition_keeps_id create_gives_id).
    + exact Hlaid.
    + intros id. rewrite !list_elem_of_In. apply Hids.
  - intros p Hp.
    assert (Hin : In (b_id (p_bubble p)) (map a_id (nodes s))).
    { apply Hids. now apply (in_map (fun q => b_id (p_bubble q))). }
    apply in_map_iff in Hin as (n & Hid & Hn). exists n. split; [exact Hn|].
    rewrite <- (Hfix n Hn). now apply reposition_all_shows.
  - intros n Hn.
    assert (Hin : In (a_id n) (laid_ids laid))
      by (apply Hids; now apply in_map).
    apply in_map_iff in Hin as (p & Hid & Hp). exists p. split; [exact Hp|].
    rewrite <- (Hfix n Hn). now apply reposition_all_shows.
Qed.

(** The layout of a snapshot with one more bubble: the layout of the
    snapshot, then the placement of the new bubble. *)
Lemma layout_in_snoc data c cid el :
  exists pc,
    layout_in (data ++ [c]) cid el = layout_in data cid el ++ [pc] /\
    b_id (p_bubble pc) = b_id c.
Proof.
  set (laid2 := layout_in (data ++ [c]) cid el).
  assert (Htake : take (length data) laid2 = layout_in data cid el).
  { unfold laid2, layout_in. rewrite imap_app.
    set (f := fun i b => with_size b
                (sizeForIndex i (Math_min (containerW el) (containerH el) / 832))).
    rewrite <- (length_imap f data) at 1. apply layout_prefix. }
  assert (Hlen : length laid2 = S (length data)).
  { unfold laid2, layout_in. rewrite layoutBubbles_length, length_imap,
      length_app. simpl. lia. }
  pose proof (take_drop (length data) laid2) as Hsplit.
  assert (Hdrop : length (drop (length data) laid2) = 1%nat)
    by (rewrite length_drop; lia).
  destruct (drop (length data) laid2) as [|pc [|? ?]]; try discriminate.
  exists pc. rewrite Htake in Hsplit. split; [now symmetry|].
  pose proof (layout_in_ids (data ++ [c]) cid el) as Hids. fold laid2 in Hids.
  rewrite <- Hsplit in Hids. unfold laid_ids in Hids.
  rewrite !map_app in Hids. simpl in Hids.
  fold (laid_ids (layout_in data cid el)) in Hids.
  rewrite layout_in_ids in Hids. now apply app_inj_tail in Hids as [_ ?].
Qed.

(** X11 (append).  A bubble appended to the snapshot, all ids
    [css_safe]: the next pass creates its anchor, at the end, and only
    updates the others; with distinct ids, every anchor that was there
    is left exactly as it was, position, size and colour. *)
Theorem append_creates_only_new (data : list Bubble) (c : Bubble)
    (cid : string) (st : State) (el : Container) :
  document st !! cid = Some el -> distinct st cid ->
  NoDup (map b_id (data ++ [c])) ->
  css_safe_ids (map b_id (data ++ [c])) = true ->
  let st1 := fst (renderBubbles data cid st) in
  let st2 := fst (renderBubbles (data ++ [c]) cid st1) in
  snd (renderBubbles (data ++ [c]) cid st1) =
    map Updated (map b_id data) ++ [Created (b_id c)] /\
  exists el1 el2 a,
    document st1 !! cid = Some el1 /\ document st2 !! cid = Some el2 /\
    anchors el2 = anchors el1 ++ [a] /\ a_id a = b_id c /\
    known_of st2 cid = {[b_id c]} ∪ known_of st1 cid.
Proof.
  intros Hel Hdist Hnd _ st1 st2.
  destruct (renderBubbles_result data cid st el Hel) as (_ & Hdoc1 & Hk1).
  fold st1 in Hdoc1, Hk1.
  set (laid := layout_in data cid el) in *.
  set (cur := list_to_set (laid_ids laid) : gset string) in *.
  set (s1 := reconcile reposition create cur laid (anchors el) (known_of st cid))
    in *.
  set (el1 := mkContainer (rect_width el) (rect_height el) (offsetWidth el)
                (offsetHeight el) (nodes s1)) in *.
  destruct (renderBubbles_result (data ++ [c]) cid st1 el1 Hdoc1)
    as (Hops2 & Hdoc2 & Hk2).
  fold st2 in Hdoc2, Hk2.
  destruct (layout_in_snoc data c cid el) as (pc & Hsplit & Hpc).
  change (layout_in (data ++ [c]) cid el1) with (layout_in (data ++ [c]) cid el)
    in Hops2, Hdoc2, Hk2.
  fold laid in Hsplit. rewrite Hsplit in Hops2, Hdoc2, Hk2.
  set (cur2 := list_to_set (laid_ids (laid ++ [pc])) : gset string) in *.
  cbn [anchors rect_width rect_height offsetWidth offsetHeight el1]
    in Hops2, Hdoc2, Hk2.
  rewrite Hk1 in Hops2, Hdoc2, Hk2.
  assert (Hall : NoDup (map a_id (anchors el))).
  { unfold distinct in Hdist. now rewrite (anchor_ids_of _ _ _ Hel) in Hdist. }
  assert (Hids : forall id, In id (map a_id (nodes s1)) <-> In id (laid_ids laid))
    by (intros id; apply (pass_anchor_ids _ _ reposition_keeps_id create_gives_id)).
  assert (Hkeep1 : forall n, In n (nodes s1) -> a_id n ∈ cur).
  { intros n Hn. apply elem_of_list_to_set, list_elem_of_In, Hids.
    now apply in_map. }
  assert (Hkeep2 : forall n, In n (nodes s1) -> a_id n ∈ cur2).
  { intros n Hn. apply elem_of_list_to_set, list_elem_of_In.
    unfold laid_ids. rewrite map_app. apply in_or_app. left.
    apply Hids. now apply in_map. }
  (* the second pass, up to the new bubble, is a repeated pass *)
  assert (Hsame :
    foldl (render_step reposition create)
      (remove_stale cur2 (nodes s1) (mkPass [] (known s1) [])) laid =
    reconcile reposition create cur laid (nodes s1) (known s1)).
  { unfold reconcile.
    now rewrite (remove_stale_keeps_all _ _ _ Hkeep1),
                (remove_stale_keeps_all _ _ _ Hkeep2). }
  destruct (pass_again _ _ reposition_keeps_id create_gives_id laid (anchors el)
              (known_of st cid)) as (Ho & _ & Hk).
  pose proof (pass_again_nodes _ _ reposition_keeps_id create_gives_id
                reposition_absorbs reposition_create laid (anchors el)
                (known_of st cid) Hall) as Hn.
  cbv zeta in Ho, Hk, Hn. fold cur in Ho, Hk, Hn. fold s1 in Ho, Hk, Hn.
  set (s2 := reconcile reposition create cur laid (nodes s1) (known s1)) in *.
  assert (Hnew : querySelector (b_id (p_bubble pc)) (nodes s2) = None).
  { apply querySelector_None. rewrite Hn, Hpc. intros Hin.
    apply Hids in Hin. unfold laid in Hin. rewrite layout_in_ids in Hin.
    rewrite map_app in Hnd. apply NoDup_app in Hnd as (_ & Hsep & _).
    apply (Hsep (b_id c)); [now apply list_elem_of_In|]. now left. }
  unfold reconcile in Hops2, Hdoc2, Hk2.
  rewrite foldl_app, Hsame in Hops2, Hdoc2, Hk2.
  simpl in Hops2, Hdoc2, Hk2. unfold render_step in Hops2, Hdoc2, Hk2.
  rewrite Hnew in Hops2, Hdoc2, Hk2. simpl in Hops2, Hdoc2, Hk2.
  rewrite Ho, Hpc in Hops2. rewrite Hn in Hdoc2. rewrite Hk, Hpc in Hk2.
  split.
  - rewrite Hops2. unfold laid. now rewrite layout_in_ids.
  - eexists el1, _, (create pc). split; [exact Hdoc1|].
    split; [exact Hdoc2|]. simpl. split; [reflexivity|].
    split; [exact Hpc|]. rewrite Hk1. exact Hk2.
Qed.

(** A pass leaves every other container as it was. *)
Lemma renderBubbles_elsewhere data cid st cid' :
  cid <> cid' ->
  document (fst (renderBubbles data cid st)) !! cid' = document st !! cid' /\
  renderedIds (fst (renderBubbles data cid st)) !! cid' =
    renderedIds st !! cid' /\
  lastData (fst (renderBubbles data cid st)) !! cid' = lastData st !! cid'.
Proof.
  intros Hne. unfold renderBubbles.
  destruct (document st !! cid) as [el|]; simpl; [|auto].
  now rewrite !lookup_insert_ne by exact Hne.
Qed.

(** X12 (containers do not interfere).  A pass leaves every other
    container, its known-set and its cached snapshot as they were, it
    performs the operations it would have performed had the other pass
    not run, and two passes on different containers reach the same
    state in either order. *)
Theorem renders_commute (data1 data2 : list Bubble) (cid1 cid2 : string)
    (st : State) :
  cid1 <> cid2 ->
  let r1 := renderBubbles data1 cid1 st in
  let r2 := renderBubbles data2 cid2 st in
  document (fst r1) !! cid2 = document st !! cid2 /\
  renderedIds (fst r1) !! cid2 = renderedIds st !! cid2 /\
  lastData (fst r1) !! cid2 = lastData st !! cid2 /\
  snd (renderBubbles data2 cid2 (fst r1)) = snd r2 /\
  fst (renderBubbles data2 cid2 (fst r1)) =
  fst (renderBubbles data1 cid1 (fst r2)).
Proof.
  intros Hne r1 r2. unfold r1, r2, renderBubbles, known_of.
  destruct (document st !! cid1) as [el1|] eqn:H1,
           (document st !! cid2) as [el2|] eqn:H2; simpl;
    rewrite ?lookup_insert_ne, ?H1, ?H2 by congruence; simpl;
    rewrite ?lookup_insert_ne, ?H1, ?H2 by congruence; auto.
  repeat split. unfold commit. simpl.
  f_equal; apply insert_insert_ne; congruence.
Qed.

End RenderShape.

Section RemoveLast.
Import Render.
Context `{M : MathLib}.

Lemma filter_ext_in (P Q : Anchor -> Prop) `{!forall n, Decision (P n)}
    `{!forall n, Decision (Q n)} (l : list Anchor) :
  (forall n, In n l -> P n <-> Q n) -> filter P l = filter Q l.
Proof.
  induction l as [|n l IH]; intros Hl; [reflexivity|].
  rewrite !filter_cons.
  rewrite IH by (intros m Hm; apply Hl; now right).
  destruct (decide (P n)) as [Hp|Hp], (decide (Q n)) as [Hq|Hq];
    try reflexivity.
  - exfalso. apply Hq, (Hl n (or_introl eq_refl)), Hp.
  - exfalso. apply Hp, (Hl n (or_introl eq_refl)), Hq.
Qed.

(** X13 (removal of the last).  The last bubble of a snapshot of
    [css_safe] ids taken away: the next pass removes its anchor and only
    updates the others; with distinct ids, every other anchor is left
    exactly as it was, position, size and colour. *)
Theorem remove_last_keeps_others (data : list Bubble) (c : Bubble)
    (cid : string) (st : State) (el : Container) :
  document st !! cid = Some el -> distinct st cid ->
  NoDup (map b_id (data ++ [c])) ->
  css_safe_ids (map b_id (data ++ [c])) = true ->
  let st1 := fst (renderBubbles (data ++ [c]) cid st) in
  let st2 := fst (renderBubbles data cid st1) in
  snd (renderBubbles data cid st1) =
    Removed (b_id c) :: map Updated (map b_id data) /\
  exists el1 el2,
    document st1 !! cid = Some el1 /\ document st2 !! cid = Some el2 /\
    anchors el2 = filter (fun n => a_id n <> b_id c) (anchors el1).
Proof.
  intros Hel Hdist Hnd _ st1 st2.
  destruct (renderBubbles_result (data ++ [c]) cid st el Hel) as (_ & Hdoc1 & Hk1).
  fold st1 in Hdoc1, Hk1.
  destruct (layout_in_snoc data c cid el) as (pc & Hsplit & Hpc).
  set (laid := layout_in data cid el) in *.
  rewrite Hsplit in Hdoc1, Hk1.
  set (cur1 := list_to_set (laid_ids (laid ++ [pc])) : gset string) in *.
  set (s1 := reconcile reposition create cur1 (laid ++ [pc]) (anchors el)
               (known_of st cid)) in *.
  set (el1 := mkContainer (rect_width el) (rect_height el) (offsetWidth el)
                (offsetHeight el) (nodes s1)) in *.
  destruct (renderBubbles_result data cid st1 el1 Hdoc1) as (Hops2 & Hdoc2 & _).
  fold st2 in Hdoc2.
  change (layout_in data cid el1) with laid in Hops2, Hdoc2.
  set (cur := list_to_set (laid_ids laid) : gset string) in *.
  cbn [anchors rect_width rect_height offsetWidth offsetHeight el1]
    in Hops2, Hdoc2.
  rewrite Hk1 in Hops2, Hdoc2.
  assert (Hlaid : laid_ids laid = map b_id data)
    by (unfold laid; apply layout_in_ids).
  assert (Hall : NoDup (map a_id (anchors el))).
  { unfold distinct in Hdist. now rewrite (anchor_ids_of _ _ _ Hel) in Hdist. }
  assert (Hnd1 : NoDup (map a_id (nodes s1)))
    by now apply (pass_NoDup _ _ reposition_keeps_id create_gives_id).
  assert (Hids1 : forall id, In id (map a_id (nodes s1)) <->
                    In id (laid_ids (laid ++ [pc])))
    by (intros id; apply (pass_anchor_ids _ _ reposition_keeps_id create_gives_id)).
  assert (Hids1' : forall id, In id (map a_id (nodes s1)) <->
                     In id (map b_id data) \/ id = b_id c).
  { intros id. rewrite Hids1. unfold laid_ids. rewrite map_app, in_app_iff.
    fold (laid_ids laid). rewrite Hlaid. simpl. rewrite Hpc. intuition. }
  assert (Hc : ~ In (b_id c) (map b_id data)).
  { rewrite map_app in Hnd. apply NoDup_app in Hnd as (_ & Hsep & _).
    intros Hin. apply (Hsep (b_id c)); [now apply list_elem_of_In|now left]. }
  assert (Hcur : forall n, In n (nodes s1) -> a_id n ∈ cur <-> a_id n <> b_id c).
  { intros n Hn. unfold cur. rewrite elem_of_list_to_set, list_elem_of_In, Hlaid.
    assert (Hin : In (a_id n) (map a_id (nodes s1))) by now apply in_map.
    apply Hids1' in Hin. split.
    - intros Hd E. apply Hc. now rewrite <- E.
    - intros Hne. destruct Hin as [Hin|Hin]; [exact Hin|contradiction]. }
  assert (Hkept : filter (fun n => a_id n ∈ cur) (nodes s1) =
                  filter (fun n => a_id n <> b_id c) (nodes s1))
    by (apply filter_ext_in; exact Hcur).
  assert (Hkept_nd : NoDup (map a_id (filter (fun n => a_id n ∈ cur) (nodes s1))))
    by now apply filter_ids_NoDup.
  assert (Hstale : map a_id (filter (fun n => a_id n ∉ cur) (nodes s1)) = [b_id c]).
  { apply Permutation_singleton_r, NoDup_Permutation.
    - now apply filter_ids_NoDup.
    - apply NoDup_singleton.
    - intros id. rewrite list_elem_of_In, stale_ids, Hids1', list_elem_of_singleton.
      unfold cur. rewrite elem_of_list_to_set, list_elem_of_In, Hlaid.
      split; [tauto|]. intros ->. tauto. }
  assert (Hcover : forall id, In id (laid_ids laid) ->
            In id (map a_id (filter (fun n => a_id n ∈ cur) (nodes s1)))).
  { intros id Hid. apply kept_ids. split.
    - apply Hids1'. left. now rewrite <- Hlaid.
    - now apply elem_of_list_to_set, list_elem_of_In. }
  set (r := remove_stale cur (nodes s1) (mkPass [] (known s1) [])) in *.
  assert (Hrn : nodes r = filter (fun n => a_id n ∈ cur) (nodes s1))
    by (unfold r; rewrite remove_stale_nodes; apply app_nil_r).
  assert (Hro : ops r = [Removed (b_id c)])
    by (unfold r; rewrite remove_stale_ops, Hstale; reflexivity).
  destruct (render_all_found _ create reposition_keeps_id laid r) as (_ & _ & Ho).
  { now rewrite Hrn. }
  pose proof (render_all_found_nodes _ create reposition_keeps_id laid r) as Hn.
  rewrite Hrn in Hn. specialize (Hn Hkept_nd Hcover).
  unfold reconcile in Hops2, Hdoc2. fold r in Hops2, Hdoc2.
  rewrite Ho, Hro, Hlaid in Hops2. rewrite Hn in Hdoc2.
  split; [exact Hops2|].
  exists el1, (mkContainer (rect_width el) (rect_height el) (offsetWidth el)
                 (offsetHeight el)
                 (map (reposition_all reposition laid)
                    (filter (fun n => a_id n ∈ cur) (nodes s1)))).
  split; [exact Hdoc1|]. split; [exact Hdoc2|].
  cbn [anchors el1]. rewrite <- Hkept.
  etransitivity; [|apply map_id]. apply map_ext_in. intros n Hn'.
  assert (Hn1 : In n (nodes s1)).
  { apply list_elem_of_In, list_elem_of_filter in Hn' as [_ Hn'].
    now apply list_elem_of_In. }
  assert (Hne : a_id n <> b_id c).
  { apply Hcur; [exact Hn1|].
    now apply list_elem_of_In, list_elem_of_filter in Hn' as [Hn' _]. }
  assert (Hs0 : NoDup (map a_id (nodes
                 (remove_stale cur1 (anchors el) (mkPass [] (known_of st cid) []))))).
  { rewrite remove_stale_nodes. simpl. rewrite app_nil_r.
    now apply filter_ids_NoDup. }
  pose proof (render_settles _ _ reposition_keeps_id create_gives_id
                reposition_absorbs reposition_create (laid ++ [pc]) _ Hs0 n Hn1)
    as Hfix.
  rewrite (reposition_all_snoc _ reposition_keeps_id) in Hfix.
  destruct (String.eqb_spec (b_id (p_bubble pc)) (a_id n)) as [E|_];
    [|exact Hfix].
  exfalso. apply Hne. now rewrite <- E.
Qed.

End RemoveLast.

Section TraceFacts.
Import Render.
Variable reposition : Placed -> Anchor -> Anchor.
Variable create : Placed -> Anchor.
Hypothesis reposition_id : forall b n, a_id (reposition b n) = a_id n.
Hypothesis create_id : forall b, a_id (create b) = b_id (p_bubble b).

(** The placement loop updates the ids that have an anchor and creates
    the others. *)
Lemma render_trace laid s :
  NoDup (laid_ids laid) ->
  ops (foldl (render_step reposition create) s laid) =
  ops s ++
  map (fun id => if bool_decide (id ∈ map a_id (nodes s))
                 then Updated id else Created id) (laid_ids laid).
Proof.
  revert s. induction laid as [|b laid IH]; intros s Hnd.
  - simpl. now rewrite app_nil_r.
  - simpl in Hnd. apply NoDup_cons in Hnd as [Hb Hnd]. cbn [foldl].
    rewrite (IH _ Hnd). simpl.
    destruct (decide (b_id (p_bubble b) ∈ map a_id (nodes s))) as [Hin|Hout].
    + rewrite (bool_decide_eq_true_2 _ Hin).
      destruct (render_step_found reposition create reposition_id s b)
        as (Hn & _ & Ho); [now apply list_elem_of_In|].
      rewrite Hn, Ho, <- app_assoc. reflexivity.
    + rewrite (bool_decide_eq_false_2 _ Hout).
      destruct (render_step_new reposition create create_id s b)
        as (Hn & _ & Ho); [now rewrite <- list_elem_of_In|].
      rewrite Hn, Ho, <- app_assoc. simpl. do 2 f_equal.
      apply map_ext_in. intros id Hid. apply list_elem_of_In in Hid.
      rewrite (bool_decide_ext (id ∈ map a_id (nodes s) ++ [b_id (p_bubble b)])
                 (id ∈ map a_id (nodes s))); [reflexivity|].
      rewrite elem_of_app, list_elem_of_singleton.
      split; [|tauto]. intros [H|E]; [exact H|subst id; contradiction].
Qed.

Lemma stale_ids_filter (ids : list string) (all : list Anchor) :
  map a_id (filter (fun n => a_id n ∉ (list_to_set ids : gset string)) all) =
  filter (fun id => id ∉ ids) (map a_id all).
Proof.
  induction all as [|n all IH]; [reflexivity|].
  simpl map. rewrite !filter_cons.
  destruct (decide (a_id n ∉ (list_to_set ids : gset string))) as [H|H],
           (decide (a_id n ∉ ids)) as [H'|H'];
    rewrite elem_of_list_to_set in H; try contradiction;
    simpl; now rewrite IH.
Qed.

(** The operations of a whole pass, read off the ids. *)
Lemma pass_trace_ops laid all known0 :
  NoDup (laid_ids laid) ->
  ops (reconcile reposition create (list_to_set (laid_ids laid)) laid all known0) =
  pass_trace (map a_id all) (laid_ids laid).
Proof.
  intros Hnd. unfold reconcile, pass_trace.
  rewrite (render_trace _ _ Hnd), remove_stale_ops, remove_stale_nodes.
  simpl. rewrite app_nil_r, stale_ids_filter. f_equal.
  apply map_ext_in. intros id Hid.
  rewrite (bool_decide_ext
             (id ∈ map a_id (filter (fun n => a_id n ∈
                (list_to_set (laid_ids laid) : gset string)) all))
             (id ∈ map a_id all)); [reflexivity|].
  rewrite !list_elem_of_In, kept_ids, elem_of_list_to_set, list_elem_of_In.
  tauto.
Qed.

End TraceFacts.

Section RenderTrace.
Import Render.
Context `{M : MathLib}.

(** X14 (the operations of a pass).  On a snapshot with distinct
    [css_safe] ids a pass performs these operations and no others: first
    it removes, in document order, every anchor whose id the snapshot
    lacks; then, in the order of the snapshot, it updates each bubble
    that has an anchor and creates each bubble that has none.  An empty
    snapshot empties the container. *)
Theorem pass_operations (data : list Bubble) (cid : string) (st : State) :
  is_Some (document st !! cid) -> NoDup (map b_id data) ->
  css_safe_ids (map b_id data) = true ->
  snd (renderBubbles data cid st) =
    pass_trace (anchor_ids st cid) (map b_id data) /\
  (data = [] -> anchor_ids (fst (renderBubbles data cid st)) cid = []).
Proof.
  intros [el Hel] Hnd _. split.
  - rewrite (renderBubbles_pass data cid st el Hel). cbn [snd].
    rewrite (pass_trace_ops _ _ reposition_keeps_id create_gives_id);
      rewrite layout_in_ids; [|exact Hnd].
    now rewrite (anchor_ids_of _ _ _ Hel).
  - intros ->.
    destruct (anchor_ids (fst (renderBubbles [] cid st)) cid) as [|id l] eqn:E;
      [reflexivity|].
    exfalso.
    apply (proj1 (renderBubbles_anchor_ids [] cid st id (ex_intro _ el Hel))).
    rewrite E. now left.
Qed.

End RenderTrace.

(** * Time of day *)

Section PeriodFacts.
Import Period.

(** The seven names [getPeriod] can return. *)
Lemma getPeriod_cases h :
  getPeriod h = "early-morning" \/ getPeriod h = "morning" \/
  getPeriod h = "midday" \/ getPeriod h = "afternoon" \/
  getPeriod h = "evening" \/ getPeriod h = "dusk" \/ getPeriod h = "night".
Proof.
  unfold getPeriod.
  repeat match goal with
         | |- context [if ?c then _ else _] => destruct c
         end; tauto.
Qed.

Ltac by_period h :=
  let E := fresh "E" in
  destruct (getPeriod_cases h) as [E|[E|[E|[E|[E|[E|E]]]]]]; rewrite E; clear E.

Lemma period_lookups h :
  is_Some (PERIOD_META !! getPeriod h) /\ is_Some (skies !! getPeriod h).
Proof. by_period h; split; vm_compute; eauto. Qed.

Lemma gradient_total ts now : is_Some (bubbleGradientFromTimestamp ts now).
Proof. unfold bubbleGradientFromTimestamp. apply fmap_is_Some, period_lookups. Qed.

(** X15 (no missing period).  Every period [getPeriod] returns, for any
    number whatever, is a key of [PERIOD_META] and of [skies]: the
    colour of a bubble, the darkness of the period and the sky are
    defined at every time. *)
Theorem period_tables_total :
  (forall h, is_Some (PERIOD_META !! getPeriod h) /\
             is_Some (skies !! getPeriod h)) /\
  (forall ts now, is_Some (bubbleGradientFromTimestamp ts now)) /\
  (forall now, is_Some (bubbleIsDarkNow now) /\ is_Some (skyGradientNow now)).
Proof.
  split; [exact period_lookups|]. split; [exact gradient_total|].
  intros now. unfold bubbleIsDarkNow, skyGradientNow. split.
  - apply fmap_is_Some, period_lookups.
  - apply period_lookups.
Qed.

(** X16 (colour tells the period).  Two hours get the same gradient
    exactly when they fall in the same period, and likewise for the
    sky. *)
Theorem gradient_identifies_period (h1 h2 : Z) :
  (m_gradient <$> PERIOD_META !! getPeriod h1 =
   m_gradient <$> PERIOD_META !! getPeriod h2 <->
   getPeriod h1 = getPeriod h2) /\
  (skies !! getPeriod h1 = skies !! getPeriod h2 <->
   getPeriod h1 = getPeriod h2).
Proof.
  split; (split; [|now intros ->]);
    by_period h1; by_period h2; vm_compute; intros H;
    first [reflexivity|discriminate H].
Qed.

(** X17 (labels).  The label a bubble shows is the name of its period
    with the hyphen replaced: it never holds a hyphen, and it still
    tells the periods apart. *)
Theorem time_label_has_no_hyphen (ts1 ts2 : option Z) (now : Z) :
  occurs "-" (timeLabel ts1 now) = false /\
  (timeLabel ts1 now = timeLabel ts2 now <->
   getPeriod (getHours (dateOf ts1 now)) = getPeriod (getHours (dateOf ts2 now))).
Proof.
  unfold timeLabel. split.
  - by_period (getHours (dateOf ts1 now)); reflexivity.
  - split; [|now intros ->].
    by_period (getHours (dateOf ts1 now));
      by_period (getHours (dateOf ts2 now)); vm_compute; intros H;
      first [reflexivity|discriminate H].
Qed.

(** X18 (first palette).  In the first palette the label decides the
    colour, not the other way round: two hours have the same gradient
    exactly when they have the same label or are both in "midday" or
    "sunset", which share one. *)
Theorem hourly_label_decides_gradient (h1 h2 : Z) :
  Hourly.gradientOfHour h1 = Hourly.gradientOfHour h2 <->
  Hourly.labelOfHour h1 = Hourly.labelOfHour h2 \/
  ((Hourly.labelOfHour h1 = "midday" \/ Hourly.labelOfHour h1 = "sunset") /\
   (Hourly.labelOfHour h2 = "midday" \/ Hourly.labelOfHour h2 = "sunset")).
Proof.
  unfold Hourly.gradientOfHour, Hourly.labelOfHour.
  repeat match goal with
         | |- context [if ?c then _ else _] => destruct c
         end;
    (split;
     [intros H;
      first [left; reflexivity
            |right; split; first [left; reflexivity|right; reflexivity]
            |discriminate H]
     |intros [H|[[H|H] [H'|H']]];
      first [reflexivity|discriminate H|discriminate H']]).
Qed.

End PeriodFacts.

(** * Sizes *)

Section SizeFacts.
Import Render.

Lemma mod_12_cases (P : nat -> Prop) :
  P 0%nat -> P 1%nat -> P 2%nat -> P 3%nat -> P 4%nat -> P 5%nat ->
  P 6%nat -> P 7%nat -> P 8%nat -> P 9%nat -> P 10%nat -> P 11%nat ->
  forall i, P (i mod 12)%nat.
Proof.
  intros H0 H1 H2 H3 H4 H5 H6 H7 H8 H9 H10 H11 i.
  pose proof (Nat.mod_upper_bound i 12) as Hlt.
  destruct (i mod 12)%nat as [|[|[|[|[|[|[|[|[|[|[|[|k]]]]]]]]]]]];
    try assumption.
  lia.
Qed.

Lemma sizeForIndex_default i :
  sizeForIndex i 1 = Phyllo.sizeForIndex i /\
  In (sizeForIndex i 1) BASE_SIZES /\
  (76 <= sizeForIndex i 1)%Q /\ (sizeForIndex i 1 <= 130)%Q.
Proof.
  unfold sizeForIndex, Phyllo.sizeForIndex. simpl length.
  apply (mod_12_cases (fun k =>
    inject_Z (Math_round (nth k BASE_SIZES 0%Q * 1)) = nth k Phyllo.SIZES 0%Q /\
    In (inject_Z (Math_round (nth k BASE_SIZES 0%Q * 1))) BASE_SIZES /\
    (76 <= inject_Z (Math_round (nth k BASE_SIZES 0%Q * 1)))%Q /\
    (inject_Z (Math_round (nth k BASE_SIZES 0%Q * 1)) <= 130)%Q));
    (split; [reflexivity|split; [vm_compute; tauto|split; discriminate]]).
Qed.

(** X19 (sizes).  Sizes repeat every twelve bubbles, at any scale.  At
    scale 1, the default, [sizeForIndex] is the table lookup of the
    first renderers: rounding changes nothing, and a size is one of the
    twelve base sizes, from 76 to 130. *)
Theorem size_palette (i : nat) (scale : Q) :
  sizeForIndex (i + 12) scale = sizeForIndex i scale /\
  sizeForIndex i 1 = Phyllo.sizeForIndex i /\
  In (sizeForIndex i 1) BASE_SIZES /\
  (76 <= sizeForIndex i 1)%Q /\ (sizeForIndex i 1 <= 130)%Q.
Proof.
  split; [|apply sizeForIndex_default].
  unfold sizeForIndex. simpl length.
  now rewrite <- (Nat.Div0.mod_add i 1 12).
Qed.

End SizeFacts.

Section SizeGrowth.
Import Render.
Context `{M : MathLib}.

Lemma Math_min_mono a b c d :
  (a <= c)%Q -> (b <= d)%Q -> (Math_min a b <= Math_min c d)%Q.
Proof.
  intros Hac Hbd. unfold Math_min.
  destruct (Qle_bool a b) eqn:E1, (Qle_bool c d) eqn:E2;
    try apply Qle_bool_iff in E1; try apply Qle_bool_iff in E2;
    try apply leb_false_lt in E1; try apply leb_false_lt in E2; lra.
Qed.

Lemma BASE_SIZES_nonneg i :
  (0 <= nth (i mod length BASE_SIZES) BASE_SIZES 0)%Q.
Proof.
  assert (Hall : Forall (fun s => 0 <= s)%Q BASE_SIZES).
  { unfold BASE_SIZES. repeat constructor; discriminate. }
  rewrite Forall_forall in Hall. apply Hall, list_elem_of_In, nth_In.
  apply Nat.mod_upper_bound. discriminate.
Qed.

Lemma sizeForIndex_mono i scale1 scale2 :
  (scale1 <= scale2)%Q -> (sizeForIndex i scale1 <= sizeForIndex i scale2)%Q.
Proof.
  intros Hs. unfold sizeForIndex, Math_round. rewrite <- Zle_Qle.
  apply Qfloor_resp_le.
  pose proof (BASE_SIZES_nonneg i) as Hb.
  set (base := nth (i mod length BASE_SIZES) BASE_SIZES 0%Q) in *.
  clearbody base.
  assert (H : (scale1 * base <= scale2 * base)%Q)
    by (apply Qmult_le_compat_r; assumption).
  lra.
Qed.

Lemma sizeForIndex_scale i scale scale' :
  (scale == scale')%Q -> sizeForIndex i scale = sizeForIndex i scale'.
Proof.
  intros Hs. unfold sizeForIndex, Math_round. f_equal.
  apply Qfloor_comp. now rewrite Hs.
Qed.

Lemma layout_in_size data cid el k p :
  layout_in data cid el !! k = Some p ->
  b_size (p_bubble p) =
  sizeForIndex k (Math_min (containerW el) (containerH el) / 832).
Proof.
  intros Hp.
  assert (Hb : map p_bubble (layout_in data cid el) !! k = Some (p_bubble p))
    by (rewrite list_lookup_fmap, Hp; reflexivity).
  unfold layout_in in Hb. rewrite layoutBubbles_bubbles, list_lookup_imap in Hb.
  destruct (data !! k) as [b|]; [|discriminate]. simpl in Hb.
  injection Hb as <-. reflexivity.
Qed.

Lemma containerW_measured el :
  (0 < rect_width el)%Q -> containerW el = rect_width el.
Proof.
  intros Hpos. unfold containerW, or_else.
  assert (E : Qeq_bool (rect_width el) 0 = false).
  { destruct (Qeq_bool (rect_width el) 0) eqn:E; [|reflexivity].
    apply Qeq_bool_eq in E. rewrite E in Hpos. discriminate. }
  now rewrite E, E.
Qed.

Lemma containerH_measured el :
  (0 < rect_height el)%Q -> containerH el = rect_height el.
Proof.
  intros Hpos. unfold containerH, or_else.
  assert (E : Qeq_bool (rect_height el) 0 = false).
  { destruct (Qeq_bool (rect_height el) 0) eqn:E; [|reflexivity].
    apply Qeq_bool_eq in E. rewrite E in Hpos. discriminate. }
  now rewrite E, E.
Qed.

(** X20 (bubbles grow with the container).  Of two containers whose
    rectangles have a positive width and height, the bubble at a
    position of the snapshot is no smaller in the one that is no
    narrower and no lower; and in a container whose smaller side is 832,
    the design size, it has the base size of its position.  A container
    that measures nothing, rectangle and offset size zero, is laid out
    as one of 900 by 680, and is no part of the comparison. *)
Theorem sizes_grow_with_container (data : list Bubble) (cid : string)
    (el1 el2 : Container) (k : nat) (p1 p2 : Placed) :
  (0 < rect_width el1)%Q -> (rect_width el1 <= rect_width el2)%Q ->
  (0 < rect_height el1)%Q -> (rect_height el1 <= rect_height el2)%Q ->
  layout_in data cid el1 !! k = Some p1 ->
  layout_in data cid el2 !! k = Some p2 ->
  (b_size (p_bubble p1) <= b_size (p_bubble p2))%Q /\
  ((Math_min (rect_width el1) (rect_height el1) == 832)%Q ->
   b_size (p_bubble p1) = Phyllo.sizeForIndex k) /\
  (forall el,
     (rect_width el == 0)%Q -> (offsetWidth el == 0)%Q ->
     (rect_height el == 0)%Q -> (offsetHeight el == 0)%Q ->
     containerW el = 900%Q /\ containerH el = 680%Q).
Proof.
  intros HW1 HW HH1 HH H1 H2.
  assert (HW2 : (0 < rect_width el2)%Q) by lra.
  assert (HH2 : (0 < rect_height el2)%Q) by lra.
  rewrite (layout_in_size _ _ _ _ _ H1), (layout_in_size _ _ _ _ _ H2).
  rewrite (containerW_measured el1 HW1), (containerH_measured el1 HH1),
          (containerW_measured el2 HW2), (containerH_measured el2 HH2).
  split; [|split].
  - apply sizeForIndex_mono.
    pose proof (Math_min_mono _ _ _ _ HW HH) as Hmin.
    apply Qmult_le_compat_r; [exact Hmin|discriminate].
  - intros Hd. rewrite <- (proj1 (sizeForIndex_default k)).
    apply sizeForIndex_scale. rewrite Hd. reflexivity.
  - intros el Hrw How Hrh Hoh. unfold containerW, containerH, or_else.
    apply Qeq_bool_iff in Hrw, How, Hrh, Hoh.
    now rewrite Hrw, How, Hrh, Hoh.
Qed.

End SizeGrowth.

(** * The page *)

Section PageFacts.
Import Render Page.
Context `{M : MathLib}.

Lemma bubbles_from_total now i docs :
  exists bubbles,
    bubbles_from now i docs = Some bubbles /\
    map b_id bubbles = map doc_id docs /\
    forall k b, bubbles !! k = Some b ->
      exists d, docs !! k = Some d /\
        b_id b = doc_id d /\ b_ts b = doc_ts d /\
        b_index b = Z.of_nat (i + k) /\
        b_size b = sizeForIndex (i + k) 1 /\
        Some (b_gradient b) = Period.bubbleGradientFromTimestamp (doc_ts d) now.
Proof.
  revert i. induction docs as [|d rest IH]; intros i; simpl.
  - exists []. split; [reflexivity|]. split; [reflexivity|].
    intros k b Hk. rewrite lookup_nil in Hk. discriminate.
  - destruct (gradient_total (doc_ts d) now) as [g Hg].
    destruct (IH (S i)) as (bs & Hbs & Hids & Hat).
    rewrite Hg, Hbs. simpl. eexists. split; [reflexivity|].
    split; [simpl; now rewrite Hids|].
    intros [|k] b Hk; simpl in Hk.
    + injection Hk as <-. exists d. simpl. rewrite Nat.add_0_r.
      repeat split; try reflexivity. now symmetry.
    + destruct (Hat k b Hk) as (d' & Hd' & Hrest). exists d'.
      split; [exact Hd'|]. now rewrite <- Nat.add_succ_comm.
Qed.

Lemma bubblesOf_total now docs :
  exists bubbles,
    bubblesOf now docs = Some bubbles /\
    map b_id bubbles = map doc_id docs.
Proof.
  destruct (bubbles_from_total now 0 docs) as (bs & Hbs & Hids & _).
  exists bs. split; [exact Hbs|exact Hids].
Qed.

(** X21 (bubbles of a snapshot).  A snapshot always yields its bubbles:
    none of the lookups fails, and the bubble at each position has the
    id and the timestamp of the record at that position, the position as
    its index, the base size of that position and the gradient of the
    record's time (of the clock, for a record whose timestamp is
    pending). *)
Theorem snapshot_gives_bubbles (now : Z) (docs : list Doc) :
  exists bubbles,
    bubblesOf now docs = Some bubbles /\
    length bubbles = length docs /\
    map b_id bubbles = map doc_id docs /\
    forall k b, bubbles !! k = Some b ->
      exists d, docs !! k = Some d /\
        b_id b = doc_id d /\ b_ts b = doc_ts d /\
        b_index b = Z.of_nat k /\
        b_size b = Phyllo.sizeForIndex k /\
        Some (b_gradient b) = Period.bubbleGradientFromTimestamp (doc_ts d) now.
Proof.
  destruct (bubbles_from_total now 0 docs) as (bs & Hbs & Hids & Hat).
  exists bs. split; [exact Hbs|]. split.
  - rewrite <- (length_map b_id bs), Hids. apply length_map.
  - split; [exact Hids|]. intros k b Hk.
    destruct (Hat k b Hk) as (d & Hd & Hid & Hts & Hix & Hsz & Hg).
    exists d. simpl in Hix, Hsz.
    rewrite (proj1 (sizeForIndex_default k)) in Hsz. auto 10.
Qed.

(** X22 (two views, one snapshot).  After the listener on the other
    person's collection has run on a snapshot whose record ids are
    [css_safe], each of the two fields holds an anchor for an id exactly
    when the snapshot has a record of that id, both caches hold the same
    bubbles, the user's own field is untouched, and from known-sets in
    step the two known-sets are equal. *)
Theorem snapshot_views_agree (now : Z) (docs : list Doc) (st : State) :
  is_Some (document st !! "theirBubbleField") ->
  is_Some (document st !! "theirBubbleFieldLeft") ->
  plain docs = true ->
  let st' := fst (onTheirSnapshot now docs st) in
  (forall id, In id (anchor_ids st' "theirBubbleField") <->
              In id (map doc_id docs)) /\
  (forall id, In id (anchor_ids st' "theirBubbleFieldLeft") <->
              In id (map doc_id docs)) /\
  (exists bubbles,
     bubblesOf now docs = Some bubbles /\
     lastData st' !! "theirBubbleField" = Some bubbles /\
     lastData st' !! "theirBubbleFieldLeft" = Some bubbles) /\
  document st' !! "myBubbleField" = document st !! "myBubbleField" /\
  (synced st "theirBubbleField" -> synced st "theirBubbleFieldLeft" ->
   known_of st' "theirBubbleField" = known_of st' "theirBubbleFieldLeft").
Proof.
  intros Hmain Hleft _ st'.
  destruct (bubblesOf_total now docs) as (bs & Hbs & Hids).
  assert (Hst' : st' = fst (renderBubbles bs "theirBubbleFieldLeft"
                         (fst (renderBubbles bs "theirBubbleField" st)))).
  { unfold st', onTheirSnapshot. rewrite Hbs.
    destruct (renderBubbles bs "theirBubbleField" st) as [st1 ops1].
    cbn [fst].
    now destruct (renderBubbles bs "theirBubbleFieldLeft" st1) as [st2 ops2]. }
  clearbody st'. subst st'.
  set (st1 := fst (renderBubbles bs "theirBubbleField" st)).
  set (st2 := fst (renderBubbles bs "theirBubbleFieldLeft" st1)).
  assert (Hne : "theirBubbleField" <> "theirBubbleFieldLeft") by discriminate.
  assert (Hne1 : "theirBubbleField" <> "myBubbleField") by discriminate.
  assert (Hne2 : "theirBubbleFieldLeft" <> "myBubbleField") by discriminate.
  assert (Hne' : "theirBubbleFieldLeft" <> "theirBubbleField") by discriminate.
  destruct (renderBubbles_elsewhere bs _ st _ Hne) as (Hd1 & _).
  destruct (renderBubbles_elsewhere bs _ st1 _ Hne') as (Hd2 & Hr2 & Hl2).
  destruct (renderBubbles_elsewhere bs _ st _ Hne1) as (Hm1 & _).
  destruct (renderBubbles_elsewhere bs _ st1 _ Hne2) as (Hm2 & _).
  fold st1 in Hd1, Hm1. fold st2 in Hd2, Hr2, Hl2, Hm2.
  assert (Hleft1 : is_Some (document st1 !! "theirBubbleFieldLeft"))
    by now rewrite Hd1.
  split; [|split; [|split; [|split]]].
  - intros id. unfold anchor_ids. rewrite Hd2.
    fold (anchor_ids st1 "theirBubbleField"). rewrite <- Hids.
    now apply renderBubbles_anchor_ids.
  - intros id. rewrite <- Hids. now apply renderBubbles_anchor_ids.
  - exists bs. split; [exact Hbs|]. split.
    + rewrite Hl2. unfold st1, renderBubbles.
      destruct Hmain as [el ->]. simpl. now rewrite lookup_insert_eq.
    + unfold st2, renderBubbles.
      destruct Hleft1 as [el ->]. simpl. now rewrite lookup_insert_eq.
  - now rewrite Hm2, Hm1.
  - intros Hs1 Hs2.
    assert (Hk1 : known_of st2 "theirBubbleField" = list_to_set (map b_id bs)).
    { unfold known_of. rewrite Hr2. fold (known_of st1 "theirBubbleField").
      now apply renderBubbles_known. }
    assert (Hk2 : known_of st2 "theirBubbleFieldLeft" = list_to_set (map b_id bs)).
    { apply renderBubbles_known; [exact Hleft1|].
      now apply renderBubbles_synced. }
    now rewrite Hk1, Hk2.
Qed.

(** Every cache stays in step with its container. *)
Lemma renderBubbles_cached data cid st cid' :
  cached st cid' -> cached (fst (renderBubbles data cid st)) cid'.
Proof.
  intros Hc. destruct (document st !! cid) as [el|] eqn:Hel.
  - destruct (String.string_dec cid cid') as [<-|Hne].
    + intros data' Hdata'.
      assert (data' = data) as ->.
      { unfold renderBubbles in Hdata'. rewrite Hel in Hdata'. simpl in Hdata'.
        rewrite lookup_insert_eq in Hdata'. congruence. }
      split.
      * apply renderBubbles_container. rewrite Hel. eauto.
      * intros id. apply renderBubbles_anchor_ids. rewrite Hel. eauto.
    + destruct (renderBubbles_elsewhere data cid st cid' Hne) as (Hd & _ & Hl).
      intros data' Hdata'. rewrite Hl in Hdata'.
      destruct (Hc data' Hdata') as [Hex Hids].
      unfold anchor_ids in *. rewrite Hd. split; assumption.
  - unfold renderBubbles. rewrite Hel. exact Hc.
Qed.

Lemma step_cached st e cid : cached st cid -> cached (fst (step st e)) cid.
Proof.
  intros Hc. destruct e as [now docs|now docs|cid0 w h ow oh|cid0]; simpl.
  - unfold onTheirSnapshot. destruct (bubblesOf now docs) as [bs|]; [|exact Hc].
    pose proof (renderBubbles_cached bs "theirBubbleField" st cid Hc) as Hc1.
    destruct (renderBubbles bs "theirBubbleField" st) as [st1 ops1].
    pose proof (renderBubbles_cached bs "theirBubbleFieldLeft" st1 cid Hc1) as Hc2.
    destruct (renderBubbles bs "theirBubbleFieldLeft" st1) as [st2 ops2].
    exact Hc2.
  - unfold onMySnapshot. destruct (bubblesOf now docs) as [bs|]; [|exact Hc].
    now apply renderBubbles_cached.
  - intros data Hdata. destruct (Hc data Hdata) as [Hex Hids].
    destruct (resize_keeps cid0 w h ow oh st cid) as [Hsame _].
    rewrite Hsame. split; [|exact Hids].
    unfold resize. simpl. rewrite lookup_alter.
    destruct (decide (cid0 = cid)) as [->|_]; [|exact Hex].
    now apply fmap_is_Some.
  - unfold on_frame. destruct (lastData st !! cid0) as [data|]; [|exact Hc].
    destruct (Nat.ltb 0 (length data)); [|exact Hc].
    now apply renderBubbles_cached.
Qed.

Lemma run_cached st events cid :
  loaded st -> cached (run st events) cid.
Proof.
  intros [_ Hempty]. unfold run.
  induction events as [|e events IH] using rev_ind.
  - intros data Hdata. simpl in Hdata. rewrite Hempty, lookup_empty in Hdata.
    discriminate.
  - rewrite foldl_snoc. now apply step_cached.
Qed.

(** A pass over the cached snapshot of a container. *)
Lemma cached_refresh data cid st :
  cached st cid -> lastData st !! cid = Some data ->
  snd (renderBubbles data cid st) = map Updated (map b_id data) /\
  anchor_ids (fst (renderBubbles data cid st)) cid = anchor_ids st cid /\
  known_of (fst (renderBubbles data cid st)) cid = known_of st cid.
Proof.
  intros Hc Hdata. destruct (Hc _ Hdata) as [[el Hel] Hids].
  destruct (renderBubbles_result data cid st el Hel) as (Hops & Hdoc & Hk).
  set (laid := layout_in data cid el) in *.
  destruct (pass_refresh _ create reposition_keeps_id
              (list_to_set (laid_ids laid)) laid (anchors el) (known_of st cid))
    as (Ho & Hn & Hkn).
  { intros n Hn. apply elem_of_list_to_set, list_elem_of_In.
    unfold laid. rewrite layout_in_ids. apply Hids.
    rewrite (anchor_ids_of _ _ _ Hel). now apply in_map. }
  { intros id Hid. unfold laid in Hid. rewrite layout_in_ids in Hid.
    apply Hids in Hid. now rewrite (anchor_ids_of _ _ _ Hel) in Hid. }
  cbv zeta in Ho, Hn, Hkn. rewrite Ho in Hops. rewrite Hkn in Hk.
  unfold laid in Hops. rewrite layout_in_ids in Hops.
  split; [exact Hops|]. split; [|exact Hk].
  now rewrite (anchor_ids_of _ _ _ Hdoc), (anchor_ids_of _ _ _ Hel).
Qed.

(** X23 (no pop-in on resize).  Whatever snapshots of [css_safe] record
    ids, resizes and frames the page has gone through since it was
    loaded, the frame callback of a resize observer creates no anchor
    and removes none, and it leaves the ids of the anchors and the
    known-set as they are: with a cached snapshot that is not empty it
    updates, once for each bubble, and otherwise it does nothing. *)
Theorem resize_frame_only_updates (st0 : State) (events : list Event)
    (cid : string) :
  loaded st0 -> forallb plain_event events = true ->
  let st := run st0 events in
  let ops := snd (on_frame cid st) in
  created_ids ops = [] /\ removed_ids ops = [] /\
  anchor_ids (fst (on_frame cid st)) cid = anchor_ids st cid /\
  known_of (fst (on_frame cid st)) cid = known_of st cid /\
  (forall data, lastData st !! cid = Some data -> data <> [] ->
     ops = map Updated (map b_id data)) /\
  (lastData st !! cid = None \/ lastData st !! cid = Some [] ->
     on_frame cid st = (st, [])).
Proof.
  intros Hloaded _ st ops.
  pose proof (run_cached st0 events cid Hloaded) as Hc. fold st in Hc.
  destruct (lastData st !! cid) as [[|b data]|] eqn:Hdata.
  - assert (Hf : on_frame cid st = (st, []))
      by (unfold on_frame; now rewrite Hdata).
    unfold ops. rewrite Hf. simpl. repeat split; auto.
    intros data [= <-] Hne. now destruct Hne.
  - assert (Hf : on_frame cid st = renderBubbles (b :: data) cid st)
      by (unfold on_frame; now rewrite Hdata).
    unfold ops. rewrite Hf. clear Hf.
    destruct (cached_refresh _ _ _ Hc Hdata) as (Hops & Hids & Hk).
    rewrite Hops.
    split; [apply created_ids_Updated|]. split; [apply removed_ids_Updated|].
    split; [exact Hids|]. split; [exact Hk|]. split.
    + now intros data' [= <-] _.
    + intros [[=]|[=]].
  - assert (Hf : on_frame cid st = (st, []))
      by (unfold on_frame; now rewrite Hdata).
    unfold ops. rewrite Hf. simpl. repeat split; auto. intros ? [=].
Qed.

End PageFacts.

(** * Resize observation *)

Section ObserverFacts.
Import Observer.

Lemma on_resize_pending t :
  (pending t = [] \/ exists id, rafId t = Some id /\ pending t = [id]) ->
  pending (on_resize t) = [next_handle t] /\
  rafId (on_resize t) = Some (next_handle t).
Proof.
  unfold on_resize, requestAnimationFrame, cancelAnimationFrame.
  intros [Hp|(id & Hid & Hp)].
  - destruct (rafId t); simpl; rewrite Hp; auto.
  - rewrite Hid. simpl. rewrite Hp. rewrite filter_cons.
    destruct (decide (id <> id)) as [Hne|_]; [now destruct Hne|]. auto.
Qed.

Lemma ticks_pending first ticks :
  let t := foldl tick (idle first) ticks in
  pending t = [] \/ exists id, rafId t = Some id /\ pending t = [id].
Proof.
  induction ticks as [|e ticks IH] using rev_ind; [now left|].
  rewrite foldl_snoc. cbv zeta in IH.
  destruct e; simpl; [|now left].
  destruct (on_resize_pending _ IH) as [Hp Hid]. right. eauto.
Qed.

(** X24 (one re-layout for each frame).  Whatever notifications and
    frames went before, at most one frame request is pending; a frame
    that follows a burst of notifications, however many, runs the
    callback once, and a frame that follows no notification does not
    run it. *)
Theorem resize_is_debounced (first : positive) (ticks : list Tick) (n : nat) :
  let t := foldl tick (idle first) ticks in
  (length (pending t) <= 1)%nat /\
  fst (on_frame (foldl tick t (repeat Notify (S n)))) = 1%nat /\
  fst (on_frame (snd (on_frame t))) = 0%nat.
Proof.
  intros t. split; [|split].
  - destruct (ticks_pending first ticks) as [Hp|(id & _ & Hp)]; fold t in Hp;
      rewrite Hp; simpl; lia.
  - unfold t. rewrite <- foldl_app.
    replace (ticks ++ repeat Notify (S n))
      with ((ticks ++ repeat Notify n) ++ [Notify])
      by (rewrite <- app_assoc; f_equal; symmetry; apply (repeat_cons n Notify)).
    rewrite foldl_snoc. cbn [tick]. unfold on_frame. cbn [fst].
    destruct (on_resize_pending _ (ticks_pending first (ticks ++ repeat Notify n)))
      as [Hp _].
    now rewrite Hp.
  - reflexivity.
Qed.

End ObserverFacts.

(** * The panel divider *)

Section ResizerFacts.
Import Resizer.

Lemma clamp_bounds pct : (25 <= clamp pct)%Q /\ (clamp pct <= 75)%Q.
Proof.
  unfold clamp, Math_min, Math_max_num.
  destruct (Qle_bool 25 pct) eqn:E1.
  - apply Qle_bool_iff in E1.
    destruct (Qle_bool 75 pct) eqn:E2; [split; discriminate|].
    split; [exact E1|]. apply Qlt_le_weak, leb_false_lt. exact E2.
  - destruct (Qle_bool 75 25) eqn:E2; [discriminate|]. split; discriminate.
Qed.

Lemma clamp_inside pct :
  (25 <= pct)%Q -> (pct <= 75)%Q -> (clamp pct == pct)%Q.
Proof.
  intros H1 H2. unfold clamp, Math_min, Math_max_num.
  apply Qle_bool_iff in H1. rewrite H1.
  destruct (Qle_bool 75 pct) eqn:E; [|reflexivity].
  apply Qle_bool_iff in E. now apply Qle_antisym.
Qed.

Lemma handle_bounded s e :
  bounded (panelLeft s) -> bounded (panelLeft (handle s e)).
Proof.
  intros Hb.
  assert (Hmove : forall rect w x y, bounded (panelLeft (onMove rect w x y s))).
  { intros rect w x y. unfold onMove.
    destruct (negb (dragging s)); [exact Hb|].
    destruct (leb w 600); intros v; simpl;
      intros [Hv|[Hv|Hv]];
      first [injection Hv as <-; apply clamp_bounds
            |apply Hb; auto]. }
  destruct e; simpl; try exact Hb; try apply Hmove.
  - destruct (dragging s); [apply Hmove|exact Hb].
  - unfold stopDrag. now destruct (negb (dragging s)).
  - unfold stopDrag. now destruct (negb (dragging s)).
  - unfold stopDrag. now destruct (negb (dragging s)).
Qed.

(** X25 (divider bounds).  From a style whose properties, where set,
    hold numbers from 25 to 75, any sequence of presses, moves and
    releases in which every move reads a rectangle of positive width and
    height leaves a style whose properties hold numbers from 25 to 75.
    (On a rectangle without extent the source divides by zero and can
    write [NaN]; such moves are no part of the statement.) *)
Theorem resizer_keeps_bounds (s : State) (events : list Event) :
  bounded (panelLeft s) -> Forall measurable events ->
  bounded (panelLeft (run s events)).
Proof.
  intros Hb _. unfold run.
  induction events as [|e events IH] using rev_ind; [exact Hb|].
  rewrite foldl_snoc. now apply handle_bounded.
Qed.

(** X26 (no press, no move).  While the handle is not held, moves and
    releases, mouse or touch, change nothing at all. *)
Theorem resizer_ignores_idle_moves (s : State) (events : list Event) :
  dragging s = false -> forallb (fun e => negb (is_press e)) events = true ->
  run s events = s.
Proof.
  intros Hidle. unfold run. revert s Hidle.
  induction events as [|e events IH]; intros s Hidle Hev; [reflexivity|].
  simpl in Hev. apply andb_true_iff in Hev as [He Hev]. simpl.
  assert (Hstep : handle s e = s).
  { destruct e; try discriminate He; simpl; unfold onMove, stopDrag;
      now rewrite Hidle. }
  rewrite Hstep. now apply IH.
Qed.

(** X27 (divider follows the pointer).  While the handle is held, a
    move on a window wider than 600 sets [--left-w] to the pointer's
    share of the width of the second screen, in percent, when that share
    lies between 25 and 75, to 25 below and to 75 above, and leaves the
    other properties alone; on a narrower window it sets [flex-basis]
    and [height] to the pointer's share of the height in the same way,
    and leaves [--left-w] alone. *)
Theorem resizer_follows_pointer (rect : Rect) (innerWidth x y : Q) (s : State) :
  dragging s = true -> (0 < r_width rect)%Q -> (0 < r_height rect)%Q ->
  let s' := handle s (MouseMove rect innerWidth x y) in
  let across := ((x - r_left rect) / r_width rect * 100)%Q in
  let down := ((y - r_top rect) / r_height rect * 100)%Q in
  dragging s' = true /\
  ((600 < innerWidth)%Q ->
   flexBasis (panelLeft s') = flexBasis (panelLeft s) /\
   height (panelLeft s') = height (panelLeft s) /\
   exists v, left_w (panelLeft s') = Some v /\
     ((25 <= across)%Q -> (across <= 75)%Q -> (v == across)%Q) /\
     ((across <= 25)%Q -> (v == 25)%Q) /\ ((75 <= across)%Q -> (v == 75)%Q)) /\
  ((innerWidth <= 600)%Q ->
   left_w (panelLeft s') = left_w (panelLeft s) /\
   exists v, flexBasis (panelLeft s') = Some v /\ height (panelLeft s') = Some v /\
     ((25 <= down)%Q -> (down <= 75)%Q -> (v == down)%Q) /\
     ((down <= 25)%Q -> (v == 25)%Q) /\ ((75 <= down)%Q -> (v == 75)%Q)).
Proof.
  intros Hdrag _ _ s' across down.
  assert (Hclamp : forall pct,
            ((25 <= pct)%Q -> (pct <= 75)%Q -> (clamp pct == pct)%Q) /\
            ((pct <= 25)%Q -> (clamp pct == 25)%Q) /\
            ((75 <= pct)%Q -> (clamp pct == 75)%Q)).
  { intros pct. split; [apply clamp_inside|]. split.
    - intros Hle. destruct (Qlt_le_dec pct 25) as [Hlt|Hge].
      + unfold clamp, Math_min, Math_max_num.
        destruct (Qle_bool 25 pct) eqn:E.
        * apply Qle_bool_iff in E. lra.
        * reflexivity.
      + rewrite clamp_inside; lra.
    - intros Hge. destruct (Qlt_le_dec 75 pct) as [Hlt|Hle].
      + unfold clamp, Math_min, Math_max_num.
        destruct (Qle_bool 25 pct) eqn:E1.
        * destruct (Qle_bool 75 pct) eqn:E2; [reflexivity|].
          apply leb_false_lt in E2. lra.
        * apply leb_false_lt in E1. lra.
      + rewrite clamp_inside; lra. }
  unfold s'. simpl. unfold onMove. rewrite Hdrag. simpl.
  destruct (leb innerWidth 600) eqn:Hw.
  - apply leb_true_le in Hw. simpl. split; [reflexivity|]. split.
    + intros Hwide. lra.
    + intros _. split; [reflexivity|]. eexists. split; [reflexivity|].
      split; [reflexivity|]. apply Hclamp.
  - apply leb_false_lt in Hw. simpl. split; [reflexivity|]. split.
    + intros _. split; [reflexivity|]. split; [reflexivity|].
      eexists. split; [reflexivity|]. apply Hclamp.
    + intros Hnarrow. lra.
Qed.

End ResizerFacts.


(** * More concrete runs *)

Section MoreRuns.
Import Render.
#[local] Existing Instance Approx.math.

(** A circle of diameter 10 against one of radius 5 at the centre: the
    rings 11, 13 and 15 are too close, the search ends on a later one. *)
Lemma ring_scan_first_fit_witness :
  exists pos,
    Ring.search 450 340 [mkDisc 450 340 5] (Sample.bubble "b" 1 10) = Some pos /\
    exists (k : nat) (a : Z),
      pos = candidate 450 340 (nth_ring (10 / 2 + 6) k) a /\
      Ring.overlaps [mkDisc 450 340 5] (fst pos) (snd pos) (10 / 2) = false.
Proof.
  assert (H : is_Some (Ring.search 450 340 [mkDisc 450 340 5]
                         (Sample.bubble "b" 1 10)))
    by (vm_compute; eauto).
  destruct H as [pos H]. exists pos. split; [exact H|].
  destruct (ring_scan_first_fit _ _ _ _ _ H)
    as (k & a & _ & _ & Hpos & Hclear & _).
  exists k, a. split; [exact Hpos|exact Hclear].
Defined.

(** Other ids, indices and timestamps, the same sizes. *)
Lemma layout_reads_only_sizes_witness :
  map b_size Sample.two =
    map b_size [Sample.bubble "x" 5 100; Sample.bubble "y" 7 100] /\
  map geometry (Ring.layoutBubbles Sample.two 900 680 0) =
  map geometry
    (Ring.layoutBubbles [Sample.bubble "x" 5 100; Sample.bubble "y" 7 100]
       900 680 0).
Proof.
  assert (H : map b_size Sample.two =
              map b_size [Sample.bubble "x" 5 100; Sample.bubble "y" 7 100])
    by reflexivity.
  split; [exact H|].
  exact (proj1 (layout_reads_only_sizes _ _ 900 680 0 H)).
Defined.

Lemma render_layout_by_count_witness :
  length Sample.small = length [Sample.bubble "x" 5 1; Sample.bubble "y" 7 2] /\
  map geometry (layout_in Sample.small "myBubbleField" Sample.field) =
  map geometry
    (layout_in [Sample.bubble "x" 5 1; Sample.bubble "y" 7 2] "myBubbleField"
       Sample.field).
Proof.
  assert (H : length Sample.small =
              length [Sample.bubble "x" 5 1; Sample.bubble "y" 7 2])
    by reflexivity.
  split; [exact H|].
  exact (render_layout_by_count _ _ "myBubbleField" Sample.field H).
Defined.

Lemma rendered_sizes_positive_witness :
  (6 <= containerW Sample.field)%Q /\ (6 <= containerH Sample.field)%Q /\
  forall p, In p (layout_in Sample.small "myBubbleField" Sample.field) ->
    (1 <= b_size (p_bubble p))%Q.
Proof.
  assert (HW : (6 <= containerW Sample.field)%Q) by (vm_compute; discriminate).
  assert (HH : (6 <= containerH Sample.field)%Q) by (vm_compute; discriminate).
  split; [exact HW|]. split; [exact HH|]. intros p Hp.
  exact (proj1 (rendered_sizes_positive Sample.small "myBubbleField"
                  Sample.field HW HH p Hp)).
Defined.

Lemma sample_ids_distinct : NoDup ["a"; "b"].
Proof.
  apply NoDup_cons. split; [|apply NoDup_singleton].
  intros H. apply list_elem_of_singleton in H. discriminate.
Qed.

Lemma sample_page_distinct : distinct Sample.page "myBubbleField".
Proof.
  unfold distinct. rewrite (anchor_ids_of _ _ _ sample_page_field).
  apply NoDup_nil_2.
Qed.

(** The two small circles into the empty field of a fresh page. *)
Lemma first_pass_creates_all_witness :
  document Sample.page !! "myBubbleField" = Some Sample.field /\
  anchors Sample.field = [] /\ NoDup (map b_id Sample.small) /\
  css_safe_ids (map b_id Sample.small) = true /\
  snd (renderBubbles Sample.small "myBubbleField" Sample.page) =
    [Created "a"; Created "b"] /\
  anchor_ids (fst (renderBubbles Sample.small "myBubbleField" Sample.page))
    "myBubbleField" = ["a"; "b"].
Proof.
  split; [exact sample_page_field|]. split; [reflexivity|].
  split; [exact sample_ids_distinct|]. split; [reflexivity|].
  destruct (first_pass_creates_all Sample.small "myBubbleField" Sample.page
              Sample.field sample_page_field eq_refl sample_ids_distinct
              eq_refl)
    as (Hops & Hids & _).
  split; [exact Hops|exact Hids].
Defined.

Lemma anchors_show_layout_witness :
  document Sample.page !! "myBubbleField" = Some Sample.field /\
  distinct Sample.page "myBubbleField" /\ NoDup (map b_id Sample.small) /\
  css_safe_ids (map b_id Sample.small) = true /\
  exists el',
    document (fst (renderBubbles Sample.small "myBubbleField" Sample.page))
      !! "myBubbleField" = Some el' /\
    length (anchors el') = 2%nat /\
    forall p, In p (layout_in Sample.small "myBubbleField" Sample.field) ->
      exists n, In n (anchors el') /\ shows n p.
Proof.
  split; [exact sample_page_field|]. split; [exact sample_page_distinct|].
  split; [exact sample_ids_distinct|]. split; [reflexivity|].
  destruct (anchors_show_layout Sample.small "myBubbleField" Sample.page
              Sample.field sample_page_field sample_page_distinct
              sample_ids_distinct eq_refl)
    as (el' & Hdoc & Hlen & Hshow & _).
  exists el'. split; [exact Hdoc|]. split; [exact Hlen|exact Hshow].
Defined.

(** After the first circle, the first and a second. *)
Lemma append_creates_only_new_witness :
  document Sample.page !! "myBubbleField" = Some Sample.field /\
  distinct Sample.page "myBubbleField" /\
  NoDup (map b_id (Sample.one ++ [Sample.bubble "b" 1 10])) /\
  css_safe_ids (map b_id (Sample.one ++ [Sample.bubble "b" 1 10])) = true /\
  let st1 := fst (renderBubbles Sample.one "myBubbleField" Sample.page) in
  snd (renderBubbles (Sample.one ++ [Sample.bubble "b" 1 10]) "myBubbleField" st1) =
    [Updated "a"; Created "b"].
Proof.
  split; [exact sample_page_field|]. split; [exact sample_page_distinct|].
  split; [exact sample_ids_distinct|]. split; [reflexivity|].
  exact (proj1 (append_creates_only_new Sample.one (Sample.bubble "b" 1 10)
                  "myBubbleField" Sample.page Sample.field sample_page_field
                  sample_page_distinct sample_ids_distinct eq_refl)).
Defined.

(** After the first and a second circle, the first alone. *)
Lemma remove_last_keeps_others_witness :
  document Sample.page !! "myBubbleField" = Some Sample.field /\
  distinct Sample.page "myBubbleField" /\
  NoDup (map b_id (Sample.one ++ [Sample.bubble "b" 1 10])) /\
  css_safe_ids (map b_id (Sample.one ++ [Sample.bubble "b" 1 10])) = true /\
  let st1 := fst (renderBubbles (Sample.one ++ [Sample.bubble "b" 1 10])
                    "myBubbleField" Sample.page) in
  snd (renderBubbles Sample.one "myBubbleField" st1) =
    [Removed "b"; Updated "a"].
Proof.
  split; [exact sample_page_field|]. split; [exact sample_page_distinct|].
  split; [exact sample_ids_distinct|]. split; [reflexivity|].
  exact (proj1 (remove_last_keeps_others Sample.one (Sample.bubble "b" 1 10)
                  "myBubbleField" Sample.page Sample.field sample_page_field
                  sample_page_distinct sample_ids_distinct eq_refl)).
Defined.

Lemma renders_commute_witness :
  "theirBubbleField" <> "myBubbleField" /\
  fst (renderBubbles Sample.one "myBubbleField"
         (fst (renderBubbles Sample.small "theirBubbleField" Sample.page))) =
  fst (renderBubbles Sample.small "theirBubbleField"
         (fst (renderBubbles Sample.one "myBubbleField" Sample.page))).
Proof.
  assert (Hne : "theirBubbleField" <> "myBubbleField") by discriminate.
  split; [exact Hne|].
  destruct (renders_commute Sample.small Sample.one _ _ Sample.page Hne)
    as (_ & _ & _ & _ & Hsame).
  exact Hsame.
Defined.

Lemma scene_main_field :
  document Scene.page !! "theirBubbleField" = Some Sample.field.
Proof. vm_compute. reflexivity. Qed.

Lemma scene_left_field :
  document Scene.page !! "theirBubbleFieldLeft" = Some Sample.field.
Proof. vm_compute. reflexivity. Qed.

Lemma scene_loaded : Page.loaded Scene.page.
Proof.
  split; [|reflexivity]. split; [reflexivity|]. intros cid el H.
  unfold Scene.page in H. simpl in H.
  apply lookup_insert_Some in H as [[_ <-]|[_ H]]; [reflexivity|].
  apply lookup_insert_Some in H as [[_ <-]|[_ H]]; [reflexivity|].
  apply lookup_insert_Some in H as [[_ <-]|[_ H]]; [reflexivity|].
  rewrite lookup_empty in H. discriminate.
Qed.

(** Two records, the second with its timestamp pending, delivered to a
    page whose three fields are empty. *)
Lemma snapshot_views_agree_witness :
  is_Some (document Scene.page !! "theirBubbleField") /\
  is_Some (document Scene.page !! "theirBubbleFieldLeft") /\
  Page.plain Scene.docs = true /\
  let st' := fst (Page.onTheirSnapshot 0 Scene.docs Scene.page) in
  (forall id, In id (anchor_ids st' "theirBubbleField") <-> In id ["a"; "b"]) /\
  (forall id, In id (anchor_ids st' "theirBubbleFieldLeft") <-> In id ["a"; "b"]).
Proof.
  assert (Hmain : is_Some (document Scene.page !! "theirBubbleField"))
    by (rewrite scene_main_field; eauto).
  assert (Hleft : is_Some (document Scene.page !! "theirBubbleFieldLeft"))
    by (rewrite scene_left_field; eauto).
  split; [exact Hmain|]. split; [exact Hleft|]. split; [reflexivity|].
  destruct (snapshot_views_agree 0 Scene.docs Scene.page Hmain Hleft eq_refl)
    as (H1 & H2 & _).
  split; [exact H1|exact H2].
Defined.

(** A snapshot, then the main field resized, then its frame. *)
Lemma resize_frame_only_updates_witness :
  Page.loaded Scene.page /\
  forallb Page.plain_event
    [Page.TheirSnapshot 0 Scene.docs;
     Page.Resized "theirBubbleField" 500 400 500 400] = true /\
  let st := Page.run Scene.page
              [Page.TheirSnapshot 0 Scene.docs;
               Page.Resized "theirBubbleField" 500 400 500 400] in
  created_ids (snd (Page.on_frame "theirBubbleField" st)) = [] /\
  removed_ids (snd (Page.on_frame "theirBubbleField" st)) = [].
Proof.
  split; [exact scene_loaded|]. split; [reflexivity|].
  destruct (resize_frame_only_updates Scene.page
              [Page.TheirSnapshot 0 Scene.docs;
               Page.Resized "theirBubbleField" 500 400 500 400]
              "theirBubbleField" scene_loaded eq_refl)
    as (Hc & Hr & _).
  split; [exact Hc|exact Hr].
Defined.

(** The two small circles into the empty field. *)
Lemma pass_operations_witness :
  is_Some (document Sample.page !! "myBubbleField") /\
  NoDup (map b_id Sample.small) /\
  css_safe_ids (map b_id Sample.small) = true /\
  snd (renderBubbles Sample.small "myBubbleField" Sample.page) =
    pass_trace (anchor_ids Sample.page "myBubbleField") ["a"; "b"].
Proof.
  assert (Hel : is_Some (document Sample.page !! "myBubbleField"))
    by (rewrite sample_page_field; eauto).
  split; [exact Hel|]. split; [exact sample_ids_distinct|].
  split; [reflexivity|].
  exact (proj1 (pass_operations Sample.small "myBubbleField" Sample.page
                  Hel sample_ids_distinct eq_refl)).
Defined.

(** One circle in a 500 by 400 field and in the 900 by 680 field. *)
Lemma sizes_grow_with_container_witness :
  (0 < rect_width (mkContainer 500 400 500 400 []))%Q /\
  (rect_width (mkContainer 500 400 500 400 []) <= rect_width Sample.field)%Q /\
  (0 < rect_height (mkContainer 500 400 500 400 []))%Q /\
  (rect_height (mkContainer 500 400 500 400 []) <= rect_height Sample.field)%Q /\
  exists p1 p2,
    layout_in Sample.one "myBubbleField" (mkContainer 500 400 500 400 [])
      !! 0%nat = Some p1 /\
    layout_in Sample.one "myBubbleField" Sample.field !! 0%nat = Some p2 /\
    (b_size (p_bubble p1) <= b_size (p_bubble p2))%Q.
Proof.
  assert (HW1 : (0 < rect_width (mkContainer 500 400 500 400 []))%Q)
    by reflexivity.
  assert (HW : (rect_width (mkContainer 500 400 500 400 []) <=
                rect_width Sample.field)%Q) by (vm_compute; discriminate).
  assert (HH1 : (0 < rect_height (mkContainer 500 400 500 400 []))%Q)
    by reflexivity.
  assert (HH : (rect_height (mkContainer 500 400 500 400 []) <=
                rect_height Sample.field)%Q) by (vm_compute; discriminate).
  assert (H1 : is_Some (layout_in Sample.one "myBubbleField"
                          (mkContainer 500 400 500 400 []) !! 0%nat))
    by (vm_compute; eauto).
  assert (H2 : is_Some (layout_in Sample.one "myBubbleField" Sample.field
                          !! 0%nat))
    by (vm_compute; eauto).
  destruct H1 as [p1 H1], H2 as [p2 H2].
  split; [exact HW1|]. split; [exact HW|]. split; [exact HH1|].
  split; [exact HH|]. exists p1, p2.
  split; [exact H1|]. split; [exact H2|].
  exact (proj1 (sizes_grow_with_container Sample.one "myBubbleField" _ _ 0
                  p1 p2 HW1 HW HH1 HH H1 H2)).
Defined.

End MoreRuns.

Section ResizerRuns.
Import Resizer.

Lemma unset_bounded : bounded (mkPanelStyle None None None).
Proof. intros v [H|[H|H]]; discriminate. Qed.

(** A press, a move far to the right on a wide window, a release. *)
Lemma resizer_keeps_bounds_witness :
  bounded (panelLeft (initial (mkPanelStyle None None None))) /\
  Forall measurable
    [MouseDown; MouseMove (mkRect 0 0 1000 800) 1200 900 100; MouseUp] /\
  bounded (panelLeft
    (run (initial (mkPanelStyle None None None))
       [MouseDown; MouseMove (mkRect 0 0 1000 800) 1200 900 100; MouseUp])).
Proof.
  assert (Hm : Forall measurable
            [MouseDown; MouseMove (mkRect 0 0 1000 800) 1200 900 100; MouseUp]).
  { repeat constructor. }
  split; [exact unset_bounded|]. split; [exact Hm|].
  exact (resizer_keeps_bounds (initial (mkPanelStyle None None None)) _
           unset_bounded Hm).
Defined.

Lemma resizer_ignores_idle_moves_witness :
  dragging (initial (mkPanelStyle None None None)) = false /\
  forallb (fun e => negb (is_press e))
    [MouseMove (mkRect 0 0 1000 800) 1200 900 100; MouseUp] = true /\
  run (initial (mkPanelStyle None None None))
    [MouseMove (mkRect 0 0 1000 800) 1200 900 100; MouseUp] =
  initial (mkPanelStyle None None None).
Proof.
  split; [reflexivity|]. split; [reflexivity|].
  exact (resizer_ignores_idle_moves (initial (mkPanelStyle None None None))
           [MouseMove (mkRect 0 0 1000 800) 1200 900 100; MouseUp]
           eq_refl eq_refl).
Defined.

(** The handle held, the pointer at 400 of 1000 on a wide window. *)
Lemma resizer_follows_pointer_witness :
  dragging (mkState true (mkPanelStyle None None None)) = true /\
  (0 < r_width (mkRect 0 0 1000 800))%Q /\
  (0 < r_height (mkRect 0 0 1000 800))%Q /\
  exists v,
    left_w (panelLeft
      (handle (mkState true (mkPanelStyle None None None))
         (MouseMove (mkRect 0 0 1000 800) 1200 400 100))) = Some v /\
    (v == 40)%Q.
Proof.
  assert (Hw : (0 < r_width (mkRect 0 0 1000 800))%Q) by reflexivity.
  assert (Hh : (0 < r_height (mkRect 0 0 1000 800))%Q) by reflexivity.
  split; [reflexivity|]. split; [exact Hw|]. split; [exact Hh|].
  destruct (resizer_follows_pointer (mkRect 0 0 1000 800) 1200 400 100
              (mkState true (mkPanelStyle None None None)) eq_refl Hw Hh)
    as (_ & Hwide & _).
  destruct (Hwide eq_refl) as (_ & _ & v & Hv & Hin & _).
  exists v. split; [exact Hv|].
  rewrite Hin; [reflexivity|discriminate|discriminate].
Defined.

End ResizerRuns.
